(** * F1Dashboard: the data derivation layer of [utils.py] and [plots.py]

    A shallow embedding of the functions that turn telemetry, lap records and
    the historical snapshots into the tables the dashboard plots, followed by
    the properties of the specification that were checked against them.

    Conventions of the embedding.
    - A pandas [DataFrame] is a list of rows in index order; where the code
      addresses rows by label ([df.loc[label] = ...], [pd.concat(axis=1)]) the
      label is kept next to the row.
    - Python exceptions are values of [exn]; a function that can raise
      returns [result].  The functions of the event list, of the driver list
      and of the strategy axis raise exceptions of their own and return
      [Exc.outcome].
    - [float] values (distances, speeds) are idealised as rationals [Q]:
      comparisons, sums and quotients are exact.  [NaN] cells of a frame are
      [None].
    - What comes from outside the repository (fastf1 sessions, the CSV
      snapshots, pycountry, the team colour table) is an argument. *)

From Stdlib Require Import List ZArith QArith Bool String Ascii Lia.
From Stdlib Require Import Sorting.Sorted Sorting.Permutation.
From Stdlib Require OrderedTypeEx.
From Stdlib Require OrderedTypeEx DecimalString DecimalPos.
Import ListNotations.

Set Implicit Arguments.

(* ================================================================== *)
(** * Python results *)

Module Py.

Inductive exn : Type :=
| ZeroDivisionError
| KeyError (key : string)
| ValueError.

Inductive result (A : Type) : Type :=
| Ok (a : A)
| Raise (e : exn).

Arguments Ok {A} a.
Arguments Raise {A} e.

Definition bind {A B} (m : result A) (k : A -> result B) : result B :=
  match m with
  | Ok a => k a
  | Raise e => Raise e
  end.

End Py.

Import Py.

Notation "x <- m ;; k" := (Py.bind m (fun x => k))
  (at level 61, m at next level, right associativity).

(* ================================================================== *)
(** * Numbers *)

(** [a > b] on floats. *)
Definition Qgtb (a b : Q) : bool := negb (Qle_bool a b).

(** Round half to even of a rational to an integer (numpy's [rint]). *)
Definition rint (q : Q) : Z :=
  let n := Qnum q in
  let d := Z.pos (Qden q) in
  let f := (n / d)%Z in
  let r2 := (2 * (n mod d))%Z in
  if (r2 <? d)%Z then f
  else if (d <? r2)%Z then (f + 1)%Z
  else if Z.even f then f else (f + 1)%Z.

(** [round(x, 2)] on an exact value: scale by 100, round half to even,
    scale back. *)
Definition round2 (q : Q) : Q := Qmake (rint (q * 100)) 100.

(** The running sum [acc += v] started from [acc]. *)
Definition Qsum_from (acc : Q) (l : list Q) : Q := fold_left Qplus l acc.

(* ================================================================== *)
(** * Corner segmentation: [get_avg_speed_between_corners] *)

Module Corners.

(** A row of [lap.get_car_data().add_distance()]; the columns read. *)
Record Tick : Type := mkTick { Distance : Q; Speed : Q }.

(** A row of [circuit_info.corners]; the columns read. *)
Record Corner : Type := mkCorner { Number : Z; CDistance : Q }.

(** A row of the result frame, columns
    [avg_speed, corner_number, start_dist, end_dist]. *)
Record Row : Type := mkRow {
  avg_speed : Q;
  corner_number : Z;
  start_dist : Q;
  end_dist : Q
}.

(** The result frame: rows with their index label, in index order. *)
Definition Frame : Type := list (Z * Row).

(** [df.loc[k] = r]: overwrite the row labelled [k] where it is, or
    append a new row. *)
Fixpoint loc_set (k : Z) (r : Row) (df : Frame) : Frame :=
  match df with
  | [] => [(k, r)]
  | (k', r') :: df' =>
      if (k =? k')%Z then (k, r) :: df' else (k', r') :: loc_set k r df'
  end.

(** How the inner [for telemetry_tick in telemetry.iterrows()] ends. *)
Inductive ending : Type :=
| Break      (* a tick beyond the corner was met *)
| Exhausted. (* the telemetry ran out *)

(** The locals of the inner loop, and [visited], the number of telemetry
    rows the loop has looked at (bookkeeping of the embedding). *)
Record Inner : Type := mkInner {
  how : ending;
  ticks : nat;
  avg_speed_accumulator : Q;
  end_ : Q;
  visited : nat
}.

(** The inner loop (lines 173-183) for one corner at distance [cd], from
    the values [n], [acc], [e] of [ticks], [avg_speed_accumulator], [end]. *)
Fixpoint scan (cd start : Q) (telemetry : list Tick)
         (n : nat) (acc : Q) (e : Q) (v : nat) : Inner :=
  match telemetry with
  | [] => mkInner Exhausted n acc e v
  | t :: rest =>
      if Qgtb (Distance t) cd then mkInner Break n acc e (S v)
      else if Qgtb (Distance t) start
           then scan cd start rest (S n) (acc + Speed t) (Distance t) (S v)
           else scan cd start rest n acc e (S v)
  end.

(** The variables that live across iterations of the outer loop. *)
Record Loop : Type := mkLoop {
  df : Frame;
  start : Q;
  end_dist_var : Q;
  ticks_list : list nat;
  inspected : nat
}.

Definition init : Loop := mkLoop [] 0 0 [] 0.

(** One iteration of [for _, corner in circuit_info.corners.iterrows()]
    (lines 169-183).  [0/0] on Python integers raises. *)
Definition corner_step (telemetry : list Tick) (st : Loop) (corner : Corner)
  : result Loop :=
  let r := scan (CDistance corner) (start st) telemetry
                0 0 (end_dist_var st) 0 in
  match how r with
  | Break =>
      match ticks r with
      | O => Raise ZeroDivisionError
      | S _ =>
          let avg := round2 (avg_speed_accumulator r
                             / inject_Z (Z.of_nat (ticks r))) in
          Ok (mkLoop
                (loc_set (Number corner)
                   (mkRow avg (Number corner) (start st) (end_ r)) (df st))
                (end_ r) (end_ r)
                (ticks_list st ++ [ticks r])
                (inspected st + visited r))
      end
  | Exhausted =>
      Ok (mkLoop (df st) (start st) (end_ r) (ticks_list st)
                 (inspected st + visited r))
  end.

Fixpoint corners_loop (telemetry : list Tick) (corners : list Corner)
         (st : Loop) : result Loop :=
  match corners with
  | [] => Ok st
  | c :: cs =>
      st' <- corner_step telemetry st c ;;
      corners_loop telemetry cs st'
  end.

(** [get_avg_speed_between_corners] (utils.py, lines 147-185), on the
    fastest lap's telemetry and the circuit's corners. *)
Definition get_avg_speed_between_corners
           (telemetry : list Tick) (corners : list Corner) : result Frame :=
  st <- corners_loop telemetry corners init ;;
  Ok (df st).

(** Telemetry rows looked at by a run that returns. *)
Definition rows_inspected
           (telemetry : list Tick) (corners : list Corner) : option nat :=
  match corners_loop telemetry corners init with
  | Ok st => Some (inspected st)
  | Raise _ => None
  end.

End Corners.

(* ================================================================== *)
(** * Comparative analytics: [get_avg_speed_diff_drivers] *)

Module Compare.

Import Corners.

(** What the function reads of a loaded session: the telemetry of each
    driver's fastest lap and the circuit's corners.  Drivers without a
    fastest lap are outside the model. *)
Record Session : Type := mkSession {
  fastest_lap_telemetry : string -> list Tick;
  circuit_corners : list Corner
}.

(** A row of [pd.concat([df1, df2], axis=1)] with the added [speed_diff]
    column.  A cell is [None] (NaN) where the label is missing from the
    frame the column comes from. *)
Record Joined : Type := mkJoined {
  avg_speed_1 : option Q;
  corner_number_1 : option Z;
  start_dist_1 : option Q;
  end_dist_1 : option Q;
  avg_speed_2 : option Q;
  start_dist_2 : option Q;
  end_dist_2 : option Q;
  speed_diff : option Q
}.

Definition loc (k : Z) (df : Frame) : option Row :=
  option_map snd (find (fun kr => (fst kr =? k)%Z) df).

Definition has_label (k : Z) (df : Frame) : bool :=
  existsb (fun kr => (fst kr =? k)%Z) df.

(** The index of a column-wise [concat] (outer join, [sort=False]): the
    labels of the first frame, then the labels only the second has. *)
Definition concat_index (df1 df2 : Frame) : list Z :=
  map fst df1 ++
  map fst (filter (fun kr => negb (has_label (fst kr) df1)) df2).

(** Float subtraction of two cells; NaN propagates. *)
Definition sub_cell (a b : option Q) : option Q :=
  match a, b with
  | Some x, Some y => Some (x - y)
  | _, _ => None
  end.

Definition join_row (df1 df2 : Frame) (k : Z) : Z * Joined :=
  let r1 := loc k df1 in
  let r2 := loc k df2 in
  let a1 := option_map avg_speed r1 in
  let a2 := option_map avg_speed r2 in
  (k, mkJoined a1 (option_map corner_number r1)
               (option_map start_dist r1) (option_map end_dist r1)
               a2
               (option_map start_dist r2) (option_map end_dist r2)
               (sub_cell a1 a2)).

(** Lines 203-207 on the two per-corner frames. *)
Definition diff_frames (df1 df2 : Frame) : list (Z * Joined) :=
  map (join_row df1 df2) (concat_index df1 df2).

(** [get_avg_speed_diff_drivers] (utils.py, lines 188-208).  With twice
    the same abbreviation the two renamed columns share one name,
    [df[name]] is a two-column frame and the assignment to
    [df['speed_diff']] raises. *)
Definition get_avg_speed_diff_drivers
           (session : Session) (driver_abbr1 driver_abbr2 : string)
  : result (list (Z * Joined)) :=
  df1 <- get_avg_speed_between_corners
           (fastest_lap_telemetry session driver_abbr1)
           (circuit_corners session) ;;
  df2 <- get_avg_speed_between_corners
           (fastest_lap_telemetry session driver_abbr2)
           (circuit_corners session) ;;
  if String.eqb driver_abbr1 driver_abbr2 then Raise ValueError
  else Ok (diff_frames df1 df2).

(** The [speed_diff] cell of the row labelled [k], if there is such a row. *)
Definition speed_diff_at (k : Z) (out : list (Z * Joined))
  : option (option Q) :=
  option_map (fun kr => speed_diff (snd kr))
             (find (fun kr => (fst kr =? k)%Z) out).

End Compare.

(* ================================================================== *)
(** * Lap times as datetimes: [convert_timedelta_to_datetime] *)

Module LapTime.

Local Open Scope Z_scope.
Local Open Scope string_scope.

(** A [pd.Timedelta] is a number of nanoseconds. *)
Definition Timedelta : Type := Z.

Definition ns_per_us : Z := 1000.
Definition us_per_ms : Z := 1000.
Definition us_per_second : Z := 1000000.
Definition us_per_minute : Z := 60 * us_per_second.
Definition us_per_hour : Z := 60 * us_per_minute.
Definition ns_per_hour : Z := us_per_hour * ns_per_us.

(** The fields of a [datetime]. *)
Record datetime : Type := mkDatetime {
  year : Z; month : Z; day : Z;
  hour : Z; minute : Z; second : Z; microsecond : Z
}.

(** The fields of [reference_datetime + t] that ["%M:%S.%f"] prints.
    [reference_datetime] is midnight of 2024-01-01, so they depend on the
    microseconds of [t] only; [Z.div] and [Z.modulo] round towards minus
    infinity, which is what a date before the reference shows. *)
Definition minute_of (t : Timedelta) : Z :=
  (t / ns_per_us / us_per_minute) mod 60.

Definition second_of (t : Timedelta) : Z :=
  (t / ns_per_us / us_per_second) mod 60.

Definition microsecond_of (t : Timedelta) : Z :=
  (t / ns_per_us) mod us_per_second.

Definition digit (n : Z) : ascii := ascii_of_nat (48 + Z.to_nat n)%nat.

(** [n] in decimal on exactly [w] digits, zero padded. *)
Fixpoint zfill (w : nat) (n : Z) : string :=
  match w with
  | O => ""
  | S w' => zfill w' (n / 10) ++ String (digit (n mod 10)) ""
  end.

(** [datetime_result.strftime("%M:%S.%f")] *)
Definition strftime_MSf (t : Timedelta) : string :=
  zfill 2 (minute_of t) ++ ":" ++ zfill 2 (second_of t) ++ "."
  ++ zfill 6 (microsecond_of t).

(** [s[:-3]] *)
Definition drop_last3 (s : string) : string :=
  substring 0 (String.length s - 3)%nat s.

Definition is_digit (c : ascii) : bool :=
  let n := nat_of_ascii c in (48 <=? n)%nat && (n <=? 57)%nat.

Definition digit_value (c : ascii) : Z := Z.of_nat (nat_of_ascii c - 48)%nat.

(** Reads at most [fuel] leading digits: their value, how many were read
    and what follows. *)
Fixpoint read_digits (fuel : nat) (acc : Z) (n : nat) (s : string)
  : Z * nat * string :=
  match fuel, s with
  | S fuel', String c s' =>
      if is_digit c
      then read_digits fuel' (10 * acc + digit_value c)%Z (S n) s'
      else (acc, n, s)
  | _, _ => (acc, n, s)
  end.

Definition expect (c : ascii) (s : string) : option string :=
  match s with
  | String c' s' => if Ascii.eqb c c' then Some s' else None
  | EmptyString => None
  end.

(** [datetime.strptime(s, "%M:%S.%f")]: one or two digits of minutes
    (at most 59), [":"], one or two digits of seconds (at most 59; the
    format would take 60 and 61, the datetime constructor does not), ["."],
    one to six digits of fraction, read as left-aligned microseconds; the
    fields the format does not set take the defaults 1900-01-01 00h. *)
Definition strptime_MSf (s : string) : result datetime :=
  let '(m, nm, s1) := read_digits 2 0 0 s in
  match expect ":"%char s1 with
  | None => Raise ValueError
  | Some s2 =>
      let '(sec, ns, s3) := read_digits 2 0 0 s2 in
      match expect "."%char s3 with
      | None => Raise ValueError
      | Some s4 =>
          let '(f, nf, s5) := read_digits 6 0 0 s4 in
          if ((1 <=? nm)%nat && (1 <=? ns)%nat && (1 <=? nf)%nat
              && (m <=? 59)%Z && (sec <=? 59)%Z
              && String.eqb s5 "")%bool
          then Ok (mkDatetime 1900 1 1 0 m sec (f * 10 ^ Z.of_nat (6 - nf)))
          else Raise ValueError
      end
  end.

(** The body of the [for t in data] loop (utils.py, lines 225-229). *)
Definition convert_one (t : Timedelta) : result datetime :=
  let formatted_time_as_str := drop_last3 (strftime_MSf t) in
  strptime_MSf formatted_time_as_str.

Fixpoint convert_timedelta_to_datetime (data : list Timedelta)
  : result (list datetime) :=
  match data with
  | [] => Ok []
  | t :: rest =>
      d <- convert_one t ;;
      ds <- convert_timedelta_to_datetime rest ;;
      Ok (d :: ds)
  end.

(** Microseconds from midnight of the day of [d]. *)
Definition us_of_day (d : datetime) : Z :=
  hour d * us_per_hour + minute d * us_per_minute
  + second d * us_per_second + microsecond d.

End LapTime.

(* ================================================================== *)
(** * Historical aggregation: [get_country_counts_ISO] and the team wins
      of [plot_race_wins_per_team] *)

Module History.

Record Date : Type := mkDate { date_year : Z; date_month : Z; date_day : Z }.

(** A row of [data/schedule1980-2024.csv], [EventDate] already parsed. *)
Record ScheduleRow : Type := mkScheduleRow {
  Country : string;
  Location : string;
  EventDate : Date;
  EventName : string
}.

(** A row of [data/race_winners_1980_to_2024.csv]. *)
Record WinnerRow : Type := mkWinnerRow {
  Season : Z;
  Race : string;
  Winner : string;
  Team : string
}.

Definition in_years (start_year end_year y : Z) : bool :=
  ((start_year <=? y) && (y <=? end_year))%Z.

(** [Series.value_counts()]: one entry per distinct value with its number
    of occurrences, largest count first.  Equal counts keep the order of
    first appearance here; pandas does not promise an order for them. *)
Fixpoint count_add (v : string) (counts : list (string * nat))
  : list (string * nat) :=
  match counts with
  | [] => [(v, 1%nat)]
  | (v', n) :: rest =>
      if String.eqb v v' then (v', S n) :: rest
      else (v', n) :: count_add v rest
  end.

Definition tally (l : list string) : list (string * nat) :=
  fold_left (fun acc v => count_add v acc) l [].

Fixpoint insert_desc (x : string * nat) (l : list (string * nat))
  : list (string * nat) :=
  match l with
  | [] => [x]
  | y :: l' =>
      if (snd y <=? snd x)%nat then x :: l else y :: insert_desc x l'
  end.

(** [sort_values(by=count, ascending=False)] *)
Definition sort_desc (l : list (string * nat)) : list (string * nat) :=
  fold_right insert_desc [] l.

Definition value_counts (l : list string) : list (string * nat) :=
  sort_desc (tally l).

(** A column added cell by cell with [df.at[index, name] = v]: absent
    ([None]) until the first assignment, which creates it filled with NaN. *)
Definition column : Type := option (list (option string)).

Fixpoint set_nth (i : nat) (v : option string) (col : list (option string))
  : list (option string) :=
  match col, i with
  | [], _ => []
  | _ :: rest, O => v :: rest
  | c :: rest, S i' => c :: set_nth i' v rest
  end.

Definition at_set (nrows i : nat) (v : option string) (col : column)
  : column :=
  Some (set_nth i v (match col with
                     | None => repeat None nrows
                     | Some c => c
                     end)).

(** The result of [iterrows()]: every row with its position. *)
Definition iterrows {A} (rows : list A) : list (nat * A) :=
  combine (seq 0 (List.length rows)) rows.

(** [frame[name]]: a [KeyError] for a column that was never created. *)
Definition getitem (name : string) (col : column)
  : result (list (option string)) :=
  match col with
  | None => Raise (KeyError name)
  | Some c => Ok c
  end.

(** [dropna(subset=[name])] on the rows zipped with the column. *)
Definition dropna (name : string) (rows : list (string * nat)) (col : column)
  : result (list (string * nat * string)) :=
  c <- getitem name col ;;
  Ok (flat_map (fun rc => match snd rc with
                          | Some iso => [(fst rc, iso)]
                          | None => []
                          end)
               (combine rows c)).

Section Lookups.

(** [get_iso_code]: pycountry's lookup, [None] for an unknown name. *)
Variable get_iso_code : string -> option string.

(** [fastf1.plotting.team_color]; [None] where it raises. *)
Variable team_color : string -> option string.

(** [get_country_counts_ISO] (utils.py, lines 324-355) on the rows of the
    calendar snapshot. *)
Definition get_country_counts_ISO
           (schedule : list ScheduleRow) (start_year end_year : Z)
  : result (list (string * nat * string)) :=
  let df := filter (fun r => in_years start_year end_year
                                      (date_year (EventDate r)))
                   schedule in
  let country_counts_df := value_counts (map Country df) in
  let ISO :=
    fold_left (fun col ir =>
                 at_set (List.length country_counts_df) (fst ir)
                        (get_iso_code (fst (snd ir))) col)
              (iterrows country_counts_df) None in
  dropna "ISO" country_counts_df ISO.

(** Lines 399-420 of [plot_race_wins_per_team]: the [team_wins] frame,
    as its [Team]/[Wins] rows and its [Color] column. *)
Definition team_wins_frame
           (race_winners : list WinnerRow) (start_year end_year : Z)
  : list (string * nat) * column :=
  let df := filter (fun r => in_years start_year end_year (Season r))
                   race_winners in
  let team_wins := sort_desc (value_counts (map Team df)) in
  let Color :=
    fold_left (fun col ir =>
                 at_set (List.length team_wins) (fst ir)
                        (match team_color (fst (snd ir)) with
                         | Some c => Some c
                         | None => Some "white"%string
                         end) col)
              (iterrows team_wins) None in
  (team_wins, Color).

(** [plot_race_wins_per_team] (plots.py, lines 387-429) up to the data of
    its bar trace: [x], [y] and [marker_color]. *)
Definition plot_race_wins_per_team
           (race_winners : list WinnerRow) (start_year end_year : Z)
  : result (list string * list nat * list (option string)) :=
  let '(team_wins, Color) :=
    team_wins_frame race_winners start_year end_year in
  marker_color <- getitem "Color" Color ;;
  Ok (map fst team_wins, map snd team_wins, marker_color).

End Lookups.

End History.

(* ================================================================== *)
(** * Strategy reconstruction and merge:
      [get_parallel_coordinates_plot_dataset] *)

Module Strategy.

(** A row of [session.laps]; the columns read.  [Stint] and [Compound]
    can be missing (NaN). *)
Record Lap : Type := mkLap {
  Driver : string;
  Stint : option Z;
  Compound : option string;
  LapNumber : Z
}.

(** What the function reads of a loaded session: the laps, the drivers
    (as abbreviations, in [session.drivers] order) and the abbreviations
    of [session.results] in classification order. *)
Record Session : Type := mkSession {
  laps : list Lap;
  drivers : list string;
  results : list string
}.

(** A group key of [groupby(["Driver", "Stint", "Compound"])]. *)
Definition key : Type := (string * Z * string)%type.

(** Rows with a missing key are left out of the groups. *)
Definition key_of (l : Lap) : option key :=
  match Stint l, Compound l with
  | Some s, Some c => Some (Driver l, s, c)
  | _, _ => None
  end.

Definition key_compare (a b : key) : comparison :=
  let '(d1, s1, c1) := a in
  let '(d2, s2, c2) := b in
  match String.compare d1 d2 with
  | Eq => match Z.compare s1 s2 with
          | Eq => String.compare c1 c2
          | o => o
          end
  | o => o
  end.

Definition key_eqb (a b : key) : bool :=
  match key_compare a b with Eq => true | _ => false end.

(** Group keys come out sorted, each once. *)
Fixpoint insert_key (k : key) (ks : list key) : list key :=
  match ks with
  | [] => [k]
  | h :: t =>
      match key_compare k h with
      | Lt => k :: ks
      | Eq => ks
      | Gt => h :: insert_key k t
      end
  end.

Definition group_keys (ks : list key) : list key :=
  fold_right insert_key [] ks.

(** A row of [stints] after [count().reset_index()] and the rename. *)
Record StintRow : Type := mkStintRow {
  st_Driver : string;
  st_Stint : Z;
  st_Compound : string;
  StintLength : nat
}.

Definition valid_keys (ls : list Lap) : list key :=
  flat_map (fun l => match key_of l with Some k => [k] | None => [] end) ls.

Definition stints_of (ls : list Lap) : list StintRow :=
  let ks := valid_keys ls in
  map (fun k => let '(d, s, c) := k in
                mkStintRow d s c (List.length (filter (key_eqb k) ks)))
      (group_keys ks).

Definition of_driver (driver : string) (df : list StintRow) : list StintRow :=
  filter (fun r => String.eqb (st_Driver r) driver) df.

(** Lines 389-392: the stints of each driver of the session, driver by
    driver. *)
Definition driver_stints (session : Session) : list StintRow :=
  let stints := stints_of (laps session) in
  flat_map (fun driver => of_driver driver stints) (drivers session).

(** A row of [df2]. *)
Record StrategyRow : Type := mkStrategyRow {
  sr_Driver : string;
  Stops : Z;
  CompoundStrategy : list string
}.

(** [Series.max()] of the stints of a frame that holds [row]. *)
Definition stint_max (row : StintRow) (rows : list StintRow) : Z :=
  fold_right Z.max (st_Stint row) (map st_Stint rows).

(** The body of [for row in df.iterrows()]. *)
Definition strategy_row (df : list StintRow) (row : StintRow) : StrategyRow :=
  let driver := st_Driver row in
  let stops := (stint_max row (of_driver driver df) - 1)%Z in
  let compound_strategy := map st_Compound (of_driver driver df) in
  mkStrategyRow driver stops compound_strategy.

(** [drop_duplicates(subset=["Driver"])]: the first row of each driver. *)
Fixpoint drop_duplicates (seen : list string) (rows : list StrategyRow)
  : list StrategyRow :=
  match rows with
  | [] => []
  | r :: rest =>
      if existsb (String.eqb (sr_Driver r)) seen
      then drop_duplicates seen rest
      else r :: drop_duplicates (sr_Driver r :: seen) rest
  end.

(** Lines 382-407: [df2]. *)
Definition compound_strategies (session : Session) : list StrategyRow :=
  let df := driver_stints session in
  drop_duplicates [] (map (strategy_row df) df).

(** [[{'Driver': driver, position: i} for i, driver in enumerate(l, 1)]] *)
Definition enumerate1 (l : list string) : list (string * Z) :=
  combine l (map Z.of_nat (seq 1 (List.length l))).

(** [pd.DataFrame(data)] has no column at all when [data] is empty, and
    merging on ["Driver"] then raises. *)
Definition DataFrame_of (data : list (string * Z))
  : result (list (string * Z)) :=
  match data with
  | [] => Raise (KeyError "Driver")
  | _ => Ok data
  end.

(** A row of the result. *)
Record MergedRow : Type := mkMergedRow {
  m_Driver : string;
  m_Stops : Z;
  m_CompoundStrategy : list string;
  QualiPosition : Z;
  FinishPosition : Z
}.

(** [pd.merge(left, right, on="Driver")], an inner join: for each left
    row in order, one row per right row of the same driver. *)
Definition merge {L R} (ldriver : L -> string) (left : list L)
           (right : list (string * Z)) (mk : L -> Z -> R) : list R :=
  flat_map (fun l =>
              map (fun r => mk l (snd r))
                  (filter (fun r => String.eqb (ldriver l) (fst r)) right))
           left.

Fixpoint insert_by_quali (x : MergedRow) (l : list MergedRow)
  : list MergedRow :=
  match l with
  | [] => [x]
  | y :: l' =>
      if (QualiPosition x <=? QualiPosition y)%Z then x :: l
      else y :: insert_by_quali x l'
  end.

(** [sort_values('QualiPosition')]; rows with the same position (pandas
    promises no order for them) keep their order here. *)
Definition sort_by_quali (l : list MergedRow) : list MergedRow :=
  fold_right insert_by_quali [] l.

(** [get_parallel_coordinates_plot_dataset] (utils.py, lines 358-432) on
    the loaded race and qualifying sessions of the event. *)
Definition get_parallel_coordinates_plot_dataset
           (session_race session_quali : Session) : result (list MergedRow) :=
  let df2 := compound_strategies session_race in
  qualifying_results <- DataFrame_of (enumerate1 (results session_quali)) ;;
  race_results <- DataFrame_of (enumerate1 (results session_race)) ;;
  let merged_q :=
    merge sr_Driver df2 qualifying_results (fun l q => (l, q)) in
  let merged_df :=
    merge (fun lq => sr_Driver (fst lq)) merged_q race_results
          (fun lq f => mkMergedRow (sr_Driver (fst lq)) (Stops (fst lq))
                                   (CompoundStrategy (fst lq)) (snd lq) f) in
  Ok (sort_by_quali merged_df).

End Strategy.

(* ================================================================== *)
(** * Reference notions used in the statements *)

Module CornerSpec.

Import Corners.

(** Telemetry in driving order: distances never decrease. *)
Definition by_distance (telemetry : list Tick) : Prop :=
  StronglySorted (fun a b => Distance a <= Distance b) telemetry.

(** Some tick lies beyond the distance [cd]. *)
Definition passed (cd : Q) (telemetry : list Tick) : bool :=
  existsb (fun t => Qgtb (Distance t) cd) telemetry.

(** The ticks before the first one beyond [cd]. *)
Fixpoint upto (cd : Q) (telemetry : list Tick) : list Tick :=
  match telemetry with
  | [] => []
  | t :: rest => if Qgtb (Distance t) cd then [] else t :: upto cd rest
  end.

(** The corners some tick lies beyond, in their order. *)
Definition passed_corners (telemetry : list Tick) (corners : list Corner)
  : list Corner :=
  filter (fun c => passed (CDistance c) telemetry) corners.

(** The ticks whose distance lies in the interval ]lo, hi]. *)
Definition interval (lo hi : Q) (telemetry : list Tick) : list Tick :=
  filter (fun t => Qgtb (Distance t) lo && Qle_bool (Distance t) hi)
         telemetry.

(** The ticks whose distance lies in the interval [[lo, hi[. *)
Definition half_open (lo hi : Q) (telemetry : list Tick) : list Tick :=
  filter (fun t => Qle_bool lo (Distance t) && Qgtb hi (Distance t))
         telemetry.

(** The distance of the corner before the [i]-th one, [first] for the
    first corner. *)
Definition prev_of (first : Q) (corners : list Corner) (i : nat) : Q :=
  match i with
  | O => first
  | S j => match nth_error corners j with
           | Some c => CDistance c
           | None => first
           end
  end.

(** Mean of the speeds of [ticks], as the code computes it. *)
Definition mean_speed (ticks : list Tick) : Q :=
  Qsum_from 0 (map Speed ticks) / inject_Z (Z.of_nat (List.length ticks)).

(** Every corner's interval, from the previous corner's distance [prev]
    (0 before the first corner) to its own, holds a tick. *)
Fixpoint intervals_inhabited (telemetry : list Tick) (prev : Q)
         (corners : list Corner) : Prop :=
  match corners with
  | [] => True
  | c :: cs =>
      interval prev (CDistance c) telemetry <> []
      /\ intervals_inhabited telemetry (CDistance c) cs
  end.

(** The rows expected for [corners] when the previous corner is at [prev]
    and the variable [start] holds [start]. *)
Fixpoint expected_rows (telemetry : list Tick) (start prev : Q)
         (corners : list Corner) : Frame :=
  match corners with
  | [] => []
  | c :: cs =>
      let iv := interval prev (CDistance c) telemetry in
      let e := last (map Distance iv) start in
      (Number c, mkRow (round2 (mean_speed iv)) (Number c) start e)
        :: expected_rows telemetry e (CDistance c) cs
  end.

(** The variable [start] stands for the previous corner's distance: no
    tick lies between the two. *)
Definition settled (telemetry : list Tick) (start prev : Q) : Prop :=
  start <= prev
  /\ forall t, In t telemetry -> Distance t <= prev -> Distance t <= start.

(** Telemetry rows one corner's scan looks at: those up to the corner,
    and the first one beyond it when there is one. *)
Definition scan_length (cd : Q) (telemetry : list Tick) : nat :=
  List.length (upto cd telemetry) + (if passed cd telemetry then 1 else 0).

Definition total_scan_length (telemetry : list Tick) (corners : list Corner)
  : nat :=
  list_sum (map (fun c => scan_length (CDistance c) telemetry) corners).

(** A lap of [n + 1] ticks, one every metre from 1 m on, at 1 km/h, and
    [n] corners, corner [i] at [i] metres. *)
Definition metre_tick (i : nat) : Tick := mkTick (inject_Z (Z.of_nat i)) 1.

Definition metre_corner (i : nat) : Corner :=
  mkCorner (Z.of_nat i) (inject_Z (Z.of_nat i)).

Definition metre_ticks (n : nat) : list Tick :=
  map metre_tick (seq 1 (S n)).

Definition metre_corners (n : nat) : list Corner :=
  map metre_corner (seq 1 n).

(** Ticks at 0, 100, 150 and 250 m, at 50, 100, 200 and 300 km/h. *)
Definition boundary_lap : list Tick :=
  [mkTick 0 50; mkTick 100 100; mkTick 150 200; mkTick 250 300].

(** Four ticks, 10 m apart. *)
Definition short_lap : list Tick :=
  [mkTick 10 200; mkTick 20 201; mkTick 30 204; mkTick 40 210].

End CornerSpec.

Module CompareSpec.

Import Corners Compare.

(** The cell [x] is the negation of the cell [y]: both rows are missing,
    both cells are NaN, or both are numbers and [x = - y]. *)
Definition negated (x y : option (option Q)) : Prop :=
  match x, y with
  | None, None => True
  | Some None, Some None => True
  | Some (Some a), Some (Some b) => a == - b
  | _, _ => False
  end.

(** What the [speed_diff] column holds at label [k], from the two
    per-corner frames: the difference where both have the label, NaN where
    one only has it, no row where none has it. *)
Definition outer_diff (df1 df2 : Frame) (k : Z) : option (option Q) :=
  match loc k df1, loc k df2 with
  | Some r1, Some r2 => Some (Some (avg_speed r1 - avg_speed r2))
  | None, None => None
  | _, _ => Some None
  end.

(** Two corners at 100 m and 200 m; VER's fastest lap has a tick beyond
    both, HAM's telemetry ends at 150 m. *)
Definition short_telemetry_session : Session :=
  mkSession
    (fun driver =>
       if String.eqb driver "VER"
       then [mkTick 50 200; mkTick 150 210; mkTick 250 220]
       else [mkTick 50 190; mkTick 150 205])
    [mkCorner 1 100; mkCorner 2 200].

(** The frame returned for VER against HAM in that session. *)
Definition short_telemetry_diff : list (Z * Joined) :=
  [(1%Z, mkJoined (Some (20000 # 100)) (Some 1%Z) (Some 0) (Some 50)
                  (Some (19000 # 100)) (Some 0) (Some 50)
                  (Some ((20000 # 100) - (19000 # 100))));
   (2%Z, mkJoined (Some (21000 # 100)) (Some 2%Z) (Some 50) (Some 150)
                  None None None None)].

End CompareSpec.

Module LapTimeSpec.

Import LapTime.
Local Open Scope Z_scope.

Definition ns_per_ms : Z := ns_per_us * us_per_ms.
Definition ms_per_hour : Z := 3600 * 1000.

(** The datetime that keeps the minutes, seconds and milliseconds of [t]:
    1900-01-01 00:MM:SS.mmm000. *)
Definition kept (t : Timedelta) : datetime :=
  mkDatetime 1900 1 1 0 (minute_of t) (second_of t)
             (microsecond_of t / us_per_ms * us_per_ms).

(** A lap of 1 h 01 min 23.456 s. *)
Definition long_lap : Timedelta := (3600 + 83) * 1000000000 + 456000000.

End LapTimeSpec.

Module StrategySpec.

Import Strategy.

(** The stint numbers observed for [driver]: those of the driver's laps
    that enter the grouping. *)
Definition observed_stints (driver : string) (ls : list Lap) : list Z :=
  flat_map (fun l => match key_of l with
                     | Some (d, s, _) =>
                         if String.eqb d driver then [s] else []
                     | None => []
                     end) ls.

(** [stops] is the largest observed stint number of [driver], minus one. *)
Definition max_stint_minus_one (ls : list Lap) (driver : string) (stops : Z)
  : Prop :=
  In (stops + 1)%Z (observed_stints driver ls)
  /\ forall s, In s (observed_stints driver ls) -> (s <= stops + 1)%Z.

(** Lap records as the data model has them: stints are numbered from 1. *)
Definition stints_from_one (ls : list Lap) : Prop :=
  forall l s, In l ls -> Stint l = Some s -> (1 <= s)%Z.

Definition ver_lap (stint : Z) (compound : string) (lap_number : Z) : Lap :=
  mkLap "VER" (Some stint) (Some compound) lap_number.

(** Nine laps of VER with stint numbers 1,1,1,2,2,3,3,3,3. *)
Definition three_stint_race : Session :=
  mkSession
    [ver_lap 1 "SOFT" 1; ver_lap 1 "SOFT" 2; ver_lap 1 "SOFT" 3;
     ver_lap 2 "HARD" 4; ver_lap 2 "HARD" 5;
     ver_lap 3 "MEDIUM" 6; ver_lap 3 "MEDIUM" 7; ver_lap 3 "MEDIUM" 8;
     ver_lap 3 "MEDIUM" 9]
    ["VER"%string] ["VER"%string].

Definition three_stint_quali : Session :=
  mkSession [] ["VER"%string] ["VER"%string].

(** A race of three drivers (ALO did not take part in qualifying) and a
    qualifying session where BOT, who did not race, is classified third. *)
Definition sample_race : Session :=
  mkSession
    [ver_lap 1 "SOFT" 1; ver_lap 1 "SOFT" 2; ver_lap 2 "HARD" 3;
     mkLap "HAM" (Some 1%Z) (Some "HARD"%string) 1;
     mkLap "HAM" (Some 1%Z) (Some "HARD"%string) 2;
     mkLap "ALO" (Some 1%Z) (Some "MEDIUM"%string) 1]
    ["VER"; "HAM"; "ALO"]%string ["HAM"; "VER"; "ALO"]%string.

Definition sample_quali : Session :=
  mkSession [] ["VER"; "HAM"; "BOT"]%string ["VER"; "HAM"; "BOT"]%string.

End StrategySpec.

Module FrameSpec.

Import Corners.

(** Rows that follow one another: each starts where the previous one ended
    ([first] for the first row) and ends further on. *)
Fixpoint chained (first : Q) (rows : Frame) : Prop :=
  match rows with
  | [] => True
  | kr :: rest =>
      start_dist (snd kr) = first
      /\ first < end_dist (snd kr)
      /\ chained (end_dist (snd kr)) rest
  end.

End FrameSpec.

Module ClockSpec.

Import LapTime LapTimeSpec.
Local Open Scope Z_scope.

(** The whole milliseconds of [t] within its hour. *)
Definition ms_in_hour (t : Timedelta) : Z := (t / ns_per_ms) mod ms_per_hour.

End ClockSpec.

Module HistorySpec.

Import History.

(** How often [v] occurs in [l]. *)
Definition occurrences (v : string) (l : list string) : nat :=
  List.length (filter (String.eqb v) l).

(** The count recorded for [v] in a table of counts, 0 when there is
    none. *)
Definition recorded (v : string) (counts : list (string * nat)) : nat :=
  list_sum (map snd (filter (fun p => String.eqb v (fst p)) counts)).

(** Events of [country] in the calendar whose year lies in the range. *)
Definition events_in (schedule : list ScheduleRow) (start_year end_year : Z)
           (country : string) : nat :=
  occurrences country
    (map Country
         (filter (fun r => in_years start_year end_year
                                    (date_year (EventDate r))) schedule)).

(** Wins of [team] in the seasons of the range. *)
Definition wins_in (race_winners : list WinnerRow) (start_year end_year : Z)
           (team : string) : nat :=
  occurrences team
    (map Team
         (filter (fun r => in_years start_year end_year (Season r))
                 race_winners)).

(** Counts from the largest to the smallest. *)
Definition descending (counts : list nat) : Prop :=
  StronglySorted (fun a b => (b <= a)%nat) counts.

(** The colour of a team's bar: the team colour, white when there is
    none. *)
Definition color_or_white (team_color : string -> option string)
           (team : string) : string :=
  match team_color team with
  | Some c => c
  | None => "white"%string
  end.

(** Three seasons of winners. *)
Definition sample_winners : list WinnerRow :=
  [mkWinnerRow 2001 "Monaco" "A" "Ferrari";
   mkWinnerRow 2002 "Monaco" "B" "McLaren";
   mkWinnerRow 2002 "Monza" "B" "McLaren";
   mkWinnerRow 2011 "Monza" "C" "Red Bull"]%string.

(** A calendar of four events. *)
Definition sample_schedule : list ScheduleRow :=
  [mkScheduleRow "France" "Magny-Cours" (mkDate 2001 7 1) "French GP";
   mkScheduleRow "Germany" "Hockenheim" (mkDate 2001 7 29) "German GP";
   mkScheduleRow "Germany" "Hockenheim" (mkDate 2002 7 28) "German GP";
   mkScheduleRow "Narnia" "Cair Paravel" (mkDate 2002 8 4) "Lion GP"]%string.

(** A lookup that knows two countries. *)
Definition sample_iso (country : string) : option string :=
  if String.eqb country "France" then Some "FRA"%string
  else if String.eqb country "Germany" then Some "DEU"%string
  else None.

End HistorySpec.

Module StintOrderSpec.

Import Strategy.
Local Open Scope Z_scope.

(** The (stint, compound) pairs observed for [driver]: those of the
    driver's laps that enter the grouping. *)
Definition stint_compounds (driver : string) (ls : list Lap)
  : list (Z * string) :=
  flat_map (fun l => match key_of l with
                     | Some (d, s, c) =>
                         if String.eqb d driver then [(s, c)] else []
                     | None => []
                     end) ls.

(** [a] comes before [b]: an earlier stint, or the same stint and a
    compound name that sorts first. *)
Definition before (a b : Z * string) : Prop :=
  fst a < fst b
  \/ (fst a = fst b /\ String.compare (snd a) (snd b) = Lt).

(** HAM on three stints, the laps not in driving order. *)
Definition shuffled_race : Session :=
  mkSession
    [mkLap "HAM" (Some 3) (Some "SOFT"%string) 40;
     mkLap "HAM" (Some 1) (Some "MEDIUM"%string) 1;
     mkLap "HAM" (Some 2) (Some "HARD"%string) 20;
     mkLap "HAM" (Some 1) (Some "MEDIUM"%string) 2]
    ["HAM"%string] ["HAM"%string].

End StintOrderSpec.

Module Plots.

Import Py Corners Compare.
Local Open Scope string_scope.

(** A bar of the [go.Bar] trace of [plot_speed_diff_drivers]: [x] from
    [df['corner_number']], [y] from [df['speed_diff']], its colour and its
    text. *)
Record Bar : Type := mkBar {
  bar_x : option Z;
  bar_y : option Q;
  marker_color : string;
  bar_text : option Q
}.

(** ['green' if diff >= 0 else 'red']; comparing NaN gives [False]. *)
Definition color_of (diff : option Q) : string :=
  match diff with
  | Some d => if Qle_bool 0 d then "green" else "red"
  | None => "red"
  end.

Definition bar_of (row : Joined) : Bar :=
  mkBar (corner_number_1 row) (speed_diff row)
        (color_of (speed_diff row))
        (option_map round2 (speed_diff row)).

(** The bar trace of [plot_speed_diff_drivers] (plots.py, lines 91-122),
    one bar per row of the frame, in its order. *)
Definition plot_speed_diff_drivers
           (session : Session) (driver1 driver2 : string)
  : result (list Bar) :=
  df <- get_avg_speed_diff_drivers session driver1 driver2 ;;
  Ok (map (fun kr => bar_of (snd kr)) df).

End Plots.

Module Exc.

(** Results of code that can raise an exception of type [E]. *)
Inductive outcome (E A : Type) : Type :=
| Returns (a : A)
| Raises (e : E).

Arguments Returns {E A} a.
Arguments Raises {E A} e.

Definition bind {E A B} (m : outcome E A) (k : A -> outcome E B)
  : outcome E B :=
  match m with
  | Returns a => k a
  | Raises e => Raises e
  end.

(** A comprehension or [apply] whose body can raise. *)
Fixpoint traverse {E A B} (f : A -> outcome E B) (l : list A)
  : outcome E (list B) :=
  match l with
  | [] => Returns []
  | x :: rest =>
      bind (f x) (fun y =>
      bind (traverse f rest) (fun ys => Returns (y :: ys)))
  end.

End Exc.

Module Parcoords.

Import Exc Strategy.
Local Open Scope string_scope.

(** The exceptions of the strategy axis: [word[0]] on an empty string and
    a key missing from [unique_list_map]. *)
Inductive exn : Type :=
| IndexError
| KeyError (key : list string).

Definition outcome (A : Type) : Type := Exc.outcome exn A.

Definition strategy_eq_dec (a b : list string) : {a = b} + {a <> b} :=
  list_eq_dec String.string_dec a b.

(** [Series.unique()]: the values in the order they first appear. *)
Fixpoint unique (seen : list (list string)) (l : list (list string))
  : list (list string) :=
  match l with
  | [] => []
  | x :: rest =>
      if in_dec strategy_eq_dec x seen then unique seen rest
      else x :: unique (x :: seen) rest
  end.

(** [unique_lists] (line 466). *)
Definition unique_lists (df : list MergedRow) : list (list string) :=
  unique [] (map m_CompoundStrategy df).

(** [word[0]] *)
Definition first_letter (word : string) : outcome string :=
  match word with
  | EmptyString => Raises IndexError
  | String c _ => Returns (String c EmptyString)
  end.

(** [[word[0] for word in item]] *)
Definition first_letters (item : list string) : outcome (list string) :=
  traverse first_letter item.

(** A [dict] with strategies as keys, in insertion order. *)
Definition dict : Type := list (list string * nat).

(** [d[key] = value]: the value of a key already there is replaced. *)
Fixpoint dict_set (key : list string) (value : nat) (d : dict) : dict :=
  match d with
  | [] => [(key, value)]
  | (k, v) :: rest =>
      if strategy_eq_dec k key then (k, value) :: rest
      else (k, v) :: dict_set key value rest
  end.

(** [d[key]] *)
Definition dict_get (key : list string) (d : dict) : outcome nat :=
  match find (fun kv => if strategy_eq_dec (fst kv) key then true else false)
             d with
  | Some kv => Returns (snd kv)
  | None => Raises (KeyError key)
  end.

(** [{tuple(lst): i for i, lst in enumerate(unique_lists)}] (line 476). *)
Definition unique_list_map (unique_lists : list (list string)) : dict :=
  fold_left (fun d il => dict_set (snd il) (fst il) d)
            (combine (seq 0 (List.length unique_lists)) unique_lists) [].

(** [sep.join(l)] *)
Fixpoint join (sep : string) (l : list string) : string :=
  match l with
  | [] => ""
  | x :: rest =>
      match rest with
      | [] => x
      | _ => x ++ sep ++ join sep rest
      end
  end.

(** The "Compound Strategy" dimension of the chart. *)
Record StrategyAxis : Type := mkStrategyAxis {
  tickvals : list nat;
  ticktext : list string;
  values : list nat
}.

(** Lines 466-479, 487 and 500-502 of [plot_parallel_coordinates]
    (plots.py) on the dataset [df]: the strategies are numbered in the order they first
    appear; the tick of a strategy shows the first letters of its
    compounds. *)
Definition strategy_axis (df : list MergedRow) : outcome StrategyAxis :=
  let unique_lists := unique_lists df in
  bind (traverse first_letters unique_lists) (fun reduced_list =>
  let unique_list_map := unique_list_map unique_lists in
  bind (traverse (fun x => dict_get x unique_list_map)
                 (map m_CompoundStrategy df))
       (fun CompoundStrategyIndex =>
  let unique_lists_str := map (join ", ") reduced_list in
  Returns (mkStrategyAxis (seq 0 (List.length unique_lists))
                          unique_lists_str CompoundStrategyIndex))).

(** Three drivers, two of them on the same strategy. *)
Definition sample_dataset : list MergedRow :=
  [mkMergedRow "VER" 1 ["SOFT"; "HARD"] 1 1;
   mkMergedRow "HAM" 1 ["MEDIUM"; "HARD"] 2 3;
   mkMergedRow "ALO" 1 ["SOFT"; "HARD"] 3 2].

End Parcoords.

Module Events.

Import Exc.
Local Open Scope Z_scope.

(** The exceptions of the event list and of the "year: name" parsing:
    a missing piece after [split] and a year that is no integer. *)
Inductive exn : Type :=
| IndexError
| ValueError.

(** A row of an event schedule; [EventDate] in microseconds since the
    epoch (no row without a date). *)
Record Event : Type := mkEvent {
  EventDate : Z;
  EventName : string
}.

(** [timedelta(days=1)], in microseconds. *)
Definition us_per_day : Z := 86400000000.

(** [str(n)] and the [{n}] of an f-string, for an integer (of at most
    4300 digits, the most CPython converts; no year comes near). *)
Definition str (n : Z) : string :=
  DecimalString.NilZero.string_of_int (Z.to_int n).

(** The whitespace of [str.strip] and [int] among the ASCII characters:
    tab to carriage return, the four separators 28 to 31, and the space.
    Strings are read byte by byte: the embedding holds for strings
    whose characters beyond ASCII are neither whitespace nor digits. *)
Definition is_space (c : ascii) : bool :=
  let n := nat_of_ascii c in
  ((9 <=? n) && (n <=? 13) || (28 <=? n) && (n <=? 32))%nat.

Fixpoint lstrip (s : string) : string :=
  match s with
  | EmptyString => EmptyString
  | String c rest => if is_space c then lstrip rest else s
  end.

Fixpoint rstrip (s : string) : string :=
  match s with
  | EmptyString => EmptyString
  | String c rest =>
      match rstrip rest with
      | EmptyString => if is_space c then EmptyString
                       else String c EmptyString
      | kept => String c kept
      end
  end.

(** [s.strip()] *)
Definition strip (s : string) : string := rstrip (lstrip s).

(** [s.split(sep)] for a separator of one character: the pieces between
    the separators, at least one. *)
Fixpoint split (sep : ascii) (s : string) : list string :=
  match s with
  | EmptyString => [EmptyString]
  | String c rest =>
      if Ascii.eqb c sep then EmptyString :: split sep rest
      else match split sep rest with
           | piece :: pieces => String c piece :: pieces
           | [] => [String c EmptyString]
           end
  end.

(** [l[i]] for [i >= 0]. *)
Definition item (i : nat) (l : list string) : outcome exn string :=
  match nth_error l i with
  | Some x => Returns x
  | None => Raises IndexError
  end.

(** The digits of an integer literal for [int]: decimal digits, with
    single underscores between digits; [after_digit] says that the
    previous character was a digit. *)
Fixpoint int_digits (s : string) (acc : Z) (after_digit : bool)
  : option Z :=
  match s with
  | EmptyString => if after_digit then Some acc else None
  | String c rest =>
      if LapTime.is_digit c
      then int_digits rest (10 * acc + LapTime.digit_value c) true
      else if Ascii.eqb c "_"
           then (if after_digit then int_digits rest acc false else None)
           else None
  end.

(** [int(s)] for a string (of at most 4300 digits): surrounding
    whitespace is dropped and one sign is accepted. *)
Definition int (s : string) : outcome exn Z :=
  let value :=
    match strip s with
    | EmptyString => None
    | String c rest =>
        if Ascii.eqb c "-" then option_map Z.opp (int_digits rest 0 false)
        else if Ascii.eqb c "+" then int_digits rest 0 false
        else int_digits (String c rest) 0 false
    end in
  match value with
  | Some n => Returns n
  | None => Raises ValueError
  end.

Section Schedule.

(** [fastf1.get_event_schedule(year)], the clock [datetime.now()] in
    microseconds since the epoch (it does not advance during the call) and
    [datetime.now().year]. *)
Variable get_event_schedule : Z -> list Event.
Variable now : Z.
Variable current_year : Z.

Fixpoint insert_by_date (row : Event) (l : list Event) : list Event :=
  match l with
  | [] => [row]
  | r :: l' =>
      if EventDate r <=? EventDate row then row :: l
      else r :: insert_by_date row l'
  end.

(** [sort_values(by='EventDate', ascending=False)]; rows of the same date
    (pandas promises no order for them) keep their order here. *)
Definition sort_by_date_desc (schedule : list Event) : list Event :=
  fold_right insert_by_date [] schedule.

(** [reversed(range(current_year - n_years, current_year + 1))] *)
Definition years (n_years : Z) : list Z :=
  map (fun i => current_year - Z.of_nat i)
      (seq 0 (Z.to_nat (n_years + 1))).

(** [events_of_last_n_year] (utils.py, lines 78-101). *)
Definition events_of_last_n_year (n_years : Z) : list string :=
  flat_map
    (fun year =>
       let schedule := get_event_schedule year in
       let schedule_sorted := sort_by_date_desc schedule in
       map (fun row => (str year ++ ": " ++ EventName row)%string)
           (filter (fun row => EventDate row <? now - us_per_day)
                   schedule_sorted))
    (years n_years).

End Schedule.

Section Loading.

(** What [fastf1.get_session(year, name, session_name)] gives once
    loaded, and the cell [fastf1.get_event(year, name)[column]]. *)
Variable Loaded : Type.
Variable get_session : Z -> string -> string -> Loaded.
Variable get_event : Z -> string -> string -> string.

(** [load_session] (utils.py, lines 127-144). *)
Definition load_session (event_name session_name : string)
  : outcome exn Loaded :=
  bind (item 1 (split ":" event_name)) (fun piece =>
  let name := strip piece in
  bind (item 0 (split ":" event_name)) (fun piece0 =>
  bind (int (strip piece0)) (fun year =>
  Returns (get_session year name session_name)))).

(** [get_sessions_names_of_event] (utils.py, lines 104-124). *)
Definition get_sessions_names_of_event (event_name : string)
  : outcome exn (list string) :=
  bind (item 1 (split ":" event_name)) (fun piece =>
  let name := strip piece in
  bind (item 0 (split ":" event_name)) (fun piece0 =>
  bind (int (strip piece0)) (fun year =>
  let session_data := get_event year name in
  Returns (map (fun i => session_data ("Session" ++ str (i + 1))%string)
               [4; 3; 2; 1; 0])))).

End Loading.

End Events.

Module EventSpec.

Import Events.
Local Open Scope Z_scope.

(** [s] up to its first [sep], all of [s] when it has none. *)
Fixpoint before (sep : ascii) (s : string) : string :=
  match s with
  | EmptyString => EmptyString
  | String c rest =>
      if Ascii.eqb c sep then EmptyString else String c (before sep rest)
  end.

(** Every character of [s] satisfies [p]. *)
Fixpoint all_chars (p : ascii -> bool) (s : string) : bool :=
  match s with
  | EmptyString => true
  | String c rest => p c && all_chars p rest
  end.

(** The event took place more than a day before [now]. *)
Definition past (now : Z) (row : Event) : Prop :=
  EventDate row < now - us_per_day.

(** The dates of two seasons, in microseconds. *)
Definition sample_schedules (year : Z) : list Event :=
  if year =? 2024
  then [mkEvent 1709337600000000 "Bahrain Grand Prix";
        mkEvent 1710547200000000 "Australian Grand Prix";
        mkEvent 1733616000000000 "Abu Dhabi Grand Prix"]
  else if year =? 2023
       then [mkEvent 1677974400000000 "Bahrain Grand Prix";
             mkEvent 1700956800000000 "Abu Dhabi Grand Prix"]
       else [].

(** 1 April 2024, 12:00. *)
Definition sample_now : Z := 1711972800000000.

End EventSpec.

Module Drivers.

Import Exc.

(** [Series.iloc[0]] of an empty selection. *)
Inductive exn : Type :=
| IndexError.

(** A row of [session.laps]; the two columns read. *)
Record LapRow : Type := mkLapRow {
  DriverNumber : string;
  Driver : string
}.

(** What the function reads of a loaded session: [session.drivers] (the
    driver numbers, as strings) and [session.laps]. *)
Record Session : Type := mkSession {
  drivers : list string;
  laps : list LapRow
}.

(** [str.isdigit()], for ASCII strings: at least one character, all of
    them decimal digits. *)
Definition isdigit (s : string) : bool :=
  match s with
  | EmptyString => false
  | String _ _ => EventSpec.all_chars LapTime.is_digit s
  end.

(** fastf1's [Laps.pick_driver(identifier)]: the laps of a driver number
    when the identifier is a number, of an abbreviation otherwise. *)
Definition pick_driver (identifier : string) (laps : list LapRow)
  : list LapRow :=
  if isdigit identifier
  then filter (fun l => String.eqb (DriverNumber l) identifier) laps
  else filter (fun l => String.eqb (Driver l) identifier) laps.

(** [get_drivers_short_name] (utils.py, lines 20-35). *)
Definition get_drivers_short_name (session : Session)
  : outcome exn (list string) :=
  traverse (fun drv =>
              let drv_laps := pick_driver drv (laps session) in
              match drv_laps with
              | [] => Raises IndexError
              | first :: _ => Returns (Driver first)
              end)
           (drivers session).

(** Three drivers listed, laps of two of them. *)
Definition session_with_absent_driver : Session :=
  mkSession ["1"; "44"; "14"]%string
            [mkLapRow "44" "HAM"; mkLapRow "1" "VER"; mkLapRow "44" "HAM"]%string.

End Drivers.

Module LapPlots.

Import Py LapTime.

(** A row of [driver_laps], the quick laps of the driver: the columns
    read.  Quick laps have a lap time; the compound can be missing. *)
Record QuickLap : Type := mkQuickLap {
  ql_LapNumber : Z;
  ql_LapTime : Timedelta;
  ql_Compound : option string
}.

(** A [go.Scatter] trace: its points, its legend label and the colour of
    its markers. *)
Record Trace : Type := mkTrace {
  trace_x : list Z;
  trace_y : list datetime;
  trace_name : string;
  trace_color : string
}.

(** [driver_laps[driver_laps['Compound'] == compound]]; a missing
    compound equals no compound. *)
Definition on_compound (compound : string) (driver_laps : list QuickLap)
  : list QuickLap :=
  filter (fun l => match ql_Compound l with
                   | Some c => String.eqb c compound
                   | None => false
                   end) driver_laps.

(** The body of [for compound in compound_colors.keys()] (plots.py, lines
    194-207). *)
Definition compound_trace (driver_laps : list QuickLap)
           (entry : string * string) : result Trace :=
  let compound := fst entry in
  let compound_data := on_compound compound driver_laps in
  converted_lap_time <-
    convert_timedelta_to_datetime (map ql_LapTime compound_data) ;;
  Ok (mkTrace (map ql_LapNumber compound_data) converted_lap_time
              compound (snd entry)).

(** The traces of [plot_session_laptimes_with_compound_type] (plots.py,
    lines 168-207) on the quick laps of the driver; [compound_colors] is
    fastf1's colour table, as its items (a [dict]: no key twice). *)
Fixpoint plot_session_laptimes_with_compound_type
         (compound_colors : list (string * string))
         (driver_laps : list QuickLap) : result (list Trace) :=
  match compound_colors with
  | [] => Ok []
  | entry :: rest =>
      trace <- compound_trace driver_laps entry ;;
      traces <- plot_session_laptimes_with_compound_type rest driver_laps ;;
      Ok (trace :: traces)
  end.

End LapPlots.

Module LapPlotSpec.

Import LapTime LapPlots.
Local Open Scope Z_scope.

(** The lap is on a compound of the colour table. *)
Definition known_compound (compound_colors : list (string * string))
           (l : QuickLap) : bool :=
  match ql_Compound l with
  | Some c => existsb (String.eqb c) (map fst compound_colors)
  | None => false
  end.

(** The points drawn, over all traces. *)
Definition points (traces : list Trace) : nat :=
  list_sum (map (fun t => List.length (trace_x t)) traces)%nat.

(** Three compounds. *)
Definition sample_colors : list (string * string) :=
  [("SOFT", "#da291c"); ("MEDIUM", "#ffd12e"); ("HARD", "#f0f0ec")]%string.

(** Four quick laps: two on soft tyres, one on hard tyres, one whose
    compound is not recorded. *)
Definition sample_laps : list QuickLap :=
  [mkQuickLap 2 83456000000 (Some "SOFT"%string);
   mkQuickLap 3 83999000000 (Some "SOFT"%string);
   mkQuickLap 4 84100000000 None;
   mkQuickLap 20 85000000000 (Some "HARD"%string)].

End LapPlotSpec.

(* ================================================================== *)
(** * Facts about rationals and rounding *)

Lemma Qgtb_true (a b : Q) : Qgtb a b = true <-> b < a.
Proof.
  unfold Qgtb. rewrite negb_true_iff. split; intro H.
  - apply Qnot_le_lt. intro Hle. apply Qle_bool_iff in Hle. congruence.
  - destruct (Qle_bool a b) eqn:E; [|reflexivity].
    apply Qle_bool_iff in E. exfalso. exact (Qlt_not_le _ _ H E).
Qed.

Lemma Qgtb_false (a b : Q) : Qgtb a b = false <-> a <= b.
Proof.
  unfold Qgtb. rewrite negb_false_iff. apply Qle_bool_iff.
Qed.

Lemma rint_floor (q : Q) :
  (Qnum q / Z.pos (Qden q) <= rint q <= Qnum q / Z.pos (Qden q) + 1)%Z.
Proof.
  unfold rint.
  destruct (_ <? _)%Z; [lia|].
  destruct (_ <? _)%Z; [lia|].
  destruct (Z.even _); lia.
Qed.

Lemma rint_lower (q : Q) (k : Z) : inject_Z k <= q -> (k <= rint q)%Z.
Proof.
  intro H. unfold Qle in H. simpl in H.
  apply Z.le_trans with (Qnum q / Z.pos (Qden q))%Z.
  - apply Z.div_le_lower_bound; lia.
  - apply rint_floor.
Qed.

Lemma rint_upper (q : Q) (k : Z) : q <= inject_Z k -> (rint q <= k)%Z.
Proof.
  intro H. unfold Qle in H. simpl in H.
  set (n := Qnum q) in *. set (d := Z.pos (Qden q)) in *.
  assert (Hd : (0 < d)%Z) by (subst d; lia).
  assert (Hdiv : (n = d * (n / d) + n mod d)%Z) by (apply Z.div_mod; lia).
  assert (Hmod : (0 <= n mod d < d)%Z) by (apply Z.mod_pos_bound; lia).
  assert (Hf : (n / d <= k)%Z) by (apply Z.div_le_upper_bound; lia).
  unfold rint. fold n d.
  destruct (2 * (n mod d) <? d)%Z eqn:E1; [exact Hf|].
  apply Z.ltb_ge in E1.
  assert (Hlt : (n / d < k)%Z) by nia.
  destruct (d <? 2 * (n mod d))%Z; [lia|].
  destruct (Z.even (n / d)); lia.
Qed.

Lemma round2_bounds (q : Q) (M : Z) :
  0 <= q -> q <= inject_Z M -> 0 <= round2 q /\ round2 q <= inject_Z M.
Proof.
  intros H0 HM. unfold round2. split.
  - assert (H : (0 <= rint (q * 100))%Z).
    { apply rint_lower. apply Qmult_le_0_compat; [exact H0|discriminate]. }
    unfold Qle. simpl. lia.
  - assert (H : (rint (q * 100) <= M * 100)%Z).
    { apply rint_upper.
      apply Qle_trans with (inject_Z M * 100).
      - apply Qmult_le_compat_r; [exact HM|discriminate].
      - unfold Qle. simpl. lia. }
    unfold Qle. simpl. lia.
Qed.

Lemma Qsum_from_bounds (M : Q) (l : list Q) :
  Forall (fun s => 0 <= s /\ s <= M) l ->
  forall (acc : Q) (k : nat),
    0 <= acc -> acc <= inject_Z (Z.of_nat k) * M ->
    0 <= Qsum_from acc l
    /\ Qsum_from acc l <= inject_Z (Z.of_nat (k + List.length l)) * M.
Proof.
  induction 1 as [|s l [Hs0 HsM] _ IH]; intros acc k H0 HM; simpl.
  - rewrite Nat.add_0_r. auto.
  - replace (k + S (List.length l))%nat with (S k + List.length l)%nat by lia.
    apply IH.
    + replace 0 with (0 + 0) by reflexivity. apply Qplus_le_compat; assumption.
    + apply Qle_trans with (inject_Z (Z.of_nat k) * M + M).
      * apply Qplus_le_compat; assumption.
      * rewrite Nat2Z.inj_succ. unfold Z.succ. rewrite inject_Z_plus.
        rewrite Qmult_plus_distr_l. rewrite Qmult_1_l. apply Qle_refl.
Qed.

Lemma mean_speed_bounds (M : Z) (l : list Corners.Tick) :
  l <> [] ->
  Forall (fun t => 0 <= Corners.Speed t /\ Corners.Speed t <= inject_Z M) l ->
  0 <= round2 (CornerSpec.mean_speed l)
  /\ round2 (CornerSpec.mean_speed l) <= inject_Z M.
Proof.
  intros Hne Hall.
  assert (Hn : 0 < inject_Z (Z.of_nat (List.length l))).
  { destruct l; [congruence|]. unfold Qlt. simpl. lia. }
  assert (Hs : Forall (fun s => 0 <= s /\ s <= inject_Z M)
                      (map Corners.Speed l)).
  { apply Forall_forall. intros s Hin. apply in_map_iff in Hin.
    destruct Hin as [t [<- Ht]]. rewrite Forall_forall in Hall. auto. }
  destruct (@Qsum_from_bounds _ _ Hs 0 0%nat) as [Hlo Hhi].
  { apply Qle_refl. }
  { simpl. rewrite Qmult_0_l. apply Qle_refl. }
  simpl in Hhi. rewrite length_map in Hhi.
  unfold CornerSpec.mean_speed. apply round2_bounds.
  - apply Qle_shift_div_l; [exact Hn|]. rewrite Qmult_0_l. exact Hlo.
  - apply Qle_shift_div_r; [exact Hn|].
    rewrite Qmult_comm. exact Hhi.
Qed.

(* ================================================================== *)
(** * The inner loop *)

Section Scan.

Import Corners CornerSpec.

Lemma last_cons_default (A : Type) (a d : A) (l : list A) :
  last (a :: l) d = last l a.
Proof.
  revert a d. induction l as [|b l IH]; intros a d; [reflexivity|].
  change (last (a :: b :: l) d) with (last (b :: l) d).
  rewrite IH. symmetry. apply IH.
Qed.

(** What one scan computes, whatever the order of the telemetry. *)
Lemma scan_spec (cd start : Q) (telemetry : list Tick) :
  forall n acc e v,
    let counted := filter (fun t => Qgtb (Distance t) start)
                          (upto cd telemetry) in
    scan cd start telemetry n acc e v =
    mkInner (if passed cd telemetry then Break else Exhausted)
            (n + List.length counted)
            (Qsum_from acc (map Speed counted))
            (last (map Distance counted) e)
            (v + (List.length (upto cd telemetry)
                  + (if passed cd telemetry then 1 else 0))).
Proof.
  induction telemetry as [|t rest IH]; intros n acc e v; simpl.
  - f_equal; lia.
  - destruct (Qgtb (Distance t) cd) eqn:Ecd; simpl.
    + f_equal; lia.
    + destruct (Qgtb (Distance t) start) eqn:Est.
      * rewrite IH. cbv zeta.
        change (map Distance (t :: ?l)) with (Distance t :: map Distance l).
        rewrite last_cons_default. simpl. f_equal; lia.
      * rewrite IH. cbv zeta. f_equal; lia.
Qed.

Lemma filter_beyond (cd : Q) (telemetry : list Tick) :
  Forall (fun u => cd < Distance u) telemetry ->
  filter (fun t => Qle_bool (Distance t) cd) telemetry = [].
Proof.
  induction 1 as [|u rest Hu _ IH]; simpl; [reflexivity|].
  destruct (Qle_bool (Distance u) cd) eqn:E; [|exact IH].
  apply Qle_bool_iff in E. exfalso. exact (Qlt_not_le _ _ Hu E).
Qed.

Lemma upto_sorted (cd : Q) (telemetry : list Tick) :
  by_distance telemetry ->
  upto cd telemetry
  = filter (fun t => Qle_bool (Distance t) cd) telemetry.
Proof.
  induction 1 as [|t rest Hrest IH Hall]; simpl; [reflexivity|].
  destruct (Qgtb (Distance t) cd) eqn:E.
  - assert (Ht : Qle_bool (Distance t) cd = false).
    { unfold Qgtb in E. apply negb_true_iff in E. exact E. }
    rewrite Ht. symmetry. apply filter_beyond.
    apply Qgtb_true in E.
    eapply Forall_impl; [|exact Hall].
    intros u Hu. simpl in Hu.
    apply Qlt_le_trans with (Distance t); assumption.
  - apply Qgtb_false in E. apply Qle_bool_iff in E. rewrite E.
    f_equal. exact IH.
Qed.

End Scan.

(* ================================================================== *)
(** * The outer loop on telemetry in driving order *)

Section Sweep.

Import Corners CornerSpec.

Lemma loc_set_fresh (k : Z) (r : Row) (df : Frame) :
  ~ In k (map fst df) -> loc_set k r df = df ++ [(k, r)].
Proof.
  induction df as [|[k' r'] df IH]; simpl; intro Hk; [reflexivity|].
  destruct (Z.eqb_spec k k') as [->|Hne].
  - exfalso. apply Hk. left. reflexivity.
  - f_equal. apply IH. intro Hin. apply Hk. right. exact Hin.
Qed.

Lemma filter_filter (A : Type) (f g : A -> bool) (l : list A) :
  filter f (filter g l) = filter (fun x => f x && g x) l.
Proof.
  induction l as [|x l IH]; simpl; [reflexivity|].
  destruct (g x); simpl.
  - rewrite andb_true_r. destruct (f x); rewrite IH; reflexivity.
  - rewrite andb_false_r. exact IH.
Qed.

Lemma counted_interval (cd start : Q) (telemetry : list Tick) :
  by_distance telemetry ->
  filter (fun t => Qgtb (Distance t) start) (upto cd telemetry)
  = interval start cd telemetry.
Proof.
  intro Hs. rewrite (upto_sorted cd Hs). apply filter_filter.
Qed.

Lemma by_distance_filter (f : Tick -> bool) (telemetry : list Tick) :
  by_distance telemetry -> by_distance (filter f telemetry).
Proof.
  induction 1 as [|t rest _ IH Hall]; simpl; [constructor|].
  destruct (f t); [|exact IH].
  constructor; [exact IH|].
  rewrite Forall_forall in *. intros x Hx.
  apply filter_In in Hx. apply Hall. tauto.
Qed.

Lemma last_default_le (t : Tick) (rest : list Tick) :
  Forall (fun u => Distance t <= Distance u) rest ->
  Distance t <= last (map Distance rest) (Distance t).
Proof.
  induction 1 as [|u rest Hu Hall IH]; simpl; [apply Qle_refl|].
  destruct rest as [|w rest]; [exact Hu|]. exact IH.
Qed.

Lemma last_is_greatest (l : list Tick) :
  by_distance l ->
  forall d x, In x l -> Distance x <= last (map Distance l) d.
Proof.
  induction 1 as [|t rest _ IH Hall]; intros d x Hx; [contradiction|].
  change (map Distance (t :: rest)) with (Distance t :: map Distance rest).
  rewrite last_cons_default.
  destruct Hx as [<-|Hx].
  - apply last_default_le. exact Hall.
  - apply IH. exact Hx.
Qed.

Lemma last_of_ticks (l : list Tick) (d : Q) :
  l <> [] -> exists t, In t l /\ last (map Distance l) d = Distance t.
Proof.
  induction l as [|t l IH]; intro Hne; [congruence|].
  destruct l as [|u l].
  - exists t. split; [left; reflexivity|reflexivity].
  - destruct IH as [x [Hx Hl]]; [discriminate|].
    exists x. split; [right; exact Hx|exact Hl].
Qed.

Lemma settled_init (telemetry : list Tick) : settled telemetry 0 0.
Proof. split; [apply Qle_refl|auto]. Qed.

Lemma interval_settled (telemetry : list Tick) (start prev cd : Q) :
  settled telemetry start prev ->
  interval start cd telemetry = interval prev cd telemetry.
Proof.
  intros [Hle Hno]. unfold interval. apply filter_ext_in. intros t Ht.
  destruct (Qle_bool (Distance t) cd); [|rewrite !andb_false_r; reflexivity].
  rewrite !andb_true_r.
  destruct (Qgtb (Distance t) prev) eqn:Ep.
  - apply Qgtb_true in Ep. apply Qgtb_true.
    apply Qle_lt_trans with prev; assumption.
  - apply Qgtb_false in Ep. apply Qgtb_false. apply Hno; assumption.
Qed.

Lemma settled_next (telemetry : list Tick) (start cd : Q) :
  by_distance telemetry ->
  interval start cd telemetry <> [] ->
  settled telemetry
          (last (map Distance (interval start cd telemetry)) start) cd.
Proof.
  intros Hs Hne.
  destruct (last_of_ticks start Hne) as [x [Hx Hl]].
  pose proof Hx as Hx'. apply filter_In in Hx'.
  destruct Hx' as [_ Hb]. apply andb_true_iff in Hb.
  destruct Hb as [Hgt Hle]. apply Qgtb_true in Hgt. apply Qle_bool_iff in Hle.
  split.
  - rewrite Hl. exact Hle.
  - intros t Ht Htc.
    destruct (Qgtb (Distance t) start) eqn:E.
    + apply last_is_greatest.
      * apply by_distance_filter. exact Hs.
      * apply filter_In. split; [exact Ht|].
        rewrite E. apply Qle_bool_iff in Htc. rewrite Htc. reflexivity.
    + apply Qgtb_false in E. rewrite Hl.
      apply Qle_trans with start; [exact E|]. apply Qlt_le_weak. exact Hgt.
Qed.

Lemma corner_step_break (telemetry : list Tick) (st : Loop) (c : Corner) :
  by_distance telemetry ->
  passed (CDistance c) telemetry = true ->
  interval (start st) (CDistance c) telemetry <> [] ->
  let iv := interval (start st) (CDistance c) telemetry in
  let e := last (map Distance iv) (end_dist_var st) in
  corner_step telemetry st c
  = Ok (mkLoop (loc_set (Number c)
                  (mkRow (round2 (mean_speed iv)) (Number c) (start st) e)
                  (df st))
               e e (ticks_list st ++ [List.length iv])
               (inspected st + scan_length (CDistance c) telemetry)).
Proof.
  intros Hs Hp Hne iv e. unfold corner_step.
  rewrite scan_spec. cbv zeta. rewrite (counted_interval _ _ Hs).
  rewrite Hp. fold iv. cbn [how ticks avg_speed_accumulator end_ visited].
  destruct (List.length iv) eqn:El.
  - exfalso. apply Hne. apply length_zero_iff_nil. exact El.
  - cbn [Nat.add]. unfold mean_speed, scan_length. rewrite El, Hp.
    reflexivity.
Qed.

End Sweep.

Section Loop.

Import Corners CornerSpec.

Lemma last_default_irrelevant (A : Type) (l : list A) (d d' : A) :
  l <> [] -> last l d = last l d'.
Proof.
  induction l as [|a l IH]; intro Hne; [congruence|].
  destruct l as [|b l]; [reflexivity|].
  apply IH. discriminate.
Qed.

(** An empty interval met by the scan: the division is by zero. *)
Lemma corner_step_empty_interval
      (telemetry : list Tick) (st : Loop) (c : Corner) :
  by_distance telemetry ->
  passed (CDistance c) telemetry = true ->
  interval (start st) (CDistance c) telemetry = [] ->
  corner_step telemetry st c = Raise ZeroDivisionError.
Proof.
  intros Hs Hp He. unfold corner_step.
  rewrite scan_spec. cbv zeta. rewrite (counted_interval _ _ Hs).
  rewrite Hp, He. reflexivity.
Qed.

(** A corner no tick lies beyond: no row, and [start] stays. *)
Lemma corner_step_exhausted
      (telemetry : list Tick) (st : Loop) (c : Corner) :
  passed (CDistance c) telemetry = false ->
  exists e v,
    corner_step telemetry st c
    = Ok (mkLoop (df st) (start st) e (ticks_list st) v).
Proof.
  intro Hp. unfold corner_step. rewrite scan_spec. cbv zeta.
  rewrite Hp. cbn [how end_ visited]. eexists. eexists. reflexivity.
Qed.

Lemma passed_corners_cons (telemetry : list Tick) (c : Corner)
      (cs : list Corner) :
  passed_corners telemetry (c :: cs)
  = if passed (CDistance c) telemetry
    then c :: passed_corners telemetry cs
    else passed_corners telemetry cs.
Proof. reflexivity. Qed.

(** On telemetry in driving order, when every interval of a passed corner
    holds a tick, the loop returns, and adds the expected rows of the
    passed corners, in their order. *)
Lemma corners_loop_returns (telemetry : list Tick) :
  by_distance telemetry ->
  forall corners st prev,
    settled telemetry (start st) prev ->
    intervals_inhabited telemetry prev (passed_corners telemetry corners) ->
    NoDup (map fst (df st)
           ++ map Number (passed_corners telemetry corners)) ->
    exists st',
      corners_loop telemetry corners st = Ok st'
      /\ df st' = df st ++ expected_rows telemetry (start st) prev
                                         (passed_corners telemetry corners).
Proof.
  intros Hs corners.
  induction corners as [|c cs IH]; intros st prev Hset Hinh Hnd.
  - exists st. simpl. rewrite app_nil_r. split; reflexivity.
  - rewrite passed_corners_cons in Hinh, Hnd |- *.
    destruct (passed (CDistance c) telemetry) eqn:Hc.
    + destruct Hinh as [Hne Hinh].
      pose proof (@interval_settled telemetry (start st) prev (CDistance c)
                                    Hset) as Hiv.
      assert (Hne' : interval (start st) (CDistance c) telemetry <> [])
        by (rewrite Hiv; exact Hne).
      pose proof (@corner_step_break telemetry st c Hs Hc Hne') as Hstep.
      cbv zeta in Hstep.
      simpl corners_loop. rewrite Hstep. simpl Py.bind.
      simpl in Hnd. destruct (NoDup_remove _ _ _ Hnd) as [_ Hfresh].
      assert (Hk : ~ In (Number c) (map fst (df st))).
      { intro Hin. apply Hfresh. apply in_or_app. left. exact Hin. }
      rewrite loc_set_fresh by exact Hk.
      set (iv := interval (start st) (CDistance c) telemetry) in *.
      assert (Hlast : last (map Distance iv) (end_dist_var st)
                      = last (map Distance iv) (start st)).
      { apply last_default_irrelevant. intro Hm. apply map_eq_nil in Hm.
        exact (Hne' Hm). }
      rewrite Hlast.
      set (e := last (map Distance iv) (start st)).
      edestruct (IH (mkLoop (df st ++ [(Number c,
                                        mkRow (round2 (mean_speed iv))
                                              (Number c) (start st) e)])
                            e e (ticks_list st ++ [List.length iv])
                            (inspected st
                             + scan_length (CDistance c) telemetry))
                    (CDistance c)) as [st' [Hrun Hdf]].
      * cbn [start]. apply settled_next; assumption.
      * exact Hinh.
      * cbn [df]. rewrite map_app. simpl. rewrite <- app_assoc. exact Hnd.
      * exists st'. split; [exact Hrun|].
        rewrite Hdf. cbn [df start]. rewrite <- app_assoc. simpl.
        subst e iv. rewrite Hiv. reflexivity.
    + destruct (@corner_step_exhausted telemetry st c Hc) as [e [v Hstep]].
      simpl corners_loop. rewrite Hstep. simpl Py.bind.
      apply (IH (mkLoop (df st) (start st) e (ticks_list st) v) prev);
        assumption.
Qed.

(** Conversely, a run that returns met no empty interval. *)
Lemma corners_loop_inhabited (telemetry : list Tick) :
  by_distance telemetry ->
  forall corners st prev st',
    settled telemetry (start st) prev ->
    corners_loop telemetry corners st = Ok st' ->
    intervals_inhabited telemetry prev (passed_corners telemetry corners).
Proof.
  intros Hs corners.
  induction corners as [|c cs IH]; intros st prev st' Hset Hrun;
    [exact I|].
  rewrite passed_corners_cons.
  simpl corners_loop in Hrun.
  destruct (passed (CDistance c) telemetry) eqn:Hc.
  - pose proof (@interval_settled telemetry (start st) prev (CDistance c)
                                  Hset) as Hiv.
    assert (Hdec : interval (start st) (CDistance c) telemetry = []
                   \/ interval (start st) (CDistance c) telemetry <> []).
    { destruct (interval (start st) (CDistance c) telemetry);
        [left; reflexivity|right; discriminate]. }
    destruct Hdec as [Ei|Hne].
    + rewrite (@corner_step_empty_interval telemetry st c Hs Hc Ei) in Hrun.
      discriminate.
    + pose proof (@corner_step_break telemetry st c Hs Hc Hne) as Hstep.
      cbv zeta in Hstep. rewrite Hstep in Hrun. simpl Py.bind in Hrun.
      split.
      * rewrite <- Hiv. exact Hne.
      * eapply (IH _ (CDistance c) st'); [|exact Hrun].
        cbn [start].
        rewrite (@last_default_irrelevant _ _ (end_dist_var st) (start st)).
        -- apply settled_next; assumption.
        -- intro Hm. apply map_eq_nil in Hm. exact (Hne Hm).
  - destruct (@corner_step_exhausted telemetry st c Hc) as [e [v Hstep]].
    rewrite Hstep in Hrun. simpl Py.bind in Hrun.
    eapply (IH _ prev st'); [|exact Hrun]. exact Hset.
Qed.

(** Whatever the telemetry, a run that returns has looked, for every
    corner, at all rows up to the first one beyond the corner. *)
Lemma corners_loop_inspected (telemetry : list Tick) :
  forall corners st st',
    corners_loop telemetry corners st = Ok st' ->
    inspected st'
    = (inspected st + total_scan_length telemetry corners)%nat.
Proof.
  induction corners as [|c cs IH]; intros st st' Hrun; simpl in Hrun.
  - injection Hrun as <-. unfold total_scan_length. simpl. lia.
  - destruct (corner_step telemetry st c) as [st1|] eqn:Hstep;
      simpl in Hrun; [|discriminate].
    rewrite (IH _ _ Hrun).
    assert (H1 : inspected st1
                 = (inspected st + scan_length (CDistance c) telemetry)%nat).
    { unfold corner_step in Hstep. rewrite scan_spec in Hstep.
      cbv zeta in Hstep.
      cbn [how ticks avg_speed_accumulator end_ visited] in Hstep.
      unfold scan_length.
      destruct (passed (CDistance c) telemetry).
      - destruct (0 + _)%nat in Hstep; [discriminate|].
        injection Hstep as <-. reflexivity.
      - injection Hstep as <-. reflexivity. }
    rewrite H1. unfold total_scan_length. simpl. lia.
Qed.

Lemma scan_length_le (cd : Q) (telemetry : list Tick) :
  (scan_length cd telemetry <= List.length telemetry)%nat.
Proof.
  unfold scan_length.
  induction telemetry as [|t rest IH]; simpl; [lia|].
  destruct (Qgtb (Distance t) cd); simpl; lia.
Qed.

Lemma total_scan_length_le (telemetry : list Tick) (corners : list Corner) :
  (total_scan_length telemetry corners
   <= List.length corners * List.length telemetry)%nat.
Proof.
  unfold total_scan_length.
  induction corners as [|c cs IH]; simpl; [lia|].
  pose proof (scan_length_le (CDistance c) telemetry). lia.
Qed.

Lemma passed_corners_all (telemetry : list Tick) (corners : list Corner) :
  Forall (fun c => passed (CDistance c) telemetry = true) corners ->
  passed_corners telemetry corners = corners.
Proof.
  induction 1 as [|c cs Hc _ IH]; [reflexivity|].
  rewrite passed_corners_cons, Hc, IH. reflexivity.
Qed.

Lemma passed_corners_NoDup (telemetry : list Tick) (corners : list Corner) :
  NoDup (map Number corners) ->
  NoDup (map Number (passed_corners telemetry corners)).
Proof.
  induction corners as [|c cs IH]; intro Hnd; [constructor|].
  inversion Hnd as [|? ? Hnotin Hnd']; subst.
  rewrite passed_corners_cons.
  destruct (passed (CDistance c) telemetry); [|exact (IH Hnd')].
  simpl. constructor; [|exact (IH Hnd')].
  intro Hin. apply Hnotin. apply in_map_iff in Hin.
  destruct Hin as [x [Hx Hin]]. apply filter_In in Hin.
  rewrite <- Hx. apply in_map. tauto.
Qed.

Lemma passed_corners_ascending (telemetry : list Tick)
      (corners : list Corner) :
  StronglySorted Z.lt (map Number corners) ->
  StronglySorted Z.lt (map Number (passed_corners telemetry corners)).
Proof.
  induction corners as [|c cs IH]; intro Hs; [constructor|].
  inversion Hs as [|? ? Hs' Hall]; subst.
  rewrite passed_corners_cons.
  destruct (passed (CDistance c) telemetry); [|exact (IH Hs')].
  simpl. constructor; [exact (IH Hs')|].
  rewrite Forall_forall in *. intros k Hk. apply Hall.
  apply in_map_iff in Hk. destruct Hk as [x [<- Hx]].
  apply filter_In in Hx. apply in_map. tauto.
Qed.

(** The frame of a run on telemetry in driving order. *)
Lemma segmentation_frame (telemetry : list Tick) (corners : list Corner) :
  by_distance telemetry ->
  NoDup (map Number corners) ->
  (intervals_inhabited telemetry 0 (passed_corners telemetry corners) ->
   exists out, get_avg_speed_between_corners telemetry corners = Ok out)
  /\ forall out,
       get_avg_speed_between_corners telemetry corners = Ok out ->
       intervals_inhabited telemetry 0 (passed_corners telemetry corners)
       /\ out = expected_rows telemetry 0 0
                              (passed_corners telemetry corners).
Proof.
  intros Hs Hnd.
  assert (Htotal :
            intervals_inhabited telemetry 0
                                (passed_corners telemetry corners) ->
            exists st',
              corners_loop telemetry corners init = Ok st'
              /\ df st' = expected_rows telemetry 0 0
                                        (passed_corners telemetry corners)).
  { intro Hinh.
    apply (@corners_loop_returns telemetry Hs corners init 0).
    - apply settled_init.
    - exact Hinh.
    - simpl. apply passed_corners_NoDup. exact Hnd. }
  unfold get_avg_speed_between_corners. split.
  - intro Hinh. destruct (Htotal Hinh) as [st' [Hrun _]].
    exists (df st'). rewrite Hrun. reflexivity.
  - intros out Hout.
    destruct (corners_loop telemetry corners init) as [st|] eqn:Hrun;
      simpl in Hout; [|discriminate].
    injection Hout as <-.
    assert (Hinh : intervals_inhabited telemetry 0
                                       (passed_corners telemetry corners)).
    { apply (@corners_loop_inhabited telemetry Hs corners init 0 st);
        [apply settled_init|exact Hrun]. }
    split; [exact Hinh|].
    destruct (Htotal Hinh) as [st' [Hrun' Hdf]].
    congruence.
Qed.

End Loop.

(* ================================================================== *)
(** * Corner segmentation: the claims *)

Section CornerClaims.

Import Corners CornerSpec.

Lemma corners_loop_exn (telemetry : list Tick) (corners : list Corner) :
  forall st e,
    corners_loop telemetry corners st = Raise e -> e = ZeroDivisionError.
Proof.
  induction corners as [|c cs IH]; intros st e Hrun; simpl in Hrun;
    [discriminate|].
  destruct (corner_step telemetry st c) as [st1|e1] eqn:Hstep;
    simpl in Hrun.
  - exact (IH _ _ Hrun).
  - injection Hrun as <-. unfold corner_step in Hstep.
    destruct (how _); [destruct (ticks _)|]; congruence.
Qed.

(** On telemetry in driving order the function raises, and then raises
    [ZeroDivisionError], as soon as the interval of some passed corner holds
    no tick. *)
Lemma empty_interval_raises (telemetry : list Tick) (corners : list Corner) :
  by_distance telemetry ->
  ~ intervals_inhabited telemetry 0 (passed_corners telemetry corners) ->
  get_avg_speed_between_corners telemetry corners = Raise ZeroDivisionError.
Proof.
  intros Hs Hempty. unfold get_avg_speed_between_corners.
  destruct (corners_loop telemetry corners init) as [st|e] eqn:Hrun; simpl.
  - exfalso. apply Hempty.
    apply (@corners_loop_inhabited telemetry Hs corners init 0 st);
      [apply settled_init|exact Hrun].
  - rewrite (@corners_loop_exn telemetry corners init e Hrun). reflexivity.
Qed.

(** C1 (defect of the code).  Ticks at 50 m and 150 m, corners 1 and 2 at
    100 m and 120 m: no tick lies between the two corners, and the
    function raises [ZeroDivisionError] instead of returning a frame with
    an undefined average for corner 2. *)
Theorem empty_corner_interval_raises :
  get_avg_speed_between_corners
    [mkTick 50 200; mkTick 150 210]
    [mkCorner 1 100; mkCorner 2 120]
  = Raise ZeroDivisionError.
Proof. reflexivity. Qed.

Lemma expected_rows_labels (telemetry : list Tick) (corners : list Corner) :
  forall start prev,
    map fst (expected_rows telemetry start prev corners)
    = map Number corners.
Proof.
  induction corners as [|c cs IH]; intros start prev; simpl;
    [reflexivity|].
  f_equal. apply IH.
Qed.

Lemma expected_rows_numbers (telemetry : list Tick) (corners : list Corner) :
  forall start prev,
    map (fun kr => corner_number (snd kr))
        (expected_rows telemetry start prev corners)
    = map Number corners.
Proof.
  induction corners as [|c cs IH]; intros start prev; simpl;
    [reflexivity|].
  f_equal. apply IH.
Qed.

Lemma expected_rows_bounds (M : Z) (telemetry : list Tick) :
  Forall (fun t => 0 <= Speed t /\ Speed t <= inject_Z M) telemetry ->
  forall corners start prev,
    intervals_inhabited telemetry prev corners ->
    Forall (fun kr => 0 <= avg_speed (snd kr)
                      /\ avg_speed (snd kr) <= inject_Z M)
           (expected_rows telemetry start prev corners).
Proof.
  intros Hall.
  induction corners as [|c cs IH]; intros start prev Hinh; simpl;
    [constructor|].
  destruct Hinh as [Hne Hinh]. constructor.
  - simpl. apply mean_speed_bounds; [exact Hne|].
    apply Forall_forall. intros t Ht. apply filter_In in Ht.
    rewrite Forall_forall in Hall. apply Hall. tauto.
  - apply IH. exact Hinh.
Qed.

(** The frame of a run that returns.  On telemetry in driving order, with
    distinct corner numbers and speeds between 0 and [M]: whenever the
    function returns, its frame has exactly one row for every corner that
    some tick lies beyond, and none for the other corners (so one row per
    corner only when every corner is passed), labelled and numbered in the
    order of the circuit's corners (so ascending when these are), and every
    average lies between 0 and [M]; no average is undefined.  The function
    returns whenever the interval of every passed corner holds a tick. *)
Theorem one_row_per_passed_corner
        (M : Z) (telemetry : list Tick) (corners : list Corner) :
  by_distance telemetry ->
  Forall (fun t => 0 <= Speed t /\ Speed t <= inject_Z M) telemetry ->
  NoDup (map Number corners) ->
  (intervals_inhabited telemetry 0 (passed_corners telemetry corners) ->
   exists out, get_avg_speed_between_corners telemetry corners = Ok out)
  /\ forall out,
       get_avg_speed_between_corners telemetry corners = Ok out ->
       map fst out = map Number (passed_corners telemetry corners)
       /\ map (fun kr => corner_number (snd kr)) out
          = map Number (passed_corners telemetry corners)
       /\ (Forall (fun c => passed (CDistance c) telemetry = true) corners ->
           List.length out = List.length corners)
       /\ (StronglySorted Z.lt (map Number corners) ->
           StronglySorted Z.lt (map (fun kr => corner_number (snd kr)) out))
       /\ Forall (fun kr => 0 <= avg_speed (snd kr)
                            /\ avg_speed (snd kr) <= inject_Z M) out.
Proof.
  intros Hs Hsp Hnd.
  destruct (@segmentation_frame telemetry corners Hs Hnd) as [Htotal Hrows].
  split; [exact Htotal|].
  intros out Hout. destruct (Hrows out Hout) as [Hinh ->].
  split; [apply expected_rows_labels|].
  split; [apply expected_rows_numbers|].
  split.
  { intro Hall. rewrite <- (length_map fst), expected_rows_labels.
    rewrite length_map, passed_corners_all by exact Hall. reflexivity. }
  split.
  { intro Hasc. rewrite expected_rows_numbers.
    apply passed_corners_ascending. exact Hasc. }
  apply expected_rows_bounds; assumption.
Qed.

(** At an input: three ticks, speeds within 0..400, two corners, both
    passed. *)
Lemma one_row_per_passed_corner_witness :
  get_avg_speed_between_corners
    [mkTick 50 200; mkTick 150 210; mkTick 250 220]
    [mkCorner 1 100; mkCorner 2 200]
  = Ok [(1%Z, mkRow (20000 # 100) 1 0 50);
        (2%Z, mkRow (21000 # 100) 2 50 150)]
  /\ map fst [(1%Z, mkRow (20000 # 100) 1 0 50);
              (2%Z, mkRow (21000 # 100) 2 50 150)]
     = map Number
           (passed_corners [mkTick 50 200; mkTick 150 210; mkTick 250 220]
                           [mkCorner 1 100; mkCorner 2 200]).
Proof.
  split; [reflexivity|].
  destruct (@one_row_per_passed_corner 400
              [mkTick 50 200; mkTick 150 210; mkTick 250 220]
              [mkCorner 1 100; mkCorner 2 200])
    as [_ Hrows].
  - repeat constructor; simpl; unfold Qle; simpl; lia.
  - repeat constructor; simpl; unfold Qle; simpl; lia.
  - repeat constructor; simpl; intuition lia.
  - destruct (Hrows _ eq_refl) as [Hlabels _]. exact Hlabels.
Defined.

Lemma distinct_numbers_inj (corners : list Corner) (a b : Corner) :
  NoDup (map Number corners) ->
  In a corners -> In b corners -> Number a = Number b -> a = b.
Proof.
  induction corners as [|c cs IH]; intros Hnd Ha Hb Hab; [contradiction|].
  inversion Hnd as [|? ? Hnotin Hnd']; subst.
  destruct Ha as [->|Ha], Hb as [->|Hb].
  - reflexivity.
  - exfalso. apply Hnotin. rewrite Hab. apply in_map. exact Hb.
  - exfalso. apply Hnotin. rewrite <- Hab. apply in_map. exact Ha.
  - exact (IH Hnd' Ha Hb Hab).
Qed.

Lemma filter_drops (A : Type) (p : A -> bool) (l : list A) (x : A) :
  In x l -> p x = false ->
  (List.length (filter p l) < List.length l)%nat.
Proof.
  induction l as [|a l IH]; intros Hx Hp; [contradiction|].
  simpl. pose proof (filter_length_le p l) as Hle.
  destruct Hx as [->|Hx].
  - rewrite Hp. lia.
  - specialize (IH Hx Hp). destruct (p a); simpl; lia.
Qed.

(** On telemetry in driving order, with distinct corner numbers, a corner
    that no tick lies beyond has no row in the returned frame, which is
    then shorter than the list of corners. *)
Lemma unpassed_corner_has_no_row
      (telemetry : list Tick) (corners : list Corner) (out : Frame)
      (c : Corner) :
  by_distance telemetry ->
  NoDup (map Number corners) ->
  get_avg_speed_between_corners telemetry corners = Ok out ->
  In c corners ->
  passed (CDistance c) telemetry = false ->
  ~ In (Number c) (map fst out)
  /\ (List.length out < List.length corners)%nat.
Proof.
  intros Hs Hnd Hout Hc Hp.
  destruct (@segmentation_frame telemetry corners Hs Hnd) as [_ Hrows].
  destruct (Hrows out Hout) as [_ ->].
  rewrite <- (length_map fst (expected_rows _ _ _ _)).
  rewrite expected_rows_labels, length_map. split.
  - intro Hin. apply in_map_iff in Hin. destruct Hin as [c' [Hn Hc']].
    unfold passed_corners in Hc'. apply filter_In in Hc'.
    destruct Hc' as [Hc' Hp'].
    rewrite (@distinct_numbers_inj corners c' c Hnd Hc' Hc Hn) in Hp'.
    congruence.
  - unfold passed_corners. exact (@filter_drops _ _ corners c Hc Hp).
Qed.

(** C2 (defect of the code).  Ticks at 50 m and 150 m, corners 1 and 2 at
    100 m and 200 m: the lap's telemetry ends before corner 2, and the
    function returns a frame with the row of corner 1 only, one row for two
    corners; corner 2 has neither an average nor an undefined marker.  The
    row of a corner is written only when a tick beyond the corner is met. *)
Lemma fewer_rows_than_corners :
  get_avg_speed_between_corners
    [mkTick 50 200; mkTick 150 210]
    [mkCorner 1 100; mkCorner 2 200]
  = Ok [(1%Z, mkRow (20000 # 100) 1 0 50)]
  /\ List.length [mkCorner 1 100; mkCorner 2 200] = 2%nat.
Proof. split; reflexivity. Qed.

End CornerClaims.

Section IntervalClaims.

Import Corners CornerSpec.

(** Membership in an interval: lower bound excluded, upper bound
    included. *)
Lemma interval_In (lo hi : Q) (telemetry : list Tick) (t : Tick) :
  In t (interval lo hi telemetry)
  <-> In t telemetry /\ lo < Distance t /\ Distance t <= hi.
Proof.
  unfold interval. rewrite filter_In, andb_true_iff, Qgtb_true, Qle_bool_iff.
  tauto.
Qed.

Lemma expected_rows_nth (telemetry : list Tick) :
  forall corners start prev i c,
    nth_error corners i = Some c ->
    exists row,
      nth_error (expected_rows telemetry start prev corners) i
      = Some (Number c, row)
      /\ avg_speed row
         = round2 (mean_speed (interval (prev_of prev corners i)
                                        (CDistance c) telemetry)).
Proof.
  induction corners as [|c0 cs IH]; intros start prev i c Hi.
  - destruct i; discriminate.
  - destruct i as [|j]; simpl in Hi.
    + injection Hi as ->. simpl. eexists. split; reflexivity.
    + simpl expected_rows. cbv zeta.
      destruct (IH (last (map Distance
                            (interval prev (CDistance c0) telemetry)) start)
                   (CDistance c0) j c Hi) as [row [Hn Ha]].
      exists row. split; [exact Hn|]. rewrite Ha.
      assert (Hp : prev_of (CDistance c0) cs j = prev_of prev (c0 :: cs) (S j)).
      { destruct j as [|j']; [reflexivity|].
        simpl. destruct (nth_error cs j') eqn:E; [reflexivity|].
        exfalso. apply nth_error_None in E.
        assert (Hlt : (S j' < List.length cs)%nat)
          by (apply nth_error_Some; congruence).
        lia. }
      rewrite Hp. reflexivity.
Qed.

(** C8, as the code has it.  On telemetry in driving order, whenever the
    function returns, the [i]-th row is that of the [i]-th corner that some
    tick lies beyond, and holds the rounded mean of the speeds of exactly
    the ticks whose distance is greater than the distance of the previous
    such corner (0 for the first) and at most the corner's own: the lower
    bound is excluded, the upper bound included.  Ticks at distance 0 or
    less and ticks beyond the last corner are in no interval.  The function
    returns whenever each of these intervals holds a tick. *)
Theorem average_over_left_open_interval
        (telemetry : list Tick) (corners : list Corner) :
  by_distance telemetry ->
  NoDup (map Number corners) ->
  (intervals_inhabited telemetry 0 (passed_corners telemetry corners) ->
   exists out, get_avg_speed_between_corners telemetry corners = Ok out)
  /\ forall out,
       get_avg_speed_between_corners telemetry corners = Ok out ->
       forall i c,
         nth_error (passed_corners telemetry corners) i = Some c ->
         exists row,
           nth_error out i = Some (Number c, row)
           /\ avg_speed row
              = round2 (mean_speed
                          (interval
                             (prev_of 0 (passed_corners telemetry corners) i)
                             (CDistance c) telemetry)).
Proof.
  intros Hs Hnd.
  destruct (@segmentation_frame telemetry corners Hs Hnd) as [Htotal Hrows].
  split; [exact Htotal|].
  intros out Hout i c Hi. destruct (Hrows out Hout) as [_ ->].
  apply expected_rows_nth. exact Hi.
Qed.

(** C8 at an input: a tick exactly at corner 1 (100 m) is averaged into
    corner 1, and the tick at 0 m into no corner. *)
Lemma average_over_left_open_interval_witness :
  get_avg_speed_between_corners boundary_lap
                                [mkCorner 1 100; mkCorner 2 200]
  = Ok [(1%Z, mkRow (10000 # 100) 1 0 100);
        (2%Z, mkRow (20000 # 100) 2 100 150)]
  /\ exists row,
       nth_error [(1%Z, mkRow (10000 # 100) 1 0 100);
                  (2%Z, mkRow (20000 # 100) 2 100 150)] 1
       = Some (2%Z, row)
       /\ avg_speed row
          = round2 (mean_speed (interval 100 200 boundary_lap)).
Proof.
  split; [reflexivity|].
  destruct (@average_over_left_open_interval
              boundary_lap [mkCorner 1 100; mkCorner 2 200])
    as [_ Hrows].
  - repeat constructor; simpl; unfold Qle; simpl; lia.
  - repeat constructor; simpl; intuition lia.
  - exact (Hrows _ eq_refl 1%nat (mkCorner 2 200) eq_refl).
Defined.

(** C8 as stated fails.  Ticks at 0, 100, 150 and 250 m with speeds 50,
    100, 200 and 300; corners 1 and 2 at 100 m and 200 m.  The code
    reports 100 for corner 1 and 200 for corner 2; the means over the
    intervals [[0, 100[ and [[100, 200[ of the claim are 50 and 150. *)
Lemma boundary_tick_in_earlier_corner :
  get_avg_speed_between_corners boundary_lap
                                [mkCorner 1 100; mkCorner 2 200]
  = Ok [(1%Z, mkRow (10000 # 100) 1 0 100);
        (2%Z, mkRow (20000 # 100) 2 100 150)]
  /\ round2 (mean_speed (half_open 0 100 boundary_lap)) = 5000 # 100
  /\ round2 (mean_speed (half_open 100 200 boundary_lap)) = 15000 # 100
  /\ ~ (10000 # 100 == 5000 # 100)
  /\ ~ (20000 # 100 == 15000 # 100).
Proof.
  repeat split; try reflexivity; intro H; discriminate H.
Qed.

End IntervalClaims.

(* ================================================================== *)
(** * How much telemetry the segmentation reads *)

Section ScanCost.

Import Corners CornerSpec.

Lemma inject_nat_le (a b : nat) :
  (a <= b)%nat -> inject_Z (Z.of_nat a) <= inject_Z (Z.of_nat b).
Proof. intro H. rewrite <- Zle_Qle. lia. Qed.

Lemma inject_nat_lt (a b : nat) :
  (a < b)%nat -> inject_Z (Z.of_nat a) < inject_Z (Z.of_nat b).
Proof. intro H. rewrite <- Zlt_Qlt. lia. Qed.

Lemma ticks_by_distance (len a : nat) :
  by_distance (map metre_tick (seq a len)).
Proof.
  revert a. induction len as [|len IH]; intro a; simpl; constructor.
  - apply IH.
  - apply Forall_forall. intros x Hx. apply in_map_iff in Hx.
    destruct Hx as [j [<- Hj]]. apply in_seq in Hj.
    unfold metre_tick; cbn [Distance]. apply inject_nat_le. lia.
Qed.

Lemma upto_ticks (len a i : nat) :
  (a <= S i)%nat ->
  upto (inject_Z (Z.of_nat i)) (map metre_tick (seq a len))
  = map metre_tick (seq a (Nat.min len (S i - a))).
Proof.
  revert a. induction len as [|len IH]; intros a Ha; [reflexivity|].
  destruct (le_lt_dec a i) as [Hle|Hlt].
  - replace (Nat.min (S len) (S i - a)) with (S (Nat.min len (S i - S a)))
      by lia.
    cbn [seq map upto].
    assert (E : Qgtb (Distance (metre_tick a)) (inject_Z (Z.of_nat i)) = false).
    { apply Qgtb_false. unfold metre_tick; cbn [Distance].
      apply inject_nat_le. exact Hle. }
    rewrite E. f_equal. apply IH. lia.
  - replace (Nat.min (S len) (S i - a)) with 0%nat by lia.
    cbn [seq map upto].
    assert (E : Qgtb (Distance (metre_tick a)) (inject_Z (Z.of_nat i)) = true).
    { apply Qgtb_true. unfold metre_tick; cbn [Distance].
      apply inject_nat_lt. exact Hlt. }
    rewrite E. reflexivity.
Qed.

Lemma passed_metre (n i : nat) :
  (i <= n)%nat -> passed (inject_Z (Z.of_nat i)) (metre_ticks n) = true.
Proof.
  intro Hi. unfold passed. apply existsb_exists.
  exists (metre_tick (S n)). split.
  - unfold metre_ticks. apply (in_map metre_tick). apply in_seq. lia.
  - apply Qgtb_true. unfold metre_tick; cbn [Distance].
    apply inject_nat_lt. lia.
Qed.

Lemma scan_length_metre (n i : nat) :
  (i <= n)%nat ->
  scan_length (inject_Z (Z.of_nat i)) (metre_ticks n) = S i.
Proof.
  intro Hi. unfold scan_length. rewrite passed_metre by exact Hi.
  unfold metre_ticks. rewrite upto_ticks by lia.
  rewrite length_map, length_seq. lia.
Qed.

Lemma total_scan_length_metre (n : nat) :
  total_scan_length (metre_ticks n) (metre_corners n)
  = list_sum (map S (seq 1 n)).
Proof.
  unfold total_scan_length, metre_corners. rewrite map_map.
  f_equal. apply map_ext_in. intros i Hi. apply in_seq in Hi.
  simpl. apply scan_length_metre. lia.
Qed.

Lemma sum_succ_seq (n : nat) :
  (2 * list_sum (map S (seq 1 n)) = n * (n + 3))%nat.
Proof.
  induction n as [|n IH]; [reflexivity|].
  rewrite seq_S, map_app, list_sum_app. simpl list_sum. lia.
Qed.

Lemma metre_intervals (n len a : nat) :
  (a + len <= n)%nat ->
  intervals_inhabited (metre_ticks n) (inject_Z (Z.of_nat a))
                      (map metre_corner (seq (S a) len)).
Proof.
  revert a. induction len as [|len IH]; intros a Ha; [exact I|].
  cbn [seq map intervals_inhabited].
  change (CDistance (metre_corner (S a))) with (inject_Z (Z.of_nat (S a))).
  split.
  - assert (Hin : In (metre_tick (S a))
                     (interval (inject_Z (Z.of_nat a))
                               (inject_Z (Z.of_nat (S a))) (metre_ticks n))).
    { apply interval_In. split.
      - unfold metre_ticks. apply (in_map metre_tick). apply in_seq. lia.
      - unfold metre_tick; cbn [Distance]. split.
        + apply inject_nat_lt. lia.
        + apply Qle_refl. }
    intro He. rewrite He in Hin. exact Hin.
  - apply IH. lia.
Qed.

Lemma rows_inspected_metre (n : nat) :
  rows_inspected (metre_ticks n) (metre_corners n)
  = Some (list_sum (map S (seq 1 n))).
Proof.
  assert (Hall : passed_corners (metre_ticks n) (metre_corners n)
                 = metre_corners n).
  { apply passed_corners_all. apply Forall_forall. intros c Hc.
    unfold metre_corners in Hc.
    apply in_map_iff in Hc. destruct Hc as [i [<- Hi]].
    apply in_seq in Hi. simpl. apply passed_metre. lia. }
  destruct (@corners_loop_returns (metre_ticks n) (ticks_by_distance _ _)
                                  (metre_corners n) init 0)
    as [st' [Hrun _]].
  - apply settled_init.
  - rewrite Hall. apply (@metre_intervals n n 0%nat). lia.
  - rewrite Hall. simpl. unfold metre_corners. rewrite map_map. simpl.
    apply Finite.Injective_map_NoDup.
    + intros x y Hxy. lia.
    + apply seq_NoDup.
  - unfold rows_inspected. rewrite Hrun.
    rewrite (@corners_loop_inspected _ _ _ _ Hrun).
    rewrite total_scan_length_metre. reflexivity.
Qed.

(** C9, as the code has it.  For every corner the scan starts again at the
    first telemetry row and reads up to and including the first row beyond
    the corner: a run that returns has read that many rows for each
    corner, in total at most corners times samples. *)
Theorem telemetry_rescanned_per_corner
        (telemetry : list Tick) (corners : list Corner) (n : nat) :
  rows_inspected telemetry corners = Some n ->
  n = total_scan_length telemetry corners
  /\ (n <= List.length corners * List.length telemetry)%nat.
Proof.
  unfold rows_inspected. intro H.
  destruct (corners_loop telemetry corners init) as [st|] eqn:Hrun;
    [|discriminate].
  injection H as <-.
  rewrite (@corners_loop_inspected telemetry corners init st Hrun). simpl.
  split; [reflexivity|]. apply total_scan_length_le.
Qed.

(** C9 at an input: 4 ticks and 3 corners, 2 + 3 + 4 rows read. *)
Lemma telemetry_rescanned_per_corner_witness :
  total_scan_length
    short_lap [mkCorner 1 15; mkCorner 2 25; mkCorner 3 35] = 9%nat.
Proof.
  destruct (@telemetry_rescanned_per_corner
              short_lap [mkCorner 1 15; mkCorner 2 25; mkCorner 3 35]
              9%nat eq_refl) as [H _].
  symmetry. exact H.
Defined.

(** C9 as stated fails.  On 4 ticks and 3 corners the code reads 9
    telemetry rows, more than 4 + 3; and no multiple of samples + corners
    bounds the rows read: a lap of [n + 1] ticks one metre apart with a
    corner at each of the first [n] ticks costs [n (n + 3) / 2]. *)
Lemma scan_is_not_linear :
  rows_inspected short_lap [mkCorner 1 15; mkCorner 2 25; mkCorner 3 35]
  = Some 9%nat
  /\ ~ exists k : nat,
       forall telemetry corners n,
         rows_inspected telemetry corners = Some n ->
         (n <= k * (List.length telemetry + List.length corners))%nat.
Proof.
  split; [reflexivity|].
  intros [k Hk].
  pose proof (Hk _ _ _ (rows_inspected_metre (4 * k + 1))) as H.
  unfold metre_ticks, metre_corners in H.
  rewrite !length_map, !length_seq in H.
  pose proof (sum_succ_seq (4 * k + 1)) as Hs.
  nia.
Qed.

End ScanCost.

(* ================================================================== *)
(** * Comparative analytics: the claims *)

Section CompareClaims.

Import Corners Compare CompareSpec.

Lemma loc_has_label (k : Z) (df : Frame) :
  has_label k df = match loc k df with Some _ => true | None => false end.
Proof.
  unfold has_label, loc.
  induction df as [|[k' r] df IH]; simpl; [reflexivity|].
  destruct (k' =? k)%Z; simpl; [reflexivity|exact IH].
Qed.

Lemma concat_index_mem (df1 df2 : Frame) (k : Z) :
  existsb (Z.eqb k) (concat_index df1 df2)
  = has_label k df1 || has_label k df2.
Proof.
  unfold concat_index. rewrite existsb_app.
  assert (H1 : existsb (Z.eqb k) (map fst df1) = has_label k df1).
  { unfold has_label. induction df1 as [|[k' r] df1 IH]; simpl;
      [reflexivity|].
    rewrite IH. rewrite (Z.eqb_sym k k'). reflexivity. }
  rewrite H1.
  destruct (has_label k df1) eqn:E1; [reflexivity|]. simpl.
  induction df2 as [|[k' r] df2 IH]; simpl; [reflexivity|].
  destruct (Z.eqb_spec k' k) as [->|Hne].
  - rewrite E1. simpl. rewrite Z.eqb_refl. reflexivity.
  - destruct (has_label k' df1); simpl; [exact IH|].
    rewrite IH. destruct (Z.eqb_spec k k'); [congruence|reflexivity].
Qed.

Lemma has_label_In (k : Z) (df : Frame) :
  has_label k df = true <-> In k (map fst df).
Proof.
  unfold has_label. rewrite existsb_exists, in_map_iff. split.
  - intros [kr [Hin He]]. apply Z.eqb_eq in He. exists kr. auto.
  - intros [kr [He Hin]]. exists kr. split; [exact Hin|].
    apply Z.eqb_eq. exact He.
Qed.

Lemma loc_set_labels_In (k x : Z) (r : Row) (df : Frame) :
  In x (map fst (loc_set k r df)) -> x = k \/ In x (map fst df).
Proof.
  induction df as [|[k' r'] df IH]; simpl.
  - intros [<-|[]]. left. reflexivity.
  - destruct (Z.eqb_spec k k') as [->|Hne]; simpl.
    + intros [<-|H]; [left; reflexivity|right; right; exact H].
    + intros [<-|H]; [right; left; reflexivity|].
      destruct (IH H) as [->|H']; [left; reflexivity|right; right; exact H'].
Qed.

Lemma loc_set_NoDup (k : Z) (r : Row) (df : Frame) :
  NoDup (map fst df) -> NoDup (map fst (loc_set k r df)).
Proof.
  induction df as [|[k' r'] df IH]; simpl; intro Hnd.
  - repeat constructor. intros [].
  - inversion Hnd as [|? ? Hnotin Hnd']; subst.
    destruct (Z.eqb_spec k k') as [->|Hne]; simpl.
    + constructor; assumption.
    + constructor; [|exact (IH Hnd')].
      intro Hin. destruct (@loc_set_labels_In k k' r df Hin) as [->|H];
        [congruence|contradiction].
Qed.

Lemma corners_loop_NoDup (telemetry : list Tick) (corners : list Corner) :
  forall st st',
    NoDup (map fst (df st)) ->
    corners_loop telemetry corners st = Ok st' ->
    NoDup (map fst (df st')).
Proof.
  induction corners as [|c cs IH]; intros st st' Hnd Hrun; simpl in Hrun.
  - injection Hrun as <-. exact Hnd.
  - destruct (corner_step telemetry st c) as [st1|] eqn:Hstep;
      simpl in Hrun; [|discriminate].
    apply (IH st1 st'); [|exact Hrun].
    unfold corner_step in Hstep.
    destruct (how _); [destruct (ticks _); [discriminate|]|];
      injection Hstep as <-; cbn [df];
      [apply loc_set_NoDup|]; exact Hnd.
Qed.

(** The frame of a driver has one row per label. *)
Lemma frame_NoDup (telemetry : list Tick) (corners : list Corner)
      (out : Frame) :
  get_avg_speed_between_corners telemetry corners = Ok out ->
  NoDup (map fst out).
Proof.
  unfold get_avg_speed_between_corners. intro H.
  destruct (corners_loop telemetry corners init) as [st|] eqn:Hrun;
    simpl in H; [|discriminate].
  injection H as <-.
  apply (@corners_loop_NoDup telemetry corners init st); [constructor|].
  exact Hrun.
Qed.

Lemma concat_index_NoDup (df1 df2 : Frame) :
  NoDup (map fst df1) -> NoDup (map fst df2) ->
  NoDup (concat_index df1 df2).
Proof.
  intros H1 H2. unfold concat_index.
  assert (Hsub : forall (l : Frame),
             NoDup (map fst l) ->
             NoDup (map fst (filter (fun kr => negb (has_label (fst kr) df1))
                                    l))).
  { induction l as [|kr l IH]; simpl; intro Hnd; [constructor|].
    inversion Hnd as [|? ? Hnotin Hnd']; subst.
    destruct (negb (has_label (fst kr) df1)); [|exact (IH Hnd')].
    simpl. constructor; [|exact (IH Hnd')].
    intro Hin. apply Hnotin. apply in_map_iff in Hin.
    destruct Hin as [x [Hx Hin]]. apply filter_In in Hin.
    rewrite <- Hx. apply in_map. tauto. }
  apply NoDup_app; [exact H1|exact (Hsub df2 H2)|].
  intros k Hk1 Hk2. apply in_map_iff in Hk2.
  destruct Hk2 as [kr [<- Hkr]]. apply filter_In in Hkr.
  destruct Hkr as [_ Hneg]. apply negb_true_iff in Hneg.
  apply has_label_In in Hk1. congruence.
Qed.

Lemma diff_frames_labels (df1 df2 : Frame) :
  map fst (diff_frames df1 df2) = concat_index df1 df2.
Proof.
  unfold diff_frames. rewrite map_map. simpl. apply map_id.
Qed.

Lemma find_join_row (df1 df2 : Frame) (k : Z) (index : list Z) :
  find (fun kr => (fst kr =? k)%Z) (map (join_row df1 df2) index)
  = if existsb (Z.eqb k) index then Some (join_row df1 df2 k) else None.
Proof.
  induction index as [|k' index IH]; simpl; [reflexivity|].
  destruct (Z.eqb_spec k' k) as [->|Hne].
  - rewrite Z.eqb_refl. reflexivity.
  - destruct (Z.eqb_spec k k'); [congruence|]. exact IH.
Qed.

(** The [speed_diff] column of the joined frame, label by label. *)
Lemma diff_frames_at (df1 df2 : Frame) (k : Z) :
  speed_diff_at k (diff_frames df1 df2) = outer_diff df1 df2 k.
Proof.
  unfold speed_diff_at, diff_frames, outer_diff.
  rewrite find_join_row, concat_index_mem, !loc_has_label.
  unfold join_row.
  destruct (loc k df1), (loc k df2); reflexivity.
Qed.

(** C3, as the code has it.  The two per-corner frames are joined on the
    corner label as an outer join: the result has exactly one row for every
    label one of the two frames has; its [speed_diff] is the first driver's
    average minus the second's where both frames have the label, and NaN
    where one of them lacks it. *)
Theorem speed_diff_is_outer_join
        (session : Session) (driver_abbr1 driver_abbr2 : string)
        (out : list (Z * Joined)) :
  get_avg_speed_diff_drivers session driver_abbr1 driver_abbr2 = Ok out ->
  exists df1 df2,
    get_avg_speed_between_corners
      (fastest_lap_telemetry session driver_abbr1)
      (circuit_corners session) = Ok df1
    /\ get_avg_speed_between_corners
         (fastest_lap_telemetry session driver_abbr2)
         (circuit_corners session) = Ok df2
    /\ NoDup (map fst out)
    /\ forall k, speed_diff_at k out = outer_diff df1 df2 k.
Proof.
  unfold get_avg_speed_diff_drivers. intro H.
  destruct (get_avg_speed_between_corners
              (fastest_lap_telemetry session driver_abbr1) _)
    as [df1|] eqn:E1; simpl in H; [|discriminate].
  destruct (get_avg_speed_between_corners
              (fastest_lap_telemetry session driver_abbr2) _)
    as [df2|] eqn:E2; simpl in H; [|discriminate].
  destruct (String.eqb driver_abbr1 driver_abbr2); [discriminate|].
  injection H as <-.
  exists df1, df2. split; [reflexivity|]. split; [reflexivity|]. split.
  - rewrite diff_frames_labels.
    apply concat_index_NoDup; eapply frame_NoDup; eassumption.
  - apply diff_frames_at.
Qed.

(** C3 as stated fails.  HAM's telemetry ends before corner 2, so only
    VER's frame has a row for corner 2; the joined frame keeps the row for
    corner 2, with NaN as HAM's average and as [speed_diff]. *)
Lemma one_sided_corner_is_kept :
  get_avg_speed_diff_drivers short_telemetry_session "VER" "HAM"
  = Ok [(1%Z, mkJoined (Some (20000 # 100)) (Some 1%Z) (Some 0) (Some 50)
                       (Some (19000 # 100)) (Some 0) (Some 50)
                       (Some ((20000 # 100) - (19000 # 100))));
        (2%Z, mkJoined (Some (21000 # 100)) (Some 2%Z) (Some 50) (Some 150)
                       None None None None)].
Proof. reflexivity. Qed.

(** C3 at an input: the session above. *)
Lemma speed_diff_is_outer_join_witness :
  exists df1 df2,
    get_avg_speed_between_corners
      (fastest_lap_telemetry short_telemetry_session "VER")
      (circuit_corners short_telemetry_session) = Ok df1
    /\ get_avg_speed_between_corners
         (fastest_lap_telemetry short_telemetry_session "HAM")
         (circuit_corners short_telemetry_session) = Ok df2
    /\ NoDup (map fst short_telemetry_diff)
    /\ forall k,
         speed_diff_at k short_telemetry_diff = outer_diff df1 df2 k.
Proof.
  exact (@speed_diff_is_outer_join short_telemetry_session "VER" "HAM"
           short_telemetry_diff eq_refl).
Defined.

Lemma outer_diff_negated (df1 df2 : Frame) (k : Z) :
  negated (outer_diff df1 df2 k) (outer_diff df2 df1 k).
Proof.
  unfold outer_diff, negated.
  destruct (loc k df1), (loc k df2); try exact I. ring.
Qed.

(** C4.  When the comparison of A with B returns, so does the comparison
    of B with A, and at every corner label the [speed_diff] of the one is
    the negation of the [speed_diff] of the other: rows exist for the same
    labels, NaN faces NaN, and a number [x] faces [- x]. *)
Theorem speed_diff_antisymmetric
        (session : Session) (A B : string) (ab : list (Z * Joined)) :
  get_avg_speed_diff_drivers session A B = Ok ab ->
  exists ba,
    get_avg_speed_diff_drivers session B A = Ok ba
    /\ forall k, negated (speed_diff_at k ab) (speed_diff_at k ba).
Proof.
  unfold get_avg_speed_diff_drivers. intro H.
  destruct (get_avg_speed_between_corners
              (fastest_lap_telemetry session A) _)
    as [df1|] eqn:E1; simpl in H; [|discriminate].
  destruct (get_avg_speed_between_corners
              (fastest_lap_telemetry session B) _)
    as [df2|] eqn:E2; simpl in H; [|discriminate].
  rewrite (String.eqb_sym B A).
  destruct (String.eqb A B); [discriminate|].
  injection H as <-. simpl.
  exists (diff_frames df2 df1). split; [reflexivity|].
  intro k. rewrite !diff_frames_at. apply outer_diff_negated.
Qed.

(** C4 at an input: VER against HAM and HAM against VER. *)
Lemma speed_diff_antisymmetric_witness :
  exists ba,
    get_avg_speed_diff_drivers short_telemetry_session "HAM" "VER" = Ok ba
    /\ forall k,
         negated
           (speed_diff_at k
              (diff_frames
                 [(1%Z, mkRow (20000 # 100) 1 0 50);
                  (2%Z, mkRow (21000 # 100) 2 50 150)]
                 [(1%Z, mkRow (19000 # 100) 1 0 50)]))
           (speed_diff_at k ba).
Proof.
  exact (@speed_diff_antisymmetric short_telemetry_session "VER" "HAM"
           _ eq_refl).
Defined.

End CompareClaims.

(* ================================================================== *)
(** * Lap times as datetimes: the claim *)

Section LapTimeClaims.

Import LapTime LapTimeSpec.
Local Open Scope Z_scope.

Lemma nat_of_digit (n : Z) :
  0 <= n < 10 -> nat_of_ascii (digit n) = (48 + Z.to_nat n)%nat.
Proof.
  intro H. unfold digit. apply nat_ascii_embedding. lia.
Qed.

Lemma is_digit_digit (n : Z) : 0 <= n < 10 -> is_digit (digit n) = true.
Proof.
  intro H. unfold is_digit. rewrite nat_of_digit by exact H.
  apply andb_true_iff. split; apply Nat.leb_le; lia.
Qed.

Lemma digit_value_digit (n : Z) : 0 <= n < 10 -> digit_value (digit n) = n.
Proof.
  intro H. unfold digit_value. rewrite nat_of_digit by exact H. lia.
Qed.

Lemma zfill_2 (n : Z) :
  zfill 2 n
  = String (digit (n / 10 mod 10)) (String (digit (n mod 10)) "").
Proof. reflexivity. Qed.

Lemma zfill_6 (n : Z) :
  zfill 6 n
  = String (digit (n / 10 / 10 / 10 / 10 / 10 mod 10))
      (String (digit (n / 10 / 10 / 10 / 10 mod 10))
         (String (digit (n / 10 / 10 / 10 mod 10))
            (String (digit (n / 10 / 10 mod 10))
               (String (digit (n / 10 mod 10))
                  (String (digit (n mod 10)) ""))))).
Proof. reflexivity. Qed.

Lemma drop_last3_shape (a b c d e f g h i j : ascii) :
  drop_last3
    (String a (String b (String ":" (String c (String d (String "."
       (String e (String f (String g (String h (String i
          (String j ""))))))))))))
  = String a (String b (String ":" (String c (String d (String "."
       (String e (String f (String g ""))))))))%string.
Proof. reflexivity. Qed.

Lemma read_two (a b : Z) (rest : string) :
  0 <= a < 10 -> 0 <= b < 10 ->
  read_digits 2 0 0 (String (digit a) (String (digit b) rest))
  = (10 * a + b, 2%nat, rest).
Proof.
  intros Ha Hb. cbn [read_digits].
  rewrite !is_digit_digit, !digit_value_digit by assumption.
  match goal with
  | |- (?x, _, _) = (?y, _, _) => replace x with y by lia
  end.
  reflexivity.
Qed.

Lemma read_three (a b c : Z) :
  0 <= a < 10 -> 0 <= b < 10 -> 0 <= c < 10 ->
  read_digits 6 0 0 (String (digit a) (String (digit b)
                                         (String (digit c) "")))
  = (100 * a + 10 * b + c, 3%nat, ""%string).
Proof.
  intros Ha Hb Hc. cbn [read_digits].
  rewrite !is_digit_digit, !digit_value_digit by assumption.
  match goal with
  | |- (?x, _, _) = (?y, _, _) => replace x with y by lia
  end.
  reflexivity.
Qed.

Lemma strptime_shape (a1 a2 b1 b2 c1 c2 c3 : Z) :
  0 <= a1 < 10 -> 0 <= a2 < 10 -> 0 <= b1 < 10 -> 0 <= b2 < 10 ->
  0 <= c1 < 10 -> 0 <= c2 < 10 -> 0 <= c3 < 10 ->
  10 * a1 + a2 <= 59 -> 10 * b1 + b2 <= 59 ->
  strptime_MSf
    (String (digit a1) (String (digit a2) (String ":"
       (String (digit b1) (String (digit b2) (String "."
          (String (digit c1) (String (digit c2)
             (String (digit c3) "")))))))))
  = Ok (mkDatetime 1900 1 1 0 (10 * a1 + a2) (10 * b1 + b2)
                   ((100 * c1 + 10 * c2 + c3) * 1000)).
Proof.
  intros Ha1 Ha2 Hb1 Hb2 Hc1 Hc2 Hc3 Hm Hs.
  unfold strptime_MSf.
  rewrite read_two by assumption. cbn [expect Ascii.eqb Bool.eqb].
  rewrite read_two by assumption. cbn [expect Ascii.eqb Bool.eqb].
  rewrite read_three by assumption.
  apply Z.leb_le in Hm. apply Z.leb_le in Hs. rewrite Hm, Hs.
  reflexivity.
Qed.

Lemma fields_in_range (t : Timedelta) :
  0 <= minute_of t < 60 /\ 0 <= second_of t < 60
  /\ 0 <= microsecond_of t < 1000000.
Proof.
  unfold minute_of, second_of, microsecond_of, us_per_second.
  repeat split; try apply Z.mod_pos_bound; lia.
Qed.

Lemma convert_one_kept (t : Timedelta) : convert_one t = Ok (kept t).
Proof.
  destruct (fields_in_range t) as [Hm [Hs Hu]].
  unfold convert_one, strftime_MSf, kept.
  rewrite !zfill_2, zfill_6.
  set (m := minute_of t) in *. set (s := second_of t) in *.
  set (u := microsecond_of t) in *.
  cbn [append]. rewrite drop_last3_shape.
  rewrite strptime_shape.
  - f_equal. unfold us_per_ms. f_equal.
    + clearbody m. Z.div_mod_to_equations. lia.
    + clearbody s. Z.div_mod_to_equations. lia.
    + clearbody u. Z.div_mod_to_equations. lia.
  - apply Z.mod_pos_bound; lia.
  - apply Z.mod_pos_bound; lia.
  - apply Z.mod_pos_bound; lia.
  - apply Z.mod_pos_bound; lia.
  - apply Z.mod_pos_bound; lia.
  - apply Z.mod_pos_bound; lia.
  - apply Z.mod_pos_bound; lia.
  - clearbody m. Z.div_mod_to_equations. lia.
  - clearbody s. Z.div_mod_to_equations. lia.
Qed.

Lemma kept_arith (t : Timedelta) :
  0 <= us_of_day (kept t) < us_per_hour
  /\ us_of_day (kept t) = t mod ns_per_hour / ns_per_ms * us_per_ms
  /\ t / ns_per_ms
     = t / ns_per_hour * ms_per_hour + us_of_day (kept t) / us_per_ms.
Proof.
  unfold us_of_day, kept, minute_of, second_of, microsecond_of.
  cbn [hour minute second microsecond].
  unfold ns_per_ms, ms_per_hour, ns_per_hour, us_per_hour, us_per_minute,
    us_per_second, us_per_ms, ns_per_us.
  Z.div_mod_to_equations. lia.
Qed.

Lemma millis_of_micros (x : Z) :
  x mod 1000000 / 1000 * 1000 = x / 1000 mod 1000 * 1000.
Proof. Z.div_mod_to_equations. lia. Qed.

Lemma whole_ms_exact (t : Z) :
  t mod 1000000 = 0 ->
  t mod 3600000000000 / 1000000 * 1000 * 1000 = t mod 3600000000000.
Proof. intro H. Z.div_mod_to_equations. lia. Qed.

(** C10.  Every lap time of the series is converted, without error, to
    the datetime 1900-01-01 00:MM:SS.mmm000 of its minutes, seconds and
    milliseconds.  Counted from midnight this is the lap time reduced
    modulo one hour (cut to whole milliseconds, and exactly the lap time
    modulo one hour when it is a whole number of milliseconds): the lap
    time in milliseconds is its whole hours plus the result, so the hours
    of a lap of one hour or more are lost. *)
Theorem lap_time_reduced_modulo_one_hour (data : list Timedelta) :
  convert_timedelta_to_datetime data = Ok (map kept data)
  /\ forall t,
       hour (kept t) = 0
       /\ minute (kept t) = t / 60000000000 mod 60
       /\ second (kept t) = t / 1000000000 mod 60
       /\ microsecond (kept t) = t / 1000000 mod 1000 * 1000
       /\ 0 <= us_of_day (kept t) < us_per_hour
       /\ us_of_day (kept t) = t mod ns_per_hour / ns_per_ms * us_per_ms
       /\ t / ns_per_ms
          = t / ns_per_hour * ms_per_hour + us_of_day (kept t) / us_per_ms
       /\ (t mod ns_per_ms = 0 ->
           us_of_day (kept t) * ns_per_us = t mod ns_per_hour).
Proof.
  split.
  - induction data as [|t rest IH]; [reflexivity|].
    cbn [convert_timedelta_to_datetime map].
    rewrite convert_one_kept, IH. reflexivity.
  - intro t. destruct (kept_arith t) as [Hr [Hm Hh]].
    split; [reflexivity|].
    split.
    { cbn [kept minute]. unfold minute_of, us_per_minute, us_per_second,
        ns_per_us. rewrite Z.div_div by lia. reflexivity. }
    split.
    { cbn [kept second]. unfold second_of, us_per_second, ns_per_us.
      rewrite Z.div_div by lia. reflexivity. }
    split.
    { cbn [kept microsecond]. unfold microsecond_of, us_per_second,
        us_per_ms, ns_per_us.
      replace (t / 1000000) with (t / 1000 / 1000)
        by (rewrite Z.div_div by lia; reflexivity).
      apply millis_of_micros. }
    split; [exact Hr|]. split; [exact Hm|]. split; [exact Hh|].
    intro Hz. rewrite Hm. apply whole_ms_exact. exact Hz.
Qed.

(** C10 at an input: a lap of 1 h 01 min 23.456 s becomes 01:23.456. *)
Lemma lap_time_reduced_modulo_one_hour_witness :
  convert_timedelta_to_datetime [long_lap]
  = Ok [mkDatetime 1900 1 1 0 1 23 456000]
  /\ us_of_day (kept long_lap) * ns_per_us = long_lap mod ns_per_hour.
Proof.
  destruct (lap_time_reduced_modulo_one_hour [long_lap]) as [Hrun Hall].
  split; [exact Hrun|].
  destruct (Hall long_lap) as [_ [_ [_ [_ [_ [_ [_ Hexact]]]]]]].
  apply Hexact. reflexivity.
Defined.

End LapTimeClaims.

(* ================================================================== *)
(** * Historical aggregation: the claim *)

Section HistoryClaims.

Import History.

Variable get_iso_code : string -> option string.
Variable team_color : string -> option string.

Lemma reversed_range_empty (A : Type) (year_of : A -> Z) (rows : list A)
      (start_year end_year : Z) :
  (end_year < start_year)%Z ->
  filter (fun r => in_years start_year end_year (year_of r)) rows = [].
Proof.
  intro H. induction rows as [|r rows IH]; simpl; [reflexivity|].
  unfold in_years at 1.
  destruct (Z.leb_spec start_year (year_of r));
    destruct (Z.leb_spec (year_of r) end_year); simpl; try exact IH.
  lia.
Qed.

(** No row of the calendar in the range: the [ISO] column is never
    created and [dropna] raises. *)
Lemma country_counts_empty_range
      (schedule : list ScheduleRow) (start_year end_year : Z) :
  filter (fun r => in_years start_year end_year (date_year (EventDate r)))
         schedule = [] ->
  get_country_counts_ISO get_iso_code schedule start_year end_year
  = Raise (KeyError "ISO").
Proof.
  intro H. unfold get_country_counts_ISO. rewrite H. reflexivity.
Qed.

(** No winner in the range: the [team_wins] frame is empty and has no
    [Color] column, and reading that column for the bars raises. *)
Lemma team_wins_empty_range
      (race_winners : list WinnerRow) (start_year end_year : Z) :
  filter (fun r => in_years start_year end_year (Season r)) race_winners
  = [] ->
  team_wins_frame team_color race_winners start_year end_year = ([], None)
  /\ plot_race_wins_per_team team_color race_winners start_year end_year
     = Raise (KeyError "Color").
Proof.
  intro H. unfold plot_race_wins_per_team, team_wins_frame.
  rewrite H. split; reflexivity.
Qed.

(** C7 (defect of the code).  With the start year 2024 and the end year
    1980, both offered by the dashboard, no row of any snapshot is in the
    range: [get_country_counts_ISO] raises [KeyError] on the missing [ISO]
    column, and [plot_race_wins_per_team], whose team-win frame is empty,
    raises [KeyError] on the missing [Color] column, where the
    specification asks for an empty result and no error. *)
Theorem empty_year_range_raises
        (schedule : list ScheduleRow) (race_winners : list WinnerRow) :
  get_country_counts_ISO get_iso_code schedule 2024 1980
  = Raise (KeyError "ISO")
  /\ fst (team_wins_frame team_color race_winners 2024 1980) = []
  /\ plot_race_wins_per_team team_color race_winners 2024 1980
     = Raise (KeyError "Color").
Proof.
  split.
  - apply country_counts_empty_range. apply reversed_range_empty. lia.
  - destruct (@team_wins_empty_range race_winners 2024 1980) as [Hf Hp].
    + apply reversed_range_empty. lia.
    + rewrite Hf. split; [reflexivity|exact Hp].
Qed.

End HistoryClaims.

(* ================================================================== *)
(** * Strategy reconstruction: stints and stops *)

Section Stints.

Import Strategy StrategySpec.
Local Open Scope Z_scope.

Lemma key_compare_eq (a b : key) : key_compare a b = Eq -> a = b.
Proof.
  destruct a as [[d1 s1] c1], b as [[d2 s2] c2]. simpl.
  destruct (String.compare d1 d2) eqn:Ed; try discriminate.
  destruct (s1 ?= s2) eqn:Es; try discriminate.
  intro Ec.
  apply String.compare_eq_iff in Ed, Ec. apply Z.compare_eq in Es.
  congruence.
Qed.

Lemma insert_key_In (k x : key) (ks : list key) :
  In x (insert_key k ks) <-> x = k \/ In x ks.
Proof.
  induction ks as [|h t IH]; simpl.
  - intuition congruence.
  - destruct (key_compare k h) eqn:E; simpl.
    + apply key_compare_eq in E. subst h. intuition congruence.
    + intuition congruence.
    + rewrite IH. intuition congruence.
Qed.

Lemma group_keys_In (x : key) (ks : list key) :
  In x (group_keys ks) <-> In x ks.
Proof.
  induction ks as [|k ks IH]; simpl; [tauto|].
  rewrite insert_key_In, IH. intuition congruence.
Qed.

Lemma stints_of_In (r : StintRow) (ls : list Lap) :
  In r (stints_of ls) ->
  In (st_Driver r, st_Stint r, st_Compound r) (valid_keys ls).
Proof.
  unfold stints_of. intro H. apply in_map_iff in H.
  destruct H as [[[d s] c] [<- Hk]]. simpl.
  exact (proj1 (group_keys_In _ _) Hk).
Qed.

Lemma stints_of_complete (d : string) (s : Z) (c : string) (ls : list Lap) :
  In (d, s, c) (valid_keys ls) ->
  exists r, In r (stints_of ls)
            /\ st_Driver r = d /\ st_Stint r = s /\ st_Compound r = c.
Proof.
  intro H. apply (proj2 (group_keys_In _ _)) in H. unfold stints_of.
  eexists. split.
  - apply in_map_iff. exists (d, s, c). split; [reflexivity|exact H].
  - simpl. auto.
Qed.

Lemma observed_stints_In (d : string) (s : Z) (ls : list Lap) :
  In s (observed_stints d ls) <-> exists c, In (d, s, c) (valid_keys ls).
Proof.
  unfold observed_stints, valid_keys. rewrite in_flat_map. split.
  - intros [l [Hl Hs]]. destruct (key_of l) as [[[d' s'] c]|] eqn:Ek;
      [|contradiction].
    destruct (String.eqb_spec d' d) as [->|]; [|contradiction].
    destruct Hs as [<-|[]]. exists c. apply in_flat_map.
    exists l. split; [exact Hl|]. rewrite Ek. left. reflexivity.
  - intros [c Hc]. apply in_flat_map in Hc. destruct Hc as [l [Hl Hk]].
    exists l. split; [exact Hl|].
    destruct (key_of l) as [k|]; [|contradiction].
    destruct Hk as [->|[]]. rewrite String.eqb_refl. left. reflexivity.
Qed.

Lemma of_driver_In (d : string) (r : StintRow) (df : list StintRow) :
  In r (of_driver d df) <-> In r df /\ st_Driver r = d.
Proof.
  unfold of_driver. rewrite filter_In, String.eqb_eq. tauto.
Qed.

Lemma driver_stints_In (r : StintRow) (session : Session) :
  In r (driver_stints session)
  <-> In (st_Driver r) (drivers session) /\ In r (stints_of (laps session)).
Proof.
  unfold driver_stints. rewrite in_flat_map. split.
  - intros [d [Hd Hr]]. apply of_driver_In in Hr. destruct Hr as [Hr <-].
    auto.
  - intros [Hd Hr]. exists (st_Driver r). split; [exact Hd|].
    apply of_driver_In. auto.
Qed.

(** The stints of the rows of a listed driver are the observed ones. *)
Lemma driver_rows_stints (d : string) (s : Z) (session : Session) :
  In d (drivers session) ->
  In s (map st_Stint (of_driver d (driver_stints session)))
  <-> In s (observed_stints d (laps session)).
Proof.
  intro Hd. rewrite in_map_iff, observed_stints_In. split.
  - intros [r [<- Hr]]. apply of_driver_In in Hr. destruct Hr as [Hr <-].
    apply driver_stints_In in Hr. destruct Hr as [_ Hr].
    exists (st_Compound r). apply stints_of_In. exact Hr.
  - intros [c Hc]. destruct (stints_of_complete _ _ _ _ Hc)
      as [r [Hr [H1 [H2 _]]]].
    exists r. split; [exact H2|]. apply of_driver_In. split; [|exact H1].
    apply driver_stints_In. rewrite H1. auto.
Qed.

Lemma max_fold_upper (x : Z) (l : list Z) :
  x <= fold_right Z.max x l
  /\ forall y, In y l -> y <= fold_right Z.max x l.
Proof.
  induction l as [|a l [IHx IHl]]; simpl.
  - split; [lia|contradiction].
  - split; [lia|]. intros y [<-|Hy]; [lia|]. specialize (IHl y Hy). lia.
Qed.

Lemma max_fold_attained (x : Z) (l : list Z) :
  fold_right Z.max x l = x \/ In (fold_right Z.max x l) l.
Proof.
  induction l as [|a l IH]; simpl; [left; reflexivity|].
  destruct (Z.max_spec a (fold_right Z.max x l)) as [[_ ->]|[_ ->]].
  - destruct IH as [IH|IH]; [left; exact IH|right; right; exact IH].
  - right. left. reflexivity.
Qed.

Lemma strategy_row_stops (df : list StintRow) (row : StintRow) :
  In row df ->
  let stints := map st_Stint (of_driver (st_Driver row) df) in
  sr_Driver (strategy_row df row) = st_Driver row
  /\ In (Stops (strategy_row df row) + 1) stints
  /\ forall s, In s stints -> s <= Stops (strategy_row df row) + 1.
Proof.
  intros Hrow stints. unfold strategy_row. cbn [sr_Driver Stops].
  unfold stint_max. fold stints.
  replace (fold_right Z.max (st_Stint row) stints - 1 + 1)
    with (fold_right Z.max (st_Stint row) stints) by lia.
  assert (Hin : In (st_Stint row) stints).
  { unfold stints. apply in_map. apply of_driver_In. auto. }
  split; [reflexivity|]. split.
  - destruct (max_fold_attained (st_Stint row) stints) as [->| H];
      assumption.
  - apply max_fold_upper.
Qed.

Lemma drop_duplicates_In (r : StrategyRow) (rows : list StrategyRow) :
  forall seen, In r (drop_duplicates seen rows) -> In r rows.
Proof.
  induction rows as [|x rows IH]; intros seen H; simpl in H; [contradiction|].
  destruct (existsb (String.eqb (sr_Driver x)) seen).
  - right. exact (IH _ H).
  - destruct H as [<-|H]; [left; reflexivity|right; exact (IH _ H)].
Qed.

Lemma drop_duplicates_unseen (r : StrategyRow) (rows : list StrategyRow) :
  forall seen, In r (drop_duplicates seen rows) -> ~ In (sr_Driver r) seen.
Proof.
  induction rows as [|x rows IH]; intros seen H; simpl in H; [contradiction|].
  destruct (existsb (String.eqb (sr_Driver x)) seen) eqn:E.
  - exact (IH _ H).
  - destruct H as [<-|H].
    + intro Hin. assert (Ht : existsb (String.eqb (sr_Driver x)) seen = true).
      { apply existsb_exists. exists (sr_Driver x).
        split; [exact Hin|apply String.eqb_refl]. }
      congruence.
    + intro Hin. apply (IH _ H). right. exact Hin.
Qed.

Lemma drop_duplicates_NoDup (rows : list StrategyRow) :
  forall seen, NoDup (map sr_Driver (drop_duplicates seen rows)).
Proof.
  induction rows as [|x rows IH]; intro seen; simpl; [constructor|].
  destruct (existsb (String.eqb (sr_Driver x)) seen); [apply IH|].
  simpl. constructor; [|apply IH].
  intro Hin. apply in_map_iff in Hin. destruct Hin as [r [Heq Hr]].
  apply drop_duplicates_unseen in Hr. apply Hr. left. symmetry. exact Heq.
Qed.

(** Every row of [df2]: a listed driver, with the largest observed stint
    number minus one as stop count. *)
Lemma compound_strategies_stops (session : Session) (r : StrategyRow) :
  In r (compound_strategies session) ->
  In (sr_Driver r) (drivers session)
  /\ max_stint_minus_one (laps session) (sr_Driver r) (Stops r).
Proof.
  unfold compound_strategies. intro H.
  apply drop_duplicates_In in H. apply in_map_iff in H.
  destruct H as [row [<- Hrow]].
  destruct (strategy_row_stops _ _ Hrow) as [Hd [Hin Hup]].
  pose proof Hrow as Hlisted. apply driver_stints_In in Hlisted.
  destruct Hlisted as [Hlisted _].
  rewrite Hd. split; [exact Hlisted|]. split.
  - apply driver_rows_stints; assumption.
  - intros s Hs. apply Hup. apply driver_rows_stints; assumption.
Qed.

Lemma observed_stints_from_one (d : string) (s : Z) (ls : list Lap) :
  stints_from_one ls -> In s (observed_stints d ls) -> 1 <= s.
Proof.
  intros Hone Hs. unfold observed_stints in Hs. apply in_flat_map in Hs.
  destruct Hs as [l [Hl Hs]]. unfold key_of in Hs.
  destruct (Stint l) as [s'|] eqn:Es; [|contradiction].
  destruct (Compound l); [|contradiction].
  destruct (String.eqb (Driver l) d); [|contradiction].
  destruct Hs as [<-|[]]. exact (Hone _ _ Hl Es).
Qed.

End Stints.

(* ================================================================== *)
(** * The merge of strategy, qualifying and race results *)

Section Merge.

Import Strategy StrategySpec.

Lemma fst_enumerate1 (l : list string) : map fst (enumerate1 l) = l.
Proof.
  unfold enumerate1.
  assert (H : forall (ps : list Z), List.length ps = List.length l ->
                                    map fst (combine l ps) = l).
  { induction l as [|x l IH]; intros ps Hlen; [reflexivity|].
    destruct ps as [|p ps]; [discriminate|]. simpl. f_equal.
    apply IH. simpl in Hlen. lia. }
  apply H. rewrite length_map, length_seq. reflexivity.
Qed.

Lemma length_enumerate1 (l : list string) :
  List.length (enumerate1 l) = List.length l.
Proof.
  rewrite <- (length_map fst), fst_enumerate1. reflexivity.
Qed.

Lemma DataFrame_of_Ok (data out : list (string * Z)) :
  DataFrame_of data = Ok out -> out = data.
Proof.
  destruct data; simpl; [discriminate|]. intro H. injection H as <-.
  reflexivity.
Qed.

Section Join.

Variables L R : Type.
Variable ldriver : L -> string.
Variable rdriver : R -> string.
Variable mk : L -> Z -> R.
Hypothesis mk_driver : forall l q, rdriver (mk l q) = ldriver l.

Lemma merge_In (left : list L) (right : list (string * Z)) (x : R) :
  In x (merge ldriver left right mk) ->
  exists l r, In l left /\ In r right /\ ldriver l = fst r
              /\ x = mk l (snd r).
Proof.
  unfold merge. intro H. apply in_flat_map in H.
  destruct H as [l [Hl Hx]]. apply in_map_iff in Hx.
  destruct Hx as [r [<- Hr]]. apply filter_In in Hr.
  destruct Hr as [Hr He]. apply String.eqb_eq in He.
  exists l, r. auto.
Qed.

Lemma merge_drivers (left : list L) (right : list (string * Z)) (d : string) :
  In d (map rdriver (merge ldriver left right mk)) ->
  In d (map ldriver left) /\ In d (map fst right).
Proof.
  intro H. apply in_map_iff in H. destruct H as [x [<- Hx]].
  apply merge_In in Hx. destruct Hx as [l [r [Hl [Hr [He ->]]]]].
  rewrite mk_driver. split.
  - apply in_map. exact Hl.
  - rewrite He. apply in_map. exact Hr.
Qed.

Lemma matches_at_most_one (d : string) (right : list (string * Z)) :
  NoDup (map fst right) ->
  (List.length (filter (fun r => String.eqb d (fst r)) right) <= 1)%nat.
Proof.
  induction right as [|r right IH]; simpl; intro Hnd; [lia|].
  inversion Hnd as [|? ? Hnotin Hnd']; subst.
  destruct (String.eqb_spec d (fst r)) as [->|Hne]; [|exact (IH Hnd')].
  simpl.
  assert (Hnil : filter (fun r0 => String.eqb (fst r) (fst r0)) right = []).
  { destruct (filter _ right) as [|y ys] eqn:E; [reflexivity|].
    exfalso. apply Hnotin.
    assert (Hy : In y (filter (fun r0 => String.eqb (fst r) (fst r0)) right))
      by (rewrite E; left; reflexivity).
    apply filter_In in Hy. destruct Hy as [Hy He].
    apply String.eqb_eq in He. rewrite He. apply in_map. exact Hy. }
  rewrite Hnil. simpl. lia.
Qed.

Lemma merge_NoDup (left : list L) (right : list (string * Z)) :
  NoDup (map ldriver left) -> NoDup (map fst right) ->
  NoDup (map rdriver (merge ldriver left right mk)).
Proof.
  intros Hl Hr. induction left as [|l left IH]; [constructor|].
  inversion Hl as [|? ? Hnotin Hl']; subst.
  change (merge ldriver (l :: left) right mk)
    with (map (fun r => mk l (snd r))
              (filter (fun r => String.eqb (ldriver l) (fst r)) right)
          ++ merge ldriver left right mk).
  rewrite map_app.
  pose proof (@matches_at_most_one (ldriver l) right Hr) as Hone.
  destruct (filter (fun r => String.eqb (ldriver l) (fst r)) right)
    as [|r [|r' rs]]; simpl in Hone; [| |lia].
  - simpl. exact (IH Hl').
  - simpl. constructor; [|exact (IH Hl')].
    rewrite mk_driver. intro Hin. apply merge_drivers in Hin.
    apply Hnotin. tauto.
Qed.

Lemma merge_length (left : list L) (right : list (string * Z)) :
  NoDup (map ldriver left) -> NoDup (map fst right) ->
  (List.length (merge ldriver left right mk) <= List.length left)%nat
  /\ (List.length (merge ldriver left right mk) <= List.length right)%nat.
Proof.
  intros Hl Hr. pose proof (@merge_NoDup left right Hl Hr) as Hnd.
  rewrite <- (length_map rdriver (merge ldriver left right mk)).
  rewrite <- (length_map ldriver left), <- (length_map fst right).
  split; apply NoDup_incl_length; try exact Hnd;
    intros d Hd; apply merge_drivers in Hd; tauto.
Qed.

End Join.

Lemma insert_by_quali_perm (x : MergedRow) (l : list MergedRow) :
  Permutation (insert_by_quali x l) (x :: l).
Proof.
  induction l as [|y l IH]; simpl; [apply Permutation_refl|].
  destruct (QualiPosition x <=? QualiPosition y)%Z;
    [apply Permutation_refl|].
  apply perm_trans with (y :: x :: l);
    [apply perm_skip; exact IH|apply perm_swap].
Qed.

Lemma sort_by_quali_perm (l : list MergedRow) :
  Permutation (sort_by_quali l) l.
Proof.
  induction l as [|x l IH]; simpl; [constructor|].
  apply perm_trans with (x :: sort_by_quali l);
    [apply insert_by_quali_perm|apply perm_skip; exact IH].
Qed.

Lemma insert_by_quali_sorted (x : MergedRow) (l : list MergedRow) :
  StronglySorted Z.le (map QualiPosition l) ->
  StronglySorted Z.le (map QualiPosition (insert_by_quali x l)).
Proof.
  induction l as [|y l IH]; simpl; intro Hs.
  - repeat constructor.
  - destruct (Z.leb_spec (QualiPosition x) (QualiPosition y)) as [Hle|Hgt].
    + simpl. constructor; [exact Hs|].
      inversion Hs as [|? ? _ Hall]; subst. constructor; [exact Hle|].
      eapply Forall_impl; [|exact Hall]. intros z Hz. simpl in Hz. lia.
    + simpl. inversion Hs as [|? ? Hs' Hall]; subst.
      constructor; [exact (IH Hs')|].
      apply Forall_forall. intros z Hz. apply in_map_iff in Hz.
      destruct Hz as [m [<- Hm]].
      apply (Permutation_in _ (insert_by_quali_perm x l)) in Hm.
      destruct Hm as [<-|Hm]; [lia|].
      rewrite Forall_forall in Hall. apply Hall. apply in_map. exact Hm.
Qed.

Lemma sort_by_quali_sorted (l : list MergedRow) :
  StronglySorted Z.le (map QualiPosition (sort_by_quali l)).
Proof.
  induction l as [|x l IH]; simpl; [constructor|].
  apply insert_by_quali_sorted. exact IH.
Qed.

End Merge.

(* ================================================================== *)
(** * Strategy reconstruction and merge: the claims *)

Section DatasetClaims.

Import Strategy StrategySpec.

Lemma dataset_shape (session_race session_quali : Session)
      (out : list MergedRow) :
  get_parallel_coordinates_plot_dataset session_race session_quali = Ok out ->
  out
  = sort_by_quali
      (merge (fun lq => sr_Driver (fst lq))
             (merge sr_Driver (compound_strategies session_race)
                    (enumerate1 (results session_quali))
                    (fun l q => (l, q)))
             (enumerate1 (results session_race))
             (fun lq f => mkMergedRow (sr_Driver (fst lq)) (Stops (fst lq))
                                      (CompoundStrategy (fst lq))
                                      (snd lq) f)).
Proof.
  unfold get_parallel_coordinates_plot_dataset. intro H.
  destruct (DataFrame_of (enumerate1 (results session_quali)))
    as [q|] eqn:Eq; simpl in H; [|discriminate].
  destruct (DataFrame_of (enumerate1 (results session_race)))
    as [r|] eqn:Er; simpl in H; [|discriminate].
  apply DataFrame_of_Ok in Eq, Er. subst q r.
  injection H as <-. reflexivity.
Qed.

Lemma dataset_returns (session_race session_quali : Session) :
  results session_quali <> [] -> results session_race <> [] ->
  exists out,
    get_parallel_coordinates_plot_dataset session_race session_quali = Ok out.
Proof.
  intros Hq Hr. unfold get_parallel_coordinates_plot_dataset.
  destruct (results session_quali) as [|q qs]; [congruence|].
  destruct (results session_race) as [|r rs]; [congruence|].
  simpl. eexists. reflexivity.
Qed.

(** Where a row of the result comes from. *)
Lemma dataset_row_origin (session_race session_quali : Session)
      (out : list MergedRow) (m : MergedRow) :
  get_parallel_coordinates_plot_dataset session_race session_quali = Ok out ->
  In m out ->
  exists r,
    In r (compound_strategies session_race)
    /\ m_Driver m = sr_Driver r /\ m_Stops m = Stops r
    /\ In (m_Driver m) (results session_quali)
    /\ In (m_Driver m) (results session_race).
Proof.
  intros Hrun Hm. rewrite (@dataset_shape _ _ _ Hrun) in Hm.
  apply (Permutation_in _ (sort_by_quali_perm _)) in Hm.
  apply merge_In in Hm. destruct Hm as [[l q] [f [Hlq [Hf [Hdf ->]]]]].
  apply merge_In in Hlq. destruct Hlq as [l' [q' [Hl [Hq [Hdq Heq]]]]].
  injection Heq as <- ->. simpl in Hdf.
  exists l. cbn [m_Driver m_Stops fst]. repeat split; try assumption.
  - rewrite Hdq. rewrite <- (fst_enumerate1 (results session_quali)).
    apply in_map. exact Hq.
  - rewrite Hdf. rewrite <- (fst_enumerate1 (results session_race)).
    apply in_map. exact Hf.
Qed.

(** C5.  With stints numbered from 1, every row of the strategy frame
    ([df2]), and so every row of the returned dataset, reports as stop count
    the largest stint number observed for its driver, minus one, and this
    count is not negative. *)
Theorem stops_are_max_stint_minus_one (session_race : Session) :
  stints_from_one (laps session_race) ->
  (forall r,
      In r (compound_strategies session_race) ->
      max_stint_minus_one (laps session_race) (sr_Driver r) (Stops r)
      /\ (0 <= Stops r)%Z)
  /\ (forall session_quali out m,
         get_parallel_coordinates_plot_dataset session_race session_quali
         = Ok out ->
         In m out ->
         max_stint_minus_one (laps session_race) (m_Driver m) (m_Stops m)
         /\ (0 <= m_Stops m)%Z).
Proof.
  intro Hone.
  assert (Hrows : forall r,
             In r (compound_strategies session_race) ->
             max_stint_minus_one (laps session_race) (sr_Driver r) (Stops r)
             /\ (0 <= Stops r)%Z).
  { intros r Hr. destruct (@compound_strategies_stops _ _ Hr) as [_ Hmax].
    split; [exact Hmax|]. destruct Hmax as [Hin _].
    pose proof (@observed_stints_from_one _ _ _ Hone Hin). lia. }
  split; [exact Hrows|].
  intros session_quali out m Hrun Hm.
  destruct (@dataset_row_origin _ _ _ _ Hrun Hm) as [r [Hr [Hd [Hs _]]]].
  rewrite Hd, Hs. apply Hrows. exact Hr.
Qed.

(** C5 at the example of the specification: stint numbers
    1,1,1,2,2,3,3,3,3 give the stop count 2. *)
Lemma stops_are_max_stint_minus_one_witness :
  get_parallel_coordinates_plot_dataset three_stint_race three_stint_quali
  = Ok [mkMergedRow "VER" 2 ["SOFT"; "HARD"; "MEDIUM"]%string 1 1]
  /\ max_stint_minus_one (laps three_stint_race) "VER" 2
  /\ (0 <= 2)%Z.
Proof.
  assert (Hone : stints_from_one (laps three_stint_race)).
  { intros l s Hl Hs. simpl in Hl.
    repeat (destruct Hl as [<-|Hl];
            [simpl in Hs; injection Hs as <-; lia|]).
    contradiction. }
  destruct (@stops_are_max_stint_minus_one three_stint_race Hone)
    as [_ Hout].
  split; [reflexivity|].
  apply (Hout three_stint_quali _
              (mkMergedRow "VER" 2 ["SOFT"; "HARD"; "MEDIUM"]%string 1 1)
              eq_refl).
  left. reflexivity.
Defined.

(** C6.  When the qualifying and the race classification each list a driver
    once, the merge returns as soon as both are non-empty, and its
    result holds only drivers found in the strategy frame, in the
    qualifying results and in the race results; it has at most one row per
    driver, no more rows than the smallest of the three sources, and is
    sorted by qualifying position, ascending. *)
Theorem merge_is_inner_join (session_race session_quali : Session) :
  NoDup (results session_quali) ->
  NoDup (results session_race) ->
  (results session_quali <> [] -> results session_race <> [] ->
   exists out,
     get_parallel_coordinates_plot_dataset session_race session_quali
     = Ok out)
  /\ forall out,
       get_parallel_coordinates_plot_dataset session_race session_quali
       = Ok out ->
       (forall m, In m out ->
                  In (m_Driver m)
                     (map sr_Driver (compound_strategies session_race))
                  /\ In (m_Driver m) (results session_quali)
                  /\ In (m_Driver m) (results session_race))
       /\ (List.length out
           <= Nat.min (List.length (compound_strategies session_race))
                      (Nat.min (List.length (results session_quali))
                               (List.length (results session_race))))%nat
       /\ NoDup (map m_Driver out)
       /\ StronglySorted Z.le (map QualiPosition out).
Proof.
  intros Hq Hr. split; [apply dataset_returns|].
  intros out Hrun.
  split.
  { intros m Hm.
    destruct (@dataset_row_origin _ _ _ _ Hrun Hm)
      as [r [Hin [Hd [_ [Hmq Hmr]]]]].
    split; [|split; assumption].
    rewrite Hd. apply in_map. exact Hin. }
  rewrite (@dataset_shape _ _ _ Hrun).
  set (df2 := compound_strategies session_race).
  set (merged_q := merge sr_Driver df2 (enumerate1 (results session_quali))
                         (fun l q => (l, q))).
  set (mkrow := fun (lq : StrategyRow * Z) (f : Z) =>
                  mkMergedRow (sr_Driver (fst lq)) (Stops (fst lq))
                              (CompoundStrategy (fst lq)) (snd lq) f).
  set (merged_df := merge (fun lq => sr_Driver (fst lq)) merged_q
                          (enumerate1 (results session_race)) mkrow).
  assert (Hdf2 : NoDup (map sr_Driver df2))
    by apply drop_duplicates_NoDup.
  assert (Hqs : NoDup (map fst (enumerate1 (results session_quali))))
    by (rewrite fst_enumerate1; exact Hq).
  assert (Hrs : NoDup (map fst (enumerate1 (results session_race))))
    by (rewrite fst_enumerate1; exact Hr).
  assert (Hmq : NoDup (map (fun lq : StrategyRow * Z => sr_Driver (fst lq))
                           merged_q)).
  { apply (@merge_NoDup _ _ sr_Driver
                        (fun lq : StrategyRow * Z => sr_Driver (fst lq)));
      [reflexivity|exact Hdf2|exact Hqs]. }
  destruct (@merge_length _ _ sr_Driver
              (fun lq : StrategyRow * Z => sr_Driver (fst lq))
              (fun l q => (l, q)) (fun _ _ => eq_refl)
              df2 (enumerate1 (results session_quali)) Hdf2 Hqs)
    as [Hlen1 Hlen2].
  fold merged_q in Hlen1, Hlen2.
  destruct (@merge_length _ _ (fun lq : StrategyRow * Z => sr_Driver (fst lq))
              m_Driver mkrow (fun _ _ => eq_refl)
              merged_q (enumerate1 (results session_race)) Hmq Hrs)
    as [Hlen3 Hlen4].
  fold merged_df in Hlen3, Hlen4.
  rewrite !length_enumerate1 in *.
  pose proof (sort_by_quali_perm merged_df) as Hperm.
  split.
  { rewrite (Permutation_length Hperm). lia. }
  split.
  { apply (Permutation_NoDup
             (Permutation_sym (Permutation_map m_Driver Hperm))).
    apply (@merge_NoDup _ _ (fun lq : StrategyRow * Z => sr_Driver (fst lq))
                        m_Driver mkrow);
      [reflexivity|exact Hmq|exact Hrs]. }
  apply sort_by_quali_sorted.
Qed.

(** C6 at an input: ALO is missing from qualifying and BOT from the race;
    the result holds VER and HAM, by qualifying position. *)
Lemma merge_is_inner_join_witness :
  get_parallel_coordinates_plot_dataset sample_race sample_quali
  = Ok [mkMergedRow "VER" 1 ["SOFT"; "HARD"]%string 1 2;
        mkMergedRow "HAM" 0 ["HARD"]%string 2 1]
  /\ NoDup (map m_Driver
              [mkMergedRow "VER" 1 ["SOFT"; "HARD"]%string 1 2;
               mkMergedRow "HAM" 0 ["HARD"]%string 2 1]).
Proof.
  assert (Hq : NoDup (results sample_quali)).
  { simpl. repeat constructor; simpl; intuition discriminate. }
  assert (Hr : NoDup (results sample_race)).
  { simpl. repeat constructor; simpl; intuition discriminate. }
  destruct (@merge_is_inner_join sample_race sample_quali Hq Hr)
    as [_ Hout].
  split; [reflexivity|].
  destruct (Hout _ eq_refl) as [_ [_ [Hnd _]]]. exact Hnd.
Defined.

End DatasetClaims.

(* ================================================================== *)
(** * Further properties of the corner frame *)

Section FrameFacts.

Import Corners CornerSpec FrameSpec.

Lemma last_in_interval (telemetry : list Tick) (lo hi d : Q) :
  interval lo hi telemetry <> [] ->
  lo < last (map Distance (interval lo hi telemetry)) d
  /\ last (map Distance (interval lo hi telemetry)) d <= hi.
Proof.
  intro Hne. destruct (last_of_ticks d Hne) as [t [Ht ->]].
  apply interval_In in Ht. tauto.
Qed.

Lemma expected_rows_chained (telemetry : list Tick) :
  forall corners start prev,
    start <= prev ->
    intervals_inhabited telemetry prev corners ->
    chained start (expected_rows telemetry start prev corners)
    /\ Forall2 (fun c kr => end_dist (snd kr) <= CDistance c)
               corners (expected_rows telemetry start prev corners).
Proof.
  induction corners as [|c cs IH]; intros start prev Hle Hinh.
  - split; [exact I|constructor].
  - destruct Hinh as [Hne Hinh].
    destruct (@last_in_interval telemetry prev (CDistance c) start Hne)
      as [Hlo Hhi].
    destruct (IH (last (map Distance
                          (interval prev (CDistance c) telemetry)) start)
                 (CDistance c) Hhi Hinh) as [Hch Hall].
    simpl. split.
    + split; [reflexivity|]. split; [|exact Hch].
      apply Qle_lt_trans with prev; assumption.
    + constructor; [exact Hhi|exact Hall].
Qed.

(** X1.  On telemetry in driving order, the rows of a returned frame follow
    one another along the lap: the first starts at 0, every row starts at
    the distance where the previous row ended, ends strictly further on,
    and ends no further than its corner. *)
Theorem frame_rows_are_chained
        (telemetry : list Tick) (corners : list Corner) (out : Frame) :
  by_distance telemetry ->
  NoDup (map Number corners) ->
  get_avg_speed_between_corners telemetry corners = Ok out ->
  chained 0 out
  /\ Forall2 (fun c kr => end_dist (snd kr) <= CDistance c)
             (passed_corners telemetry corners) out.
Proof.
  intros Hs Hnd Hout.
  destruct (@segmentation_frame telemetry corners Hs Hnd) as [_ Hrows].
  destruct (Hrows out Hout) as [Hinh ->].
  apply (@expected_rows_chained telemetry
                                (passed_corners telemetry corners) 0 0);
    [apply Qle_refl|exact Hinh].
Qed.

(** X1 at an input: four ticks, two corners. *)
Lemma frame_rows_are_chained_witness :
  chained 0 [(1%Z, mkRow (10000 # 100) 1 0 100);
             (2%Z, mkRow (20000 # 100) 2 100 150)].
Proof.
  destruct (@frame_rows_are_chained
              boundary_lap [mkCorner 1 100; mkCorner 2 200]
              [(1%Z, mkRow (10000 # 100) 1 0 100);
               (2%Z, mkRow (20000 # 100) 2 100 150)]) as [Hch _].
  - repeat constructor; simpl; unfold Qle; simpl; lia.
  - repeat constructor; simpl; intuition lia.
  - reflexivity.
  - exact Hch.
Defined.

Lemma loc_set_labels (k x : Z) (r : Row) (df : Frame) :
  In x (map fst (loc_set k r df)) <-> x = k \/ In x (map fst df).
Proof.
  split; [apply loc_set_labels_In|].
  induction df as [|[k' r'] df IH]; simpl.
  - intros [->|[]]. left. reflexivity.
  - destruct (Z.eqb_spec k k') as [->|Hne]; simpl.
    + intros [->|[->|H]]; auto.
    + intros [->|[->|H]]; auto.
Qed.

Lemma loc_set_Forall (P : Z * Row -> Prop) (k : Z) (r : Row) (df : Frame) :
  P (k, r) -> Forall P df -> Forall P (loc_set k r df).
Proof.
  intros Hk. induction 1 as [|[k' r'] df Hx Hdf IH]; simpl.
  - repeat constructor. exact Hk.
  - destruct (k =? k')%Z; constructor; assumption.
Qed.

Lemma corner_step_frame (telemetry : list Tick) (st st' : Loop) (c : Corner) :
  corner_step telemetry st c = Ok st' ->
  (passed (CDistance c) telemetry = true
   /\ exists r, corner_number r = Number c
                /\ df st' = loc_set (Number c) r (df st))
  \/ (passed (CDistance c) telemetry = false /\ df st' = df st).
Proof.
  unfold corner_step. rewrite scan_spec. cbv zeta.
  cbn [how ticks avg_speed_accumulator end_ visited].
  destruct (passed (CDistance c) telemetry).
  - destruct (0 + _)%nat; [discriminate|].
    intro H. injection H as <-. left. split; [reflexivity|].
    eexists. split; [|reflexivity]. reflexivity.
  - intro H. injection H as <-. right. split; reflexivity.
Qed.

Lemma corners_loop_labels (telemetry : list Tick) (corners : list Corner) :
  forall st st',
    corners_loop telemetry corners st = Ok st' ->
    (forall k, In k (map fst (df st'))
               <-> In k (map fst (df st))
                   \/ In k (map Number (passed_corners telemetry corners)))
    /\ (Forall (fun kr => corner_number (snd kr) = fst kr) (df st) ->
        Forall (fun kr => corner_number (snd kr) = fst kr) (df st')).
Proof.
  induction corners as [|c cs IH]; intros st st' Hrun; simpl in Hrun.
  - injection Hrun as <-. split; [|auto]. intro k. simpl. tauto.
  - destruct (corner_step telemetry st c) as [st1|] eqn:Hstep;
      simpl in Hrun; [|discriminate].
    destruct (IH _ _ Hrun) as [Hlab Hnum].
    rewrite passed_corners_cons.
    destruct (corner_step_frame _ _ _ Hstep)
      as [[Hp [r [Hr Hdf]]]|[Hp Hdf]]; rewrite Hp.
    + split.
      * intro k. rewrite Hlab, Hdf, loc_set_labels. simpl.
        intuition congruence.
      * intro Hall. apply Hnum. rewrite Hdf.
        apply loc_set_Forall; [exact Hr|exact Hall].
    + split.
      * intro k. rewrite Hlab, Hdf. tauto.
      * intro Hall. apply Hnum. rewrite Hdf. exact Hall.
Qed.

(** X2.  Whatever the order of the telemetry and whether or not corner
    numbers repeat, a returned frame has one row per corner number: its
    labels are distinct, they are exactly the numbers of the corners that
    some tick lies beyond, and each row's [corner_number] is its label (a
    corner that repeats a number overwrites the earlier row). *)
Theorem frame_one_row_per_number
        (telemetry : list Tick) (corners : list Corner) (out : Frame) :
  get_avg_speed_between_corners telemetry corners = Ok out ->
  NoDup (map fst out)
  /\ (forall k, In k (map fst out)
                <-> In k (map Number (passed_corners telemetry corners)))
  /\ Forall (fun kr => corner_number (snd kr) = fst kr) out.
Proof.
  intro Hout. split; [exact (frame_NoDup _ _ Hout)|].
  unfold get_avg_speed_between_corners in Hout.
  destruct (corners_loop telemetry corners init) as [st|] eqn:Hrun;
    simpl in Hout; [|discriminate].
  injection Hout as <-.
  destruct (corners_loop_labels _ _ _ Hrun) as [Hlab Hnum].
  split.
  - intro k. rewrite Hlab. simpl. tauto.
  - apply Hnum. constructor.
Qed.

(** X2 at an input: corners 7 and 7 again (as for turns 7a and 7b); one
    row, that of the second corner. *)
Lemma frame_one_row_per_number_witness :
  get_avg_speed_between_corners
    [mkTick 50 200; mkTick 150 210; mkTick 250 220]
    [mkCorner 7 100; mkCorner 7 200]
  = Ok [(7%Z, mkRow (21000 # 100) 7 50 150)]
  /\ NoDup (map fst [(7%Z, mkRow (21000 # 100) 7 50 150)]).
Proof.
  split; [reflexivity|].
  destruct (@frame_one_row_per_number
              [mkTick 50 200; mkTick 150 210; mkTick 250 220]
              [mkCorner 7 100; mkCorner 7 200]
              [(7%Z, mkRow (21000 # 100) 7 50 150)] eq_refl) as [Hnd _].
  exact Hnd.
Defined.

End FrameFacts.

(* ================================================================== *)
(** * Further properties of the lap time conversion *)

Section ClockFacts.

Import LapTime LapTimeSpec ClockSpec.
Local Open Scope Z_scope.

Lemma minute_of_ms (t : Z) :
  t / 1000 / 60000000 mod 60 = (t / 1000000 mod 3600000) / 60000.
Proof. Z.div_mod_to_equations. lia. Qed.

Lemma second_of_ms (t : Z) :
  t / 1000 / 1000000 mod 60 = (t / 1000000 mod 3600000) / 1000 mod 60.
Proof. Z.div_mod_to_equations. lia. Qed.

Lemma micro_of_ms (t : Z) :
  t / 1000 mod 1000000 / 1000 * 1000
  = (t / 1000000 mod 3600000) mod 1000 * 1000.
Proof. Z.div_mod_to_equations. lia. Qed.

Lemma ms_of_fields (x : Z) :
  0 <= x < 3600000 ->
  x / 60000 * 60000000 + x / 1000 mod 60 * 1000000 + x mod 1000 * 1000
  = x * 1000.
Proof. intro H. Z.div_mod_to_equations. lia. Qed.

(** The kept datetime is a function of the milliseconds within the hour. *)
Lemma kept_of_ms (t : Timedelta) :
  kept t
  = mkDatetime 1900 1 1 0 (ms_in_hour t / 60000)
               (ms_in_hour t / 1000 mod 60) (ms_in_hour t mod 1000 * 1000).
Proof.
  unfold kept, minute_of, second_of, microsecond_of, ms_in_hour, ns_per_ms,
    ms_per_hour, us_per_minute, us_per_second, us_per_ms, ns_per_us.
  change (60 * 1000000) with 60000000.
  change (1000 * 1000) with 1000000. change (3600 * 1000) with 3600000.
  rewrite minute_of_ms, second_of_ms, micro_of_ms. reflexivity.
Qed.

Lemma ms_in_hour_range (t : Timedelta) : 0 <= ms_in_hour t < 3600000.
Proof.
  unfold ms_in_hour, ms_per_hour. apply Z.mod_pos_bound. lia.
Qed.

Lemma us_of_day_kept (t : Timedelta) :
  us_of_day (kept t) = ms_in_hour t * 1000.
Proof.
  rewrite kept_of_ms. unfold us_of_day.
  cbn [hour minute second microsecond].
  unfold us_per_hour, us_per_minute, us_per_second.
  change (60 * 1000000) with 60000000.
  rewrite <- (@ms_of_fields (ms_in_hour t) (ms_in_hour_range t)). lia.
Qed.

(** X3.  Two lap times are converted to the same datetime exactly when
    they have the same whole milliseconds within the hour: lap times that
    differ by whole hours, or by less than their millisecond, cannot be told
    apart after the conversion. *)
Theorem same_datetime_iff_same_ms_in_hour (t1 t2 : Timedelta) :
  convert_timedelta_to_datetime [t1] = convert_timedelta_to_datetime [t2]
  <-> ms_in_hour t1 = ms_in_hour t2.
Proof.
  cbn [convert_timedelta_to_datetime]. rewrite !convert_one_kept.
  cbn [Py.bind]. split.
  - intro H.
    assert (Hk : kept t1 = kept t2) by congruence.
    assert (Hus : us_of_day (kept t1) = us_of_day (kept t2))
      by (rewrite Hk; reflexivity).
    rewrite !us_of_day_kept in Hus. lia.
  - intro H. rewrite (kept_of_ms t1), (kept_of_ms t2), H. reflexivity.
Qed.

Lemma ms_in_hour_small (t : Timedelta) :
  0 <= t < 3600000000000 -> ms_in_hour t = t / 1000000.
Proof.
  intro H. unfold ms_in_hour, ns_per_ms, ms_per_hour, ns_per_us, us_per_ms.
  change (1000 * 1000) with 1000000. change (3600 * 1000) with 3600000.
  apply Z.mod_small. Z.div_mod_to_equations. lia.
Qed.

Lemma ms_monotone (t1 t2 : Z) :
  t1 <= t2 -> t1 / 1000000 <= t2 / 1000000.
Proof. intro H. apply Z.div_le_mono; lia. Qed.

Lemma ms_strict (t1 t2 : Z) :
  t1 + 1000000 <= t2 -> t1 / 1000000 < t2 / 1000000.
Proof. intro H. Z.div_mod_to_equations. lia. Qed.

(** X4.  Lap times between 0 and one hour keep their order: the earlier
    lap time is converted to the earlier time of day, strictly so when the
    two differ by a millisecond or more. *)
Theorem order_kept_below_one_hour (t1 t2 : Timedelta) :
  0 <= t1 -> t1 <= t2 -> t2 < ns_per_hour ->
  exists d1 d2,
    convert_timedelta_to_datetime [t1; t2] = Ok [d1; d2]
    /\ us_of_day d1 <= us_of_day d2
    /\ (t1 + ns_per_ms <= t2 -> us_of_day d1 < us_of_day d2).
Proof.
  intros H0 Hle Hlt.
  assert (Hh : ns_per_hour = 3600000000000) by reflexivity.
  exists (kept t1), (kept t2). split.
  - cbn [convert_timedelta_to_datetime]. rewrite !convert_one_kept.
    reflexivity.
  - rewrite !us_of_day_kept, !ms_in_hour_small by lia.
    pose proof (@ms_monotone t1 t2 Hle) as Hm. split; [lia|].
    intro Hstep. change ns_per_ms with 1000000 in Hstep.
    pose proof (@ms_strict t1 t2 Hstep). lia.
Qed.

(** X4 at an input: 1 min 23.456 s and 1 min 24 s. *)
Lemma order_kept_below_one_hour_witness :
  exists d1 d2,
    convert_timedelta_to_datetime [83456000000; 84000000000] = Ok [d1; d2]
    /\ us_of_day d1 <= us_of_day d2
    /\ (83456000000 + ns_per_ms <= 84000000000 ->
        us_of_day d1 < us_of_day d2).
Proof.
  apply (@order_kept_below_one_hour 83456000000 84000000000).
  - discriminate.
  - discriminate.
  - reflexivity.
Defined.

End ClockFacts.

(* ================================================================== *)
(** * Counting values: [value_counts] *)

Section Counting.

Import History HistorySpec.

Lemma recorded_count_add (x v : string) (counts : list (string * nat)) :
  recorded x (count_add v counts)
  = (recorded x counts + if String.eqb x v then 1 else 0)%nat.
Proof.
  unfold recorded. induction counts as [|[v' n] counts IH]; simpl.
  - destruct (String.eqb x v); reflexivity.
  - destruct (String.eqb_spec v v') as [->|Hne]; simpl.
    + destruct (String.eqb x v'); simpl; lia.
    + destruct (String.eqb x v'); simpl; rewrite IH; lia.
Qed.

Lemma count_add_keys (x v : string) (counts : list (string * nat)) :
  In x (map fst (count_add v counts)) <-> x = v \/ In x (map fst counts).
Proof.
  induction counts as [|[v' n] counts IH]; simpl.
  - intuition congruence.
  - destruct (String.eqb_spec v v') as [->|Hne]; simpl.
    + intuition congruence.
    + rewrite IH. intuition congruence.
Qed.

Lemma count_add_NoDup (v : string) (counts : list (string * nat)) :
  NoDup (map fst counts) -> NoDup (map fst (count_add v counts)).
Proof.
  induction counts as [|[v' n] counts IH]; simpl; intro Hnd.
  - repeat constructor. intros [].
  - inversion Hnd as [|? ? Hnotin Hnd']; subst.
    destruct (String.eqb_spec v v') as [->|Hne]; simpl.
    + constructor; assumption.
    + constructor; [|exact (IH Hnd')].
      rewrite count_add_keys. intuition congruence.
Qed.

Lemma tally_fold (l : list string) :
  forall counts,
    let out := fold_left (fun acc v => count_add v acc) l counts in
    (NoDup (map fst counts) -> NoDup (map fst out))
    /\ (forall x, recorded x out
                  = (recorded x counts + occurrences x l)%nat)
    /\ (forall x, In x (map fst out) <-> In x (map fst counts) \/ In x l).
Proof.
  induction l as [|v l IH]; intros counts; simpl.
  - split; [auto|]. split; [intro x; unfold occurrences; simpl; lia|].
    intro x. tauto.
  - destruct (IH (count_add v counts)) as [Hnd [Hrec Hkeys]].
    split; [intro H; apply Hnd; apply count_add_NoDup; exact H|].
    split.
    + intro x. rewrite Hrec, recorded_count_add. unfold occurrences. simpl.
      destruct (String.eqb x v); simpl; lia.
    + intro x. rewrite Hkeys, count_add_keys. intuition congruence.
Qed.

Lemma recorded_In (v : string) (n : nat) (counts : list (string * nat)) :
  NoDup (map fst counts) -> In (v, n) counts -> recorded v counts = n.
Proof.
  unfold recorded. induction counts as [|[v' n'] counts IH]; simpl;
    intros Hnd Hin; [contradiction|].
  inversion Hnd as [|? ? Hnotin Hnd']; subst.
  destruct Hin as [Heq|Hin].
  - injection Heq as -> ->. rewrite String.eqb_refl. simpl.
    assert (Hnil : filter (fun p => String.eqb v (fst p)) counts = []).
    { destruct (filter _ counts) as [|p ps] eqn:E; [reflexivity|].
      exfalso. apply Hnotin.
      assert (Hp : In p (filter (fun p => String.eqb v (fst p)) counts))
        by (rewrite E; left; reflexivity).
      apply filter_In in Hp. destruct Hp as [Hp He].
      apply String.eqb_eq in He. rewrite He. apply in_map. exact Hp. }
    rewrite Hnil. simpl. lia.
  - destruct (String.eqb_spec v v') as [->|Hne].
    + exfalso. apply Hnotin. apply (in_map fst) in Hin. exact Hin.
    + apply IH; assumption.
Qed.

Lemma occurrences_In (v : string) (l : list string) :
  In v l <-> (1 <= occurrences v l)%nat.
Proof.
  unfold occurrences. induction l as [|x l IH]; simpl.
  - split; [contradiction|lia].
  - destruct (String.eqb_spec v x) as [->|Hne]; simpl.
    + split; [lia|auto].
    + rewrite <- IH. intuition congruence.
Qed.

(** The tally of a list: every value once, with its number of
    occurrences. *)
Lemma tally_spec (l : list string) :
  NoDup (map fst (tally l))
  /\ forall v n, In (v, n) (tally l)
                 <-> n = occurrences v l /\ (1 <= n)%nat.
Proof.
  destruct (tally_fold l []) as [Hnd [Hrec Hkeys]]. fold (tally l) in *.
  specialize (Hnd (NoDup_nil _)).
  split; [exact Hnd|].
  intros v n. split.
  - intro Hin.
    assert (Hn : n = occurrences v l).
    { rewrite <- (@recorded_In v n (tally l) Hnd Hin), Hrec. reflexivity. }
    split; [exact Hn|]. rewrite Hn. apply occurrences_In.
    apply (in_map fst) in Hin. apply Hkeys in Hin. simpl in Hin. tauto.
  - intros [-> Hpos]. apply occurrences_In in Hpos.
    assert (Hk : In v (map fst (tally l))) by (apply Hkeys; right; exact Hpos).
    apply in_map_iff in Hk. destruct Hk as [[v' n'] [Hv Hin]].
    simpl in Hv. subst v'.
    pose proof (@recorded_In v n' (tally l) Hnd Hin) as Hn'.
    rewrite Hrec in Hn'. simpl in Hn'. subst n'. exact Hin.
Qed.

Lemma insert_desc_perm (x : string * nat) (l : list (string * nat)) :
  Permutation (insert_desc x l) (x :: l).
Proof.
  induction l as [|y l IH]; simpl; [apply Permutation_refl|].
  destruct (snd y <=? snd x)%nat; [apply Permutation_refl|].
  apply perm_trans with (y :: x :: l);
    [apply perm_skip; exact IH|apply perm_swap].
Qed.

Lemma sort_desc_perm (l : list (string * nat)) :
  Permutation (sort_desc l) l.
Proof.
  induction l as [|x l IH]; simpl; [constructor|].
  apply perm_trans with (x :: sort_desc l);
    [apply insert_desc_perm|apply perm_skip; exact IH].
Qed.

Lemma insert_desc_sorted (x : string * nat) (l : list (string * nat)) :
  descending (map snd l) -> descending (map snd (insert_desc x l)).
Proof.
  unfold descending. induction l as [|y l IH]; simpl; intro Hs.
  - repeat constructor.
  - destruct (Nat.leb_spec (snd y) (snd x)) as [Hle|Hgt].
    + simpl. constructor; [exact Hs|].
      inversion Hs as [|? ? _ Hall]; subst. constructor; [exact Hle|].
      eapply Forall_impl; [|exact Hall]. intros z Hz. simpl in Hz. lia.
    + simpl. inversion Hs as [|? ? Hs' Hall]; subst.
      constructor; [exact (IH Hs')|].
      apply Forall_forall. intros z Hz. apply in_map_iff in Hz.
      destruct Hz as [m [<- Hm]].
      apply (Permutation_in _ (insert_desc_perm x l)) in Hm.
      destruct Hm as [<-|Hm]; [lia|].
      rewrite Forall_forall in Hall. apply Hall. apply in_map. exact Hm.
Qed.

Lemma sort_desc_sorted (l : list (string * nat)) :
  descending (map snd (sort_desc l)).
Proof.
  induction l as [|x l IH]; simpl; [constructor|].
  apply insert_desc_sorted. exact IH.
Qed.

(** [value_counts]: every value once, with its occurrences, largest count
    first. *)
Lemma value_counts_spec (l : list string) :
  NoDup (map fst (value_counts l))
  /\ (forall v n, In (v, n) (value_counts l)
                  <-> n = occurrences v l /\ (1 <= n)%nat)
  /\ descending (map snd (value_counts l)).
Proof.
  unfold value_counts. destruct (tally_spec l) as [Hnd Hin].
  pose proof (sort_desc_perm (tally l)) as Hperm.
  split.
  - apply (Permutation_NoDup
             (Permutation_sym (Permutation_map fst Hperm))). exact Hnd.
  - split; [|apply sort_desc_sorted].
    intros v n. rewrite <- Hin. split; apply Permutation_in;
      [exact Hperm|apply Permutation_sym; exact Hperm].
Qed.

End Counting.

(* ================================================================== *)
(** * Further properties of the historical aggregations *)

Section HistoryFacts.

Import History HistorySpec.

Lemma set_nth_app (a b : list (option string)) (x v : option string) :
  set_nth (List.length a) v (a ++ x :: b) = a ++ v :: b.
Proof.
  induction a as [|y a IH]; simpl; [reflexivity|]. rewrite IH. reflexivity.
Qed.

Section Column.

Variable g : string * nat -> option string.
Variable nrows : nat.

Lemma column_fold (post : list (string * nat)) :
  forall done,
    fold_left (fun col ir => at_set nrows (fst ir) (g (snd ir)) col)
              (combine (seq (List.length done) (List.length post)) post)
              (Some (done ++ repeat None (List.length post)))
    = Some (done ++ map g post).
Proof.
  induction post as [|x post IH]; intro done; simpl.
  - reflexivity.
  - unfold at_set at 2. rewrite set_nth_app.
    replace (done ++ g x :: repeat None (List.length post))
      with ((done ++ [g x]) ++ repeat None (List.length post))
      by (rewrite <- app_assoc; reflexivity).
    replace (S (List.length done)) with (List.length (done ++ [g x]))
      by (rewrite length_app; simpl; lia).
    rewrite IH. rewrite <- app_assoc. reflexivity.
Qed.

(** The column the loop creates: the value of every row, or no column at
    all when there is no row. *)
Lemma column_of_rows (rows : list (string * nat)) :
  nrows = List.length rows ->
  fold_left (fun col ir => at_set nrows (fst ir) (g (snd ir)) col)
            (iterrows rows) None
  = match rows with [] => None | _ => Some (map g rows) end.
Proof.
  intro Hn. unfold iterrows. destruct rows as [|x rows]; [reflexivity|].
  assert (Hfirst : at_set nrows 0 (g x) None
                   = Some ([g x] ++ repeat None (List.length rows))).
  { unfold at_set. rewrite Hn. reflexivity. }
  cbn [List.length seq combine fold_left fst snd]. rewrite Hfirst.
  apply (column_fold rows [g x]).
Qed.

End Column.

Lemma dropna_rows (g : string * nat -> option string)
      (rows : list (string * nat)) (c : string) (n : nat) (iso : string) :
  In (c, n, iso)
     (flat_map (fun rc : string * nat * option string =>
                  match snd rc with
                  | Some iso => [(fst rc, iso)]
                  | None => []
                  end)
               (combine rows (map g rows)))
  <-> In (c, n) rows /\ g (c, n) = Some iso.
Proof.
  induction rows as [|r rows IH]; simpl; [tauto|].
  rewrite in_app_iff, IH. destruct (g r) as [i|] eqn:Eg; simpl.
  - split.
    + intros [[Heq|[]]|[Hin Hg]].
      * injection Heq as <- <-. auto.
      * auto.
    + intros [[<-|Hin] Hg].
      * left. left. congruence.
      * right. auto.
  - split.
    + intros [[]|[Hin Hg]]. auto.
    + intros [[<-|Hin] Hg]; [congruence|]. right. auto.
Qed.

Lemma dropna_order (g : string * nat -> option string)
      (rows : list (string * nat)) :
  NoDup (map fst rows) ->
  descending (map snd rows) ->
  let out := flat_map (fun rc : string * nat * option string =>
                         match snd rc with
                         | Some iso => [(fst rc, iso)]
                         | None => []
                         end)
                      (combine rows (map g rows)) in
  NoDup (map (fun x => fst (fst x)) out)
  /\ descending (map (fun x => snd (fst x)) out)
  /\ forall x, In x out -> In (fst x) rows.
Proof.
  unfold descending.
  induction rows as [|r rows IH]; simpl; intros Hnd Hs.
  - repeat split; try constructor. contradiction.
  - inversion Hnd as [|? ? Hnotin Hnd']; subst.
    inversion Hs as [|? ? Hs' Hall]; subst.
    destruct (IH Hnd' Hs') as [IHn [IHs IHi]].
    destruct (g r) as [i|]; simpl.
    + split; [|split].
      * constructor; [|exact IHn].
        intro Hin. apply in_map_iff in Hin. destruct Hin as [x [Hx Hin]].
        apply Hnotin. rewrite <- Hx. apply in_map. apply IHi. exact Hin.
      * constructor; [exact IHs|].
        apply Forall_forall. intros z Hz. apply in_map_iff in Hz.
        destruct Hz as [x [<- Hx]]. rewrite Forall_forall in Hall.
        apply Hall. apply in_map. apply IHi. exact Hx.
      * intros x [<-|Hx]; [left; reflexivity|right; apply IHi; exact Hx].
    + split; [exact IHn|]. split; [exact IHs|].
      intros x Hx. right. apply IHi. exact Hx.
Qed.

Lemma in_range_counted (schedule : list ScheduleRow)
      (start_year end_year : Z) :
  (exists r, In r schedule
             /\ in_years start_year end_year (date_year (EventDate r)) = true)
  -> value_counts
       (map Country
            (filter (fun r => in_years start_year end_year
                                       (date_year (EventDate r)))
                    schedule)) <> [].
Proof.
  intros [r [Hr Hin]] Hnil.
  set (l := map Country (filter _ schedule)) in *.
  destruct (value_counts_spec l) as [_ [Hrows _]].
  assert (Hc : In (Country r) l).
  { unfold l. apply in_map. apply filter_In. auto. }
  apply occurrences_In in Hc.
  assert (Hrow : In (Country r, occurrences (Country r) l) (value_counts l))
    by (apply Hrows; auto).
  rewrite Hnil in Hrow. exact Hrow.
Qed.

Section CountryFacts.

Variable get_iso_code : string -> option string.

(** X5.  When some event of the calendar lies in the year range (both
    bounds included), [get_country_counts_ISO] returns; its rows are
    exactly the countries with at least one event in the range whose name
    pycountry resolves, each with that number of events and the resolved
    code.  Countries without a code are left out. *)
Theorem country_counts_rows
        (schedule : list ScheduleRow) (start_year end_year : Z) :
  (exists r, In r schedule
             /\ in_years start_year end_year (date_year (EventDate r)) = true)
  -> exists out,
       get_country_counts_ISO get_iso_code schedule start_year end_year
       = Ok out
       /\ forall country n iso,
            In (country, n, iso) out
            <-> get_iso_code country = Some iso
                /\ n = events_in schedule start_year end_year country
                /\ (1 <= n)%nat.
Proof.
  intro Hsome. pose proof (in_range_counted _ _ _ Hsome) as Hne.
  unfold get_country_counts_ISO, events_in.
  set (l := map Country (filter _ schedule)) in *.
  cbv zeta. fold l.
  rewrite (@column_of_rows (fun r => get_iso_code (fst r))
                           (List.length (value_counts l))
                           (value_counts l) eq_refl).
  destruct (value_counts l) as [|r0 rows0] eqn:Evc; [congruence|].
  rewrite <- Evc. unfold dropna. simpl Py.bind.
  eexists. split; [reflexivity|].
  intros country n iso.
  rewrite (dropna_rows (fun r => get_iso_code (fst r))). simpl.
  destruct (value_counts_spec l) as [_ [Hrows _]].
  rewrite Hrows. tauto.
Qed.

Lemma country_counts_frame
      (schedule : list ScheduleRow) (start_year end_year : Z)
      (out : list (string * nat * string)) :
  get_country_counts_ISO get_iso_code schedule start_year end_year = Ok out ->
  exists rows,
    NoDup (map fst rows) /\ descending (map snd rows)
    /\ out = flat_map (fun rc : string * nat * option string =>
                         match snd rc with
                         | Some iso => [(fst rc, iso)]
                         | None => []
                         end)
                      (combine rows
                               (map (fun r => get_iso_code (fst r)) rows)).
Proof.
  unfold get_country_counts_ISO. cbv zeta.
  set (l := map Country (filter _ schedule)).
  rewrite (@column_of_rows (fun r => get_iso_code (fst r))
                           (List.length (value_counts l))
                           (value_counts l) eq_refl).
  destruct (value_counts_spec l) as [Hnd [_ Hs]].
  destruct (value_counts l) as [|r0 rows0] eqn:Evc; [discriminate|].
  rewrite <- Evc in *. unfold dropna. simpl Py.bind.
  intro H. injection H as <-.
  exists (value_counts l). auto.
Qed.

(** X6.  A frame returned by [get_country_counts_ISO] lists every country
    once, from the largest number of events to the smallest. *)
Theorem country_counts_order
        (schedule : list ScheduleRow) (start_year end_year : Z)
        (out : list (string * nat * string)) :
  get_country_counts_ISO get_iso_code schedule start_year end_year = Ok out ->
  NoDup (map (fun x => fst (fst x)) out)
  /\ descending (map (fun x => snd (fst x)) out).
Proof.
  intro H. destruct (country_counts_frame _ _ _ H) as [rows [Hnd [Hs ->]]].
  destruct (@dropna_order (fun r => get_iso_code (fst r)) rows Hnd Hs)
    as [H1 [H2 _]].
  split; assumption.
Qed.

End CountryFacts.

Lemma winners_counted (race_winners : list WinnerRow)
      (start_year end_year : Z) :
  (exists r, In r race_winners
             /\ in_years start_year end_year (Season r) = true)
  -> value_counts
       (map Team
            (filter (fun r => in_years start_year end_year (Season r))
                    race_winners)) <> [].
Proof.
  intros [r [Hr Hin]] Hnil.
  set (l := map Team (filter _ race_winners)) in *.
  destruct (value_counts_spec l) as [_ [Hrows _]].
  assert (Hc : In (Team r) l).
  { unfold l. apply in_map. apply filter_In. auto. }
  apply occurrences_In in Hc.
  assert (Hrow : In (Team r, occurrences (Team r) l) (value_counts l))
    by (apply Hrows; auto).
  rewrite Hnil in Hrow. exact Hrow.
Qed.

Lemma count_add_total (v : string) (counts : list (string * nat)) :
  list_sum (map snd (count_add v counts)) = S (list_sum (map snd counts)).
Proof.
  induction counts as [|[v' n] counts IH]; simpl; [reflexivity|].
  destruct (String.eqb v v'); simpl; [reflexivity|]. rewrite IH. lia.
Qed.

Lemma tally_total (l : list string) :
  list_sum (map snd (tally l)) = List.length l.
Proof.
  unfold tally.
  assert (H : forall counts,
             list_sum (map snd (fold_left (fun acc v => count_add v acc)
                                          l counts))
             = (list_sum (map snd counts) + List.length l)%nat).
  { induction l as [|v l IH]; intro counts; simpl; [lia|].
    rewrite IH, count_add_total. lia. }
  rewrite H. reflexivity.
Qed.

Lemma list_sum_perm (l l' : list nat) :
  Permutation l l' -> list_sum l = list_sum l'.
Proof.
  induction 1; simpl; lia.
Qed.

Lemma sort_desc_total (l : list (string * nat)) :
  list_sum (map snd (sort_desc l)) = list_sum (map snd l).
Proof.
  apply list_sum_perm. apply Permutation_map. apply sort_desc_perm.
Qed.

Section TeamFacts.

Variable team_color : string -> option string.

(** X7.  When some race of the snapshot lies in the season range,
    [plot_race_wins_per_team] returns a bar per team with at least one win
    in the range, each team once, with its number of wins as height, from
    the most wins to the fewest; the bar has the team's colour, or white
    when the colour lookup fails; the heights add up to the number of races
    of the range. *)
Theorem team_wins_bars
        (race_winners : list WinnerRow) (start_year end_year : Z) :
  (exists r, In r race_winners
             /\ in_years start_year end_year (Season r) = true)
  -> exists rows,
       plot_race_wins_per_team team_color race_winners start_year end_year
       = Ok (map fst rows, map snd rows,
             map (fun r => Some (color_or_white team_color (fst r))) rows)
       /\ NoDup (map fst rows)
       /\ (forall team n,
              In (team, n) rows
              <-> n = wins_in race_winners start_year end_year team
                  /\ (1 <= n)%nat)
       /\ descending (map snd rows)
       /\ list_sum (map snd rows)
          = List.length
              (filter (fun r => in_years start_year end_year (Season r))
                      race_winners).
Proof.
  intro Hsome. pose proof (winners_counted _ _ _ Hsome) as Hne.
  unfold plot_race_wins_per_team, team_wins_frame, wins_in. cbv zeta.
  set (l := map Team (filter _ race_winners)) in *.
  set (rows := sort_desc (value_counts l)).
  rewrite (@column_of_rows
             (fun r => match team_color (fst r) with
                       | Some c => Some c
                       | None => Some "white"%string
                       end)
             (List.length rows) rows eq_refl).
  destruct (value_counts_spec l) as [Hnd [Hrows _]].
  pose proof (sort_desc_perm (value_counts l)) as Hperm. fold rows in Hperm.
  assert (Hrne : rows <> []).
  { intro Hnil. rewrite Hnil in Hperm.
    apply Permutation_nil in Hperm. exact (Hne Hperm). }
  destruct rows as [|r0 rows0] eqn:Er; [congruence|].
  rewrite <- Er in *. simpl Py.bind.
  exists rows. split.
  { f_equal. f_equal. apply map_ext. intro r. unfold color_or_white.
    destruct (team_color (fst r)); reflexivity. }
  split.
  { apply (Permutation_NoDup
             (Permutation_sym (Permutation_map fst Hperm))). exact Hnd. }
  split.
  { intros team n. rewrite <- Hrows. split; apply Permutation_in;
      [exact Hperm|apply Permutation_sym; exact Hperm]. }
  split; [apply sort_desc_sorted|].
  unfold rows at 1. rewrite sort_desc_total. unfold value_counts.
  rewrite sort_desc_total, tally_total. unfold l. apply length_map.
Qed.

End TeamFacts.

End HistoryFacts.

(** X5 at an input: two countries resolve, Narnia does not. *)
Lemma country_counts_rows_witness :
  exists out,
    HistorySpec.sample_iso "Germany" = Some "DEU"%string
    /\ History.get_country_counts_ISO HistorySpec.sample_iso
         HistorySpec.sample_schedule 2001 2002 = Ok out
    /\ In ("Germany"%string, 2%nat, "DEU"%string) out.
Proof.
  destruct (@country_counts_rows HistorySpec.sample_iso
              HistorySpec.sample_schedule 2001 2002) as [out [Hrun Hrows]].
  - exists (History.mkScheduleRow "France" "Magny-Cours"
                                  (History.mkDate 2001 7 1) "French GP").
    split; [left; reflexivity|reflexivity].
  - exists out. split; [reflexivity|]. split; [exact Hrun|].
    apply Hrows. repeat split. repeat constructor.
Defined.

(** X6 at an input: Germany (2 events) comes before France (1). *)
Lemma country_counts_order_witness :
  HistorySpec.descending
    (map (fun x : string * nat * string => snd (fst x))
         [("Germany"%string, 2%nat, "DEU"%string);
          ("France"%string, 1%nat, "FRA"%string)]).
Proof.
  destruct (@country_counts_order HistorySpec.sample_iso
              HistorySpec.sample_schedule 2001 2002
              [("Germany"%string, 2%nat, "DEU"%string);
               ("France"%string, 1%nat, "FRA"%string)] eq_refl)
    as [_ Hs].
  exact Hs.
Defined.

(** X7 at an input: two teams from 2000 to 2010, no colour known. *)
Lemma team_wins_bars_witness :
  exists rows,
    History.plot_race_wins_per_team (fun _ => None)
      HistorySpec.sample_winners 2000 2010
    = Ok (map fst rows, map snd rows,
          map (fun r : string * nat =>
                 Some (HistorySpec.color_or_white (fun _ => None) (fst r)))
              rows)
    /\ list_sum (map snd rows) = 3%nat.
Proof.
  destruct (@team_wins_bars (fun _ => None) HistorySpec.sample_winners
                            2000 2010)
    as [rows [Hrun [_ [_ [_ Hsum]]]]].
  - exists (History.mkWinnerRow 2001 "Monaco" "A" "Ferrari").
    split; [left; reflexivity|reflexivity].
  - exists rows. split; [exact Hrun|]. rewrite Hsum. reflexivity.
Defined.

(* ================================================================== *)
(** * Further properties of the merged dataset *)

Section DatasetFacts.

Import Strategy StrategySpec.

Lemma drop_duplicates_complete (rows : list StrategyRow) (d : string) :
  forall seen,
    In d (map sr_Driver rows) -> ~ In d seen ->
    In d (map sr_Driver (drop_duplicates seen rows)).
Proof.
  induction rows as [|x rows IH]; intros seen Hin Hseen; [contradiction|].
  simpl. destruct (existsb (String.eqb (sr_Driver x)) seen) eqn:E.
  - apply IH; [|exact Hseen].
    destruct Hin as [Hx|Hin]; [|exact Hin].
    exfalso. apply Hseen. apply existsb_exists in E.
    destruct E as [y [Hy He]]. apply String.eqb_eq in He. congruence.
  - destruct (String.eqb_spec (sr_Driver x) d) as [Hd|Hd].
    + left. exact Hd.
    + right. apply IH.
      * destruct Hin as [Hx|Hin]; [congruence|exact Hin].
      * intros [Hx|Hs]; [congruence|exact (Hseen Hs)].
Qed.

(** Who has a row in the strategy frame. *)
Lemma strategy_drivers (session : Session) (d : string) :
  In d (map sr_Driver (compound_strategies session))
  <-> In d (drivers session) /\ observed_stints d (laps session) <> [].
Proof.
  split.
  - intro H. apply in_map_iff in H. destruct H as [r [<- Hr]].
    destruct (@compound_strategies_stops session r Hr) as [Hd [Hin _]].
    split; [exact Hd|]. intro Hnil. rewrite Hnil in Hin. exact Hin.
  - intros [Hd Hobs].
    destruct (observed_stints d (laps session)) as [|s rest] eqn:E;
      [congruence|].
    assert (Hs : In s (observed_stints d (laps session)))
      by (rewrite E; left; reflexivity).
    apply observed_stints_In in Hs. destruct Hs as [c Hc].
    destruct (@stints_of_complete d s c (laps session) Hc)
      as [row [Hrow [H1 _]]].
    assert (Hdf : In row (driver_stints session)).
    { apply driver_stints_In. rewrite H1. auto. }
    unfold compound_strategies.
    apply drop_duplicates_complete; [|intros []].
    rewrite map_map. apply in_map_iff. exists row. split; [|exact Hdf].
    simpl. exact H1.
Qed.

Lemma merge_complete (L R : Type) (ldriver : L -> string)
      (mk : L -> Z -> R) (left : list L) (right : list (string * Z))
      (l : L) (r : string * Z) :
  In l left -> In r right -> ldriver l = fst r ->
  In (mk l (snd r)) (merge ldriver left right mk).
Proof.
  intros Hl Hr He. unfold merge. apply in_flat_map.
  exists l. split; [exact Hl|]. apply in_map_iff.
  exists r. split; [reflexivity|]. apply filter_In. split; [exact Hr|].
  apply String.eqb_eq. exact He.
Qed.

Lemma enumerate1_has (l : list string) (d : string) :
  In d l -> exists p, In (d, p) (enumerate1 l).
Proof.
  intro Hd. rewrite <- (fst_enumerate1 l) in Hd.
  apply in_map_iff in Hd. destruct Hd as [[d' p] [Hd Hin]].
  simpl in Hd. subst d'. exists p. exact Hin.
Qed.

(** X8.  The returned dataset holds exactly the drivers found in all three
    sources: a driver has a row if and only if he is a driver of the race
    session with at least one lap whose stint and compound are known, is
    classified in qualifying, and is classified in the race. *)
Theorem dataset_drivers (session_race session_quali : Session)
        (out : list MergedRow) (d : string) :
  get_parallel_coordinates_plot_dataset session_race session_quali = Ok out ->
  In d (map m_Driver out)
  <-> (In d (drivers session_race)
       /\ observed_stints d (laps session_race) <> [])
      /\ In d (results session_quali)
      /\ In d (results session_race).
Proof.
  intro Hrun. rewrite <- strategy_drivers. split.
  - intro H. apply in_map_iff in H. destruct H as [m [<- Hm]].
    destruct (@dataset_row_origin _ _ _ _ Hrun Hm)
      as [r [Hr [Hd [_ [Hq Hf]]]]].
    split; [|split; assumption].
    rewrite Hd. apply in_map. exact Hr.
  - intros [Hs [Hq Hf]].
    apply in_map_iff in Hs. destruct Hs as [r [Hd Hr]].
    destruct (enumerate1_has _ _ Hq) as [q Hqin].
    destruct (enumerate1_has _ _ Hf) as [f Hfin].
    rewrite (@dataset_shape _ _ _ Hrun).
    apply in_map_iff.
    exists (mkMergedRow (sr_Driver r) (Stops r) (CompoundStrategy r) q f).
    split; [exact Hd|].
    apply (Permutation_in _ (Permutation_sym (sort_by_quali_perm _))).
    apply (@merge_complete _ _ (fun lq : StrategyRow * Z => sr_Driver (fst lq))
             (fun lq f0 => mkMergedRow (sr_Driver (fst lq)) (Stops (fst lq))
                                       (CompoundStrategy (fst lq))
                                       (snd lq) f0)
             _ _ (r, q) (d, f)); [|exact Hfin|exact Hd].
    apply (@merge_complete _ _ sr_Driver (fun l q0 => (l, q0))
             _ _ r (d, q)); [exact Hr|exact Hqin|exact Hd].
Qed.

(** X8 at an input: HAM qualified and raced, ALO did not qualify. *)
Lemma dataset_drivers_witness :
  In "HAM"%string
     (map m_Driver [mkMergedRow "VER" 1 ["SOFT"; "HARD"]%string 1 2;
                    mkMergedRow "HAM" 0 ["HARD"]%string 2 1])
  /\ ~ In "ALO"%string (results sample_quali).
Proof.
  split.
  - apply (@dataset_drivers sample_race sample_quali _ "HAM"%string eq_refl).
    repeat split; simpl; try tauto. discriminate.
  - simpl. intuition discriminate.
Defined.

Lemma enumerate_nth (l : list string) :
  forall (a : nat) (d : string) (p : Z),
    In (d, p) (combine l (map Z.of_nat (seq a (List.length l)))) ->
    (Z.of_nat a <= p)%Z
    /\ nth_error l (Z.to_nat p - a) = Some d.
Proof.
  induction l as [|x l IH]; intros a d p Hin; [contradiction|].
  simpl in Hin. destruct Hin as [Heq|Hin].
  - injection Heq as -> <-. split; [lia|].
    replace (Z.to_nat (Z.of_nat a) - a)%nat with 0%nat by lia. reflexivity.
  - destruct (IH (S a) d p Hin) as [Hle Hnth]. split; [lia|].
    replace (Z.to_nat p - a)%nat with (S (Z.to_nat p - S a)) by lia.
    exact Hnth.
Qed.

Lemma enumerate1_position (l : list string) (d : string) (p : Z) :
  In (d, p) (enumerate1 l) ->
  (1 <= p)%Z /\ nth_error l (Z.to_nat (p - 1)) = Some d.
Proof.
  intro Hin. destruct (enumerate_nth l 1 d p Hin) as [Hle Hnth].
  split; [lia|].
  replace (Z.to_nat (p - 1)) with (Z.to_nat p - 1)%nat by lia. exact Hnth.
Qed.

(** X9.  In every row of the returned dataset, [QualiPosition] is the
    1-based rank of the row's driver in the qualifying classification and
    [FinishPosition] his 1-based rank in the race classification. *)
Theorem dataset_positions (session_race session_quali : Session)
        (out : list MergedRow) (m : MergedRow) :
  get_parallel_coordinates_plot_dataset session_race session_quali = Ok out ->
  In m out ->
  ((1 <= QualiPosition m)%Z
   /\ nth_error (results session_quali) (Z.to_nat (QualiPosition m - 1))
      = Some (m_Driver m))
  /\ ((1 <= FinishPosition m)%Z
      /\ nth_error (results session_race) (Z.to_nat (FinishPosition m - 1))
         = Some (m_Driver m)).
Proof.
  intros Hrun Hm. rewrite (@dataset_shape _ _ _ Hrun) in Hm.
  apply (Permutation_in _ (sort_by_quali_perm _)) in Hm.
  apply merge_In in Hm. destruct Hm as [[l q] [f [Hlq [Hf [Hdf ->]]]]].
  apply merge_In in Hlq. destruct Hlq as [l' [q' [Hl [Hq [Hdq Heq]]]]].
  injection Heq as <- ->. simpl in Hdf.
  cbn [QualiPosition FinishPosition m_Driver fst snd].
  destruct q' as [dq pq]. destruct f as [df pf]. simpl in *.
  subst dq df. split; apply enumerate1_position; assumption.
Qed.

(** X9 at an input: HAM, second in qualifying, won the race. *)
Lemma dataset_positions_witness :
  nth_error (results sample_quali) (Z.to_nat (2 - 1)) = Some "HAM"%string
  /\ nth_error (results sample_race) (Z.to_nat (1 - 1)) = Some "HAM"%string.
Proof.
  destruct (@dataset_positions sample_race sample_quali _
              (mkMergedRow "HAM" 0 ["HARD"]%string 2 1) eq_refl)
    as [[_ Hq] [_ Hf]].
  - right. left. reflexivity.
  - split; [exact Hq|exact Hf].
Defined.

End DatasetFacts.

Section StintOrder.

Import Strategy StrategySpec StintOrderSpec.
Local Open Scope Z_scope.

Lemma string_compare_trans (a b c : string) :
  String.compare a b = Lt -> String.compare b c = Lt ->
  String.compare a c = Lt.
Proof.
  intros H1 H2.
  apply OrderedTypeEx.String_as_OT.cmp_lt.
  apply OrderedTypeEx.String_as_OT.cmp_lt in H1, H2.
  exact (OrderedTypeEx.String_as_OT.lt_trans _ _ _ H1 H2).
Qed.

Lemma string_compare_refl (a : string) : String.compare a a = Eq.
Proof.
  pose proof (String.compare_antisym a a) as H.
  destruct (String.compare a a); simpl in H; congruence.
Qed.

Lemma string_compare_gt (a b : string) :
  String.compare a b = Gt -> String.compare b a = Lt.
Proof.
  intro H. rewrite String.compare_antisym, H. reflexivity.
Qed.

Lemma key_compare_lt (d1 d2 : string) (s1 s2 : Z) (c1 c2 : string) :
  key_compare (d1, s1, c1) (d2, s2, c2) = Lt
  <-> String.compare d1 d2 = Lt
      \/ (d1 = d2 /\ (s1 < s2 \/ (s1 = s2 /\ String.compare c1 c2 = Lt))).
Proof.
  simpl. destruct (String.compare d1 d2) eqn:Ed.
  - apply String.compare_eq_iff in Ed. subst d2.
    destruct (s1 ?= s2) eqn:Es.
    + apply Z.compare_eq in Es. subst s2. split.
      * intro H. right. split; [reflexivity|]. right. auto.
      * intros [H|[_ [H|[_ H]]]]; [discriminate|lia|exact H].
    + apply Z.compare_lt_iff in Es. split; [|reflexivity].
      intros _. right. split; [reflexivity|]. left. exact Es.
    + apply Z.compare_gt_iff in Es. split; [discriminate|].
      intros [H|[_ [H|[H _]]]]; [discriminate|lia|lia].
  - split; [intros _; left; reflexivity|reflexivity].
  - split; [discriminate|].
    intros [H|[H _]]; [discriminate|].
    subst d2. 
    rewrite string_compare_refl in Ed. discriminate.
Qed.

Lemma key_compare_trans (a b c : key) :
  key_compare a b = Lt -> key_compare b c = Lt -> key_compare a c = Lt.
Proof.
  destruct a as [[d1 s1] c1], b as [[d2 s2] c2], c as [[d3 s3] c3].
  rewrite !key_compare_lt.
  intros [H1|[-> H1]] [H2|[-> H2]].
  - left. exact (string_compare_trans _ _ _ H1 H2).
  - left. exact H1.
  - left. exact H2.
  - right. split; [reflexivity|].
    destruct H1 as [H1|[-> H1]], H2 as [H2|[-> H2]].
    + left. lia.
    + left. exact H1.
    + left. exact H2.
    + right. split; [reflexivity|].
      exact (string_compare_trans _ _ _ H1 H2).
Qed.

Lemma key_compare_gt (a b : key) :
  key_compare a b = Gt -> key_compare b a = Lt.
Proof.
  destruct a as [[d1 s1] c1], b as [[d2 s2] c2]. simpl.
  rewrite (String.compare_antisym d1 d2), (String.compare_antisym c1 c2),
    (Z.compare_antisym s1 s2).
  destruct (String.compare d2 d1); simpl; try congruence.
  destruct (s1 ?= s2); simpl; try congruence.
  destruct (String.compare c2 c1); simpl; congruence.
Qed.

Lemma insert_key_sorted (k : key) (ks : list key) :
  StronglySorted (fun a b => key_compare a b = Lt) ks ->
  StronglySorted (fun a b => key_compare a b = Lt) (insert_key k ks).
Proof.
  induction 1 as [|h t Ht IH Hh]; simpl.
  - constructor; constructor.
  - destruct (key_compare k h) eqn:E.
    + constructor; assumption.
    + constructor; [constructor; assumption|].
      constructor; [exact E|].
      rewrite Forall_forall in *. intros x Hx.
      exact (key_compare_trans _ _ _ E (Hh x Hx)).
    + constructor; [exact IH|].
      rewrite Forall_forall in *. intros x Hx.
      apply insert_key_In in Hx. destruct Hx as [->|Hx].
      * exact (key_compare_gt _ _ E).
      * exact (Hh x Hx).
Qed.

Lemma group_keys_sorted (ks : list key) :
  StronglySorted (fun a b => key_compare a b = Lt) (group_keys ks).
Proof.
  induction ks as [|k ks IH]; simpl; [constructor|].
  apply insert_key_sorted. exact IH.
Qed.

Lemma sorted_map (A B : Type) (R : B -> B -> Prop) (f : A -> B)
      (l : list A) :
  StronglySorted (fun x y => R (f x) (f y)) l ->
  StronglySorted R (map f l).
Proof.
  induction 1 as [|a l Hl IH Ha]; simpl; constructor; [exact IH|].
  apply Forall_forall. intros y Hy. apply in_map_iff in Hy.
  destruct Hy as [x [<- Hx]]. rewrite Forall_forall in Ha. auto.
Qed.

Lemma sorted_filter (A : Type) (R : A -> A -> Prop) (p : A -> bool)
      (l : list A) :
  StronglySorted R l -> StronglySorted R (filter p l).
Proof.
  induction 1 as [|a l Hl IH Ha]; simpl; [constructor|].
  destruct (p a); [|exact IH]. constructor; [exact IH|].
  apply Forall_forall. intros y Hy. apply filter_In in Hy.
  rewrite Forall_forall in Ha. apply Ha. tauto.
Qed.

Lemma sorted_weaken (A : Type) (R S : A -> A -> Prop) (l : list A) :
  (forall x y, In x l -> In y l -> R x y -> S x y) ->
  StronglySorted R l -> StronglySorted S l.
Proof.
  intros HRS H. induction H as [|a l Hl IH Ha]; constructor.
  - apply IH. intros x y Hx Hy. apply HRS; right; assumption.
  - rewrite Forall_forall in *. intros y Hy.
    apply HRS; [left; reflexivity|right; exact Hy|exact (Ha y Hy)].
Qed.

(** The stints of one driver, in the order of the grouped frame. *)
Lemma driver_block_sorted (d : string) (ls : list Lap) :
  StronglySorted before
    (map (fun r => (st_Stint r, st_Compound r)) (of_driver d (stints_of ls))).
Proof.
  apply sorted_map.
  apply (@sorted_weaken _
           (fun x y => key_compare (st_Driver x, st_Stint x, st_Compound x)
                                   (st_Driver y, st_Stint y, st_Compound y)
                       = Lt)).
  - intros x y Hx Hy H. apply of_driver_In in Hx, Hy.
    destruct Hx as [_ Hx], Hy as [_ Hy]. rewrite Hx, Hy in H.
    apply key_compare_lt in H. unfold before. simpl.
    destruct H as [H|[_ H]]; [|exact H].
    rewrite string_compare_refl in H. discriminate.
  - apply sorted_filter. unfold stints_of.
    apply (@sorted_map _ _
             (fun x y => key_compare
                           (st_Driver x, st_Stint x, st_Compound x)
                           (st_Driver y, st_Stint y, st_Compound y) = Lt)).
    apply (@sorted_weaken _ (fun a b => key_compare a b = Lt));
      [|apply group_keys_sorted].
    intros [[d1 s1] c1] [[d2 s2] c2] _ _ H. exact H.
Qed.

Lemma of_driver_other (d : string) (stints : list StintRow)
      (ds : list string) :
  ~ In d ds ->
  of_driver d (flat_map (fun driver => of_driver driver stints) ds) = [].
Proof.
  induction ds as [|x ds IH]; intro Hd; [reflexivity|].
  simpl. unfold of_driver at 1. rewrite filter_app.
  fold (of_driver d (of_driver x stints)).
  fold (of_driver d (flat_map (fun driver => of_driver driver stints) ds)).
  rewrite IH by (intro H; apply Hd; right; exact H).
  rewrite app_nil_r.
  destruct (of_driver d (of_driver x stints)) as [|r rest] eqn:E;
    [reflexivity|].
  assert (Hr : In r (of_driver d (of_driver x stints)))
    by (rewrite E; left; reflexivity).
  apply of_driver_In in Hr. destruct Hr as [Hr Hrd].
  apply of_driver_In in Hr. destruct Hr as [_ Hrx].
  exfalso. apply Hd. left. congruence.
Qed.

Lemma of_driver_twice (d : string) (stints : list StintRow) :
  of_driver d (of_driver d stints) = of_driver d stints.
Proof.
  unfold of_driver. induction stints as [|r rest IH]; [reflexivity|].
  simpl. destruct (String.eqb (st_Driver r) d) eqn:E; [|exact IH].
  simpl. rewrite E. f_equal. exact IH.
Qed.

(** With every driver listed once, the rows of a listed driver in [df]
    are the driver's rows of the grouped frame. *)
Lemma driver_block (session : Session) (d : string) :
  NoDup (drivers session) -> In d (drivers session) ->
  of_driver d (driver_stints session)
  = of_driver d (stints_of (laps session)).
Proof.
  unfold driver_stints. cbv zeta.
  generalize (stints_of (laps session)) as stints. intro stints.
  induction (drivers session) as [|x ds IH]; intros Hnd Hd; [contradiction|].
  inversion Hnd as [|? ? Hx Hnd']; subst.
  simpl. unfold of_driver at 1. rewrite filter_app.
  fold (of_driver d (of_driver x stints)).
  fold (of_driver d (flat_map (fun driver => of_driver driver stints) ds)).
  destruct (String.eqb_spec x d) as [->|Hne].
  - rewrite of_driver_other by exact Hx.
    rewrite app_nil_r. apply of_driver_twice.
  - destruct Hd as [Hd|Hd]; [congruence|].
    rewrite (IH Hnd' Hd).
    destruct (of_driver d (of_driver x stints)) as [|r rest] eqn:E;
      [reflexivity|].
    assert (Hr : In r (of_driver d (of_driver x stints)))
      by (rewrite E; left; reflexivity).
    apply of_driver_In in Hr. destruct Hr as [Hr Hrd].
    apply of_driver_In in Hr. destruct Hr as [_ Hrx]. congruence.
Qed.

Lemma stint_compounds_In (d : string) (p : Z * string) (ls : list Lap) :
  In p (stint_compounds d ls) <-> In (d, fst p, snd p) (valid_keys ls).
Proof.
  unfold stint_compounds, valid_keys. rewrite !in_flat_map. split.
  - intros [l [Hl Hp]]. exists l. split; [exact Hl|].
    destruct (key_of l) as [[[d' s] c]|]; [|contradiction].
    destruct (String.eqb_spec d' d) as [->|]; [|contradiction].
    destruct Hp as [<-|[]]. left. reflexivity.
  - intros [l [Hl Hk]]. exists l. split; [exact Hl|].
    destruct (key_of l) as [[[d' s] c]|]; [|contradiction].
    destruct Hk as [Hk|[]]. injection Hk as -> -> ->.
    rewrite String.eqb_refl. left. destruct p; reflexivity.
Qed.

Lemma block_pairs (d : string) (p : Z * string) (ls : list Lap) :
  In p (map (fun r => (st_Stint r, st_Compound r))
            (of_driver d (stints_of ls)))
  <-> In p (stint_compounds d ls).
Proof.
  rewrite stint_compounds_In, in_map_iff. split.
  - intros [r [<- Hr]]. apply of_driver_In in Hr. destruct Hr as [Hr <-].
    simpl. apply stints_of_In. exact Hr.
  - intro H. destruct (stints_of_complete _ _ _ _ H) as [r [Hr [H1 [H2 H3]]]].
    exists r. split; [destruct p; simpl in *; congruence|].
    apply of_driver_In. auto.
Qed.

Lemma sorted_last_greatest (l : list (Z * string)) (x : Z) :
  StronglySorted before l ->
  forall y, In y (map fst l) -> y <= last (map fst l) x.
Proof.
  induction 1 as [|a l Hl IH Ha]; intros y Hy; [contradiction|].
  destruct l as [|b l].
  - simpl in *. destruct Hy as [<-|[]]. lia.
  - change (last (map fst (a :: b :: l)) x) with (last (map fst (b :: l)) x).
    destruct Hy as [<-|Hy]; [|exact (IH y Hy)].
    assert (Hab : fst a <= fst b).
    { rewrite Forall_forall in Ha. specialize (Ha b (or_introl eq_refl)).
      unfold before in Ha. lia. }
    specialize (IH (fst b) (or_introl eq_refl)). lia.
Qed.

Lemma last_In (l : list Z) (x : Z) : l <> [] -> In (last l x) l.
Proof.
  induction l as [|a l IH]; intro H; [congruence|].
  destruct l as [|b l]; [left; reflexivity|].
  right. apply IH. discriminate.
Qed.

(** The row of a driver in the strategy frame. *)
Lemma dataset_row_strategy (session_race session_quali : Session)
      (out : list MergedRow) (m : MergedRow) :
  get_parallel_coordinates_plot_dataset session_race session_quali = Ok out ->
  In m out ->
  exists row,
    In row (driver_stints session_race)
    /\ m_Driver m = st_Driver row
    /\ m_Stops m
       = stint_max row (of_driver (st_Driver row)
                                  (driver_stints session_race)) - 1
    /\ m_CompoundStrategy m
       = map st_Compound (of_driver (st_Driver row)
                                    (driver_stints session_race)).
Proof.
  intros Hrun Hm. rewrite (@dataset_shape _ _ _ Hrun) in Hm.
  apply (Permutation_in _ (sort_by_quali_perm _)) in Hm.
  apply merge_In in Hm. destruct Hm as [[l q] [f [Hlq [Hf [Hdf ->]]]]].
  apply merge_In in Hlq. destruct Hlq as [l' [q' [Hl [Hq [Hdq Heq]]]]].
  injection Heq as <- ->.
  unfold compound_strategies in Hl. apply drop_duplicates_In in Hl.
  apply in_map_iff in Hl. destruct Hl as [row [<- Hrow]].
  exists row. split; [exact Hrow|]. repeat split.
Qed.

(** X10.  With every driver listed once in the race session, the compound
    strategy of a row of the dataset lists the compounds of the driver's
    stints in stint order: one entry for every (stint, compound) pair
    observed in the driver's laps, ordered by stint number and, within a
    stint, by compound name; the stop count is the stint number of the last
    entry, minus one. *)
Theorem strategy_follows_stints
        (session_race session_quali : Session)
        (out : list MergedRow) (m : MergedRow) :
  NoDup (drivers session_race) ->
  get_parallel_coordinates_plot_dataset session_race session_quali = Ok out ->
  In m out ->
  exists sc,
    m_CompoundStrategy m = map snd sc
    /\ sc <> []
    /\ StronglySorted before sc
    /\ (forall p,
          In p sc
          <-> In p (stint_compounds (m_Driver m) (laps session_race)))
    /\ m_Stops m + 1 = last (map fst sc) 0.
Proof.
  intros Hnd Hrun Hm.
  destruct (@dataset_row_strategy _ _ _ _ Hrun Hm)
    as [row [Hrow [Hd [Hstops Hcs]]]].
  pose proof Hrow as Hlisted. apply driver_stints_In in Hlisted.
  destruct Hlisted as [Hlisted Hgrouped].
  rewrite (@driver_block session_race _ Hnd Hlisted) in Hstops, Hcs.
  set (block := of_driver (st_Driver row) (stints_of (laps session_race)))
    in *.
  assert (Hin : In row block) by (apply of_driver_In; auto).
  exists (map (fun r => (st_Stint r, st_Compound r)) block).
  assert (Hfst : map fst (map (fun r => (st_Stint r, st_Compound r)) block)
                 = map st_Stint block)
    by (rewrite map_map; reflexivity).
  split; [rewrite Hcs, map_map; reflexivity|].
  split; [destruct block; [contradiction|discriminate]|].
  split; [apply driver_block_sorted|].
  split; [intro p; rewrite Hd; apply block_pairs|].
  rewrite Hstops. unfold stint_max.
  pose proof (@sorted_last_greatest _ 0
                (driver_block_sorted (st_Driver row) (laps session_race)))
    as Hgreatest.
  fold block in Hgreatest. rewrite Hfst in *.
  assert (Hne : map st_Stint block <> [])
    by (destruct block; [contradiction|discriminate]).
  pose proof (last_In 0 Hne) as Hlast.
  destruct (max_fold_upper (st_Stint row) (map st_Stint block)) as [_ Hup].
  specialize (Hup _ Hlast).
  assert (Hmax : In (fold_right Z.max (st_Stint row) (map st_Stint block))
                    (map st_Stint block)).
  { destruct (max_fold_attained (st_Stint row) (map st_Stint block))
      as [->|H]; [apply in_map; exact Hin|exact H]. }
  specialize (Hgreatest _ Hmax). lia.
Qed.

(** X10 at an input: HAM's laps in any order give MEDIUM, HARD, SOFT and
    two stops. *)
Lemma strategy_follows_stints_witness :
  exists sc,
    ["MEDIUM"; "HARD"; "SOFT"]%string = map snd sc
    /\ sc <> []
    /\ StronglySorted before sc
    /\ (forall p,
          In p sc
          <-> In p (stint_compounds "HAM" (laps shuffled_race)))
    /\ 2 + 1 = last (map fst sc) 0.
Proof.
  apply (@strategy_follows_stints
           shuffled_race shuffled_race
           [mkMergedRow "HAM" 2 ["MEDIUM"; "HARD"; "SOFT"]%string 1 1]
           (mkMergedRow "HAM" 2 ["MEDIUM"; "HARD"; "SOFT"]%string 1 1)).
  - repeat constructor. intros [].
  - reflexivity.
  - left. reflexivity.
Defined.

End StintOrder.

Section BarFacts.

Import Py Corners Compare CompareSpec Plots.

Lemma frame_numbers (telemetry : list Tick) (corners : list Corner)
      (out : Frame) :
  get_avg_speed_between_corners telemetry corners = Ok out ->
  Forall (fun kr => corner_number (snd kr) = fst kr) out.
Proof.
  unfold get_avg_speed_between_corners. intro Hout.
  destruct (corners_loop telemetry corners init) as [st|] eqn:Hrun;
    simpl in Hout; [|discriminate].
  injection Hout as <-.
  destruct (corners_loop_labels _ _ _ Hrun) as [_ Hnum].
  apply Hnum. constructor.
Qed.

Lemma loc_Some (k : Z) (r : Row) (df : Frame) :
  loc k df = Some r -> In (k, r) df.
Proof.
  unfold loc. intro H.
  destruct (find (fun kr => (fst kr =? k)%Z) df) as [[k' r']|] eqn:E;
    [|discriminate].
  injection H as ->. apply find_some in E. destruct E as [Hin Hk].
  simpl in Hk. apply Z.eqb_eq in Hk. subst k'. exact Hin.
Qed.

Lemma plot_frames (session : Session) (driver1 driver2 : string)
      (bars : list Bar) :
  plot_speed_diff_drivers session driver1 driver2 = Ok bars ->
  exists df1 df2,
    get_avg_speed_between_corners
      (fastest_lap_telemetry session driver1)
      (circuit_corners session) = Ok df1
    /\ get_avg_speed_between_corners
         (fastest_lap_telemetry session driver2)
         (circuit_corners session) = Ok df2
    /\ bars = map (fun k => bar_of (snd (join_row df1 df2 k)))
                  (concat_index df1 df2).
Proof.
  unfold plot_speed_diff_drivers, get_avg_speed_diff_drivers. intro H.
  destruct (get_avg_speed_between_corners
              (fastest_lap_telemetry session driver1)
              (circuit_corners session)) as [df1|] eqn:E1;
    simpl in H; [|discriminate].
  destruct (get_avg_speed_between_corners
              (fastest_lap_telemetry session driver2)
              (circuit_corners session)) as [df2|] eqn:E2;
    simpl in H; [|discriminate].
  destruct (String.eqb driver1 driver2); simpl in H; [discriminate|].
  injection H as <-. exists df1, df2.
  split; [reflexivity|]. split; [reflexivity|].
  unfold diff_frames. rewrite map_map. reflexivity.
Qed.

Lemma color_green (d : option Q) :
  color_of d = "green"%string <-> exists q, d = Some q /\ 0 <= q.
Proof.
  unfold color_of. destruct d as [q|].
  - destruct (Qle_bool 0 q) eqn:E.
    + apply Qle_bool_iff in E. split; [|reflexivity].
      intros _. exists q. auto.
    + split; [discriminate|]. intros [q' [Hq Hle]]. injection Hq as <-.
      apply Qle_bool_iff in Hle. congruence.
  - split; [discriminate|]. intros [q [Hq _]]. discriminate.
Qed.

Lemma color_cases (d : option Q) :
  color_of d = "green"%string \/ color_of d = "red"%string.
Proof.
  unfold color_of. destruct d as [q|]; [|right; reflexivity].
  destruct (Qle_bool 0 q); [left|right]; reflexivity.
Qed.

(** X11.  The bar trace of [plot_speed_diff_drivers] has one bar for every
    corner number that either driver has a row for.  A bar is green exactly
    when both drivers have a row for the corner and the first driver's
    average is at least the second's; every other bar is red.  A corner
    only one of the drivers has a row for gives a bar without height, and
    without a position on the axis when it is the first driver that lacks
    the row. *)
Theorem speed_diff_bars (session : Session) (driver1 driver2 : string)
        (bars : list Bar) :
  plot_speed_diff_drivers session driver1 driver2 = Ok bars ->
  exists df1 df2,
    get_avg_speed_between_corners
      (fastest_lap_telemetry session driver1)
      (circuit_corners session) = Ok df1
    /\ get_avg_speed_between_corners
         (fastest_lap_telemetry session driver2)
         (circuit_corners session) = Ok df2
    /\ Forall2
         (fun k bar =>
            (marker_color bar = "green"%string
             <-> exists r1 r2, loc k df1 = Some r1 /\ loc k df2 = Some r2
                               /\ avg_speed r2 <= avg_speed r1)
            /\ (marker_color bar = "green"%string
                \/ marker_color bar = "red"%string)
            /\ (bar_y bar = None <-> loc k df1 = None \/ loc k df2 = None)
            /\ (bar_x bar = None <-> loc k df1 = None))
         (concat_index df1 df2) bars.
Proof.
  intro H. destruct (plot_frames _ _ _ H) as [df1 [df2 [H1 [H2 ->]]]].
  exists df1, df2. split; [exact H1|]. split; [exact H2|].
  clear H.
  induction (concat_index df1 df2) as [|k ks IH]; simpl; [constructor|].
  constructor; [|exact IH].
  unfold bar_of, join_row. cbn [snd marker_color bar_x bar_y speed_diff
                                 corner_number_1].
  split; [|split; [apply color_cases|]].
  - rewrite color_green. split.
    + intros [q [Hq Hle]].
      destruct (loc k df1) as [r1|]; [|discriminate].
      destruct (loc k df2) as [r2|]; [|discriminate].
      simpl in Hq. injection Hq as <-. exists r1, r2.
      split; [reflexivity|]. split; [reflexivity|].
      apply (Qplus_le_l _ _ (- avg_speed r2)).
      rewrite Qplus_opp_r. exact Hle.
    + intros [r1 [r2 [-> [-> Hle]]]]. simpl.
      exists (avg_speed r1 - avg_speed r2). split; [reflexivity|].
      apply (Qplus_le_l _ _ (- avg_speed r2)) in Hle.
      rewrite Qplus_opp_r in Hle. exact Hle.
  - destruct (loc k df1) as [r1|], (loc k df2) as [r2|]; simpl.
    + split; split; try discriminate. intros [H0|H0]; discriminate.
    + split; split; try discriminate; auto.
    + split; split; auto.
    + split; split; auto.
Qed.

(** X11 at an input: VER passed both corners, HAM the first only. *)
Lemma speed_diff_bars_witness :
  exists df1 df2,
    get_avg_speed_between_corners
      (fastest_lap_telemetry short_telemetry_session "VER")
      (circuit_corners short_telemetry_session) = Ok df1
    /\ get_avg_speed_between_corners
         (fastest_lap_telemetry short_telemetry_session "HAM")
         (circuit_corners short_telemetry_session) = Ok df2
    /\ Forall2
         (fun k bar =>
            (marker_color bar = "green"%string
             <-> exists r1 r2, loc k df1 = Some r1 /\ loc k df2 = Some r2
                               /\ avg_speed r2 <= avg_speed r1)
            /\ (marker_color bar = "green"%string
                \/ marker_color bar = "red"%string)
            /\ (bar_y bar = None <-> loc k df1 = None \/ loc k df2 = None)
            /\ (bar_x bar = None <-> loc k df1 = None))
         (concat_index df1 df2)
         [mkBar (Some 1%Z) (Some ((20000 # 100) - (19000 # 100)))
                "green" (Some (round2 ((20000 # 100) - (19000 # 100))));
          mkBar (Some 2%Z) None "red" None].
Proof.
  apply (@speed_diff_bars short_telemetry_session "VER" "HAM").
  reflexivity.
Defined.

(** X12.  Swapping the two drivers negates the height of every bar that
    both drivers have a row for, and changes its colour unless the two
    averages are equal: green becomes red and red becomes green, a bar of
    height 0 is green both ways. *)
Theorem swapped_bars_change_colour
        (session : Session) (driver1 driver2 : string)
        (bars12 bars21 : list Bar) (b12 b21 : Bar) (k : Z) :
  plot_speed_diff_drivers session driver1 driver2 = Ok bars12 ->
  plot_speed_diff_drivers session driver2 driver1 = Ok bars21 ->
  In b12 bars12 -> In b21 bars21 ->
  bar_x b12 = Some k -> bar_x b21 = Some k ->
  exists q,
    bar_y b12 = Some q
    /\ (exists q', bar_y b21 = Some q' /\ q' == - q)
    /\ (marker_color b12 = "green"%string <-> 0 <= q)
    /\ (marker_color b21 = "green"%string <-> q <= 0)
    /\ (marker_color b12 = marker_color b21 <-> q == 0).
Proof.
  intros H12 H21 Hb12 Hb21 Hx12 Hx21.
  destruct (plot_frames _ _ _ H12) as [df1 [df2 [H1 [H2 ->]]]].
  destruct (plot_frames _ _ _ H21) as [df2' [df1' [H2' [H1' ->]]]].
  rewrite H2 in H2'. injection H2' as <-.
  rewrite H1 in H1'. injection H1' as <-.
  pose proof (frame_numbers _ _ H1) as Hn1.
  pose proof (frame_numbers _ _ H2) as Hn2.
  rewrite Forall_forall in Hn1, Hn2.
  apply in_map_iff in Hb12. destruct Hb12 as [k1 [<- _]].
  apply in_map_iff in Hb21. destruct Hb21 as [k2 [<- _]].
  clear H12 H21.
  unfold bar_of, join_row in Hx12, Hx21. cbn [snd bar_x] in Hx12, Hx21.
  destruct (loc k1 df1) as [r1|] eqn:E1; [|discriminate].
  destruct (loc k2 df2) as [r2|] eqn:E2; [|discriminate].
  simpl in Hx12, Hx21. injection Hx12 as Hx12. injection Hx21 as Hx21.
  assert (Hk1 : k1 = k).
  { rewrite <- Hx12. symmetry. exact (Hn1 _ (loc_Some _ _ E1)). }
  assert (Hk2 : k2 = k).
  { rewrite <- Hx21. symmetry. exact (Hn2 _ (loc_Some _ _ E2)). }
  rewrite Hk1 in E1 |- *. rewrite Hk2 in E2 |- *.
  unfold bar_of, join_row.
  cbn [snd marker_color bar_x bar_y speed_diff corner_number_1].
  rewrite E1, E2. cbn [option_map sub_cell].
  set (a1 := avg_speed r1). set (a2 := avg_speed r2).
  exists (a1 - a2). split; [reflexivity|].
  split; [exists (a2 - a1); split; [reflexivity|ring]|].
  assert (G12 : color_of (Some (a1 - a2)) = "green"%string <-> 0 <= a1 - a2).
  { rewrite color_green. split.
    - intros [q [Hq Hle]]. injection Hq as <-. exact Hle.
    - intro Hle. eexists. split; [reflexivity|exact Hle]. }
  assert (G21 : color_of (Some (a2 - a1)) = "green"%string <-> a1 - a2 <= 0).
  { rewrite color_green, (Qle_minus_iff (a1 - a2) 0).
    assert (E : 0 + - (a1 - a2) == a2 - a1) by ring.
    rewrite E. split.
    - intros [q [Hq Hle]]. injection Hq as <-. exact Hle.
    - intro Hle. eexists. split; [reflexivity|exact Hle]. }
  split; [exact G12|]. split; [exact G21|].
  destruct (color_cases (Some (a1 - a2))) as [C12|C12],
           (color_cases (Some (a2 - a1))) as [C21|C21];
    rewrite C12, C21.
  - split; [intros _|reflexivity].
    apply Qle_antisym; [apply G21; exact C21|apply G12; exact C12].
  - split; [discriminate|]. intro Hz. exfalso.
    assert (Hg : color_of (Some (a2 - a1)) = "green"%string)
      by (apply G21; rewrite Hz; apply Qle_refl).
    congruence.
  - split; [discriminate|]. intro Hz. exfalso.
    assert (Hg : color_of (Some (a1 - a2)) = "green"%string)
      by (apply G12; rewrite Hz; apply Qle_refl).
    congruence.
  - split; [intros _|reflexivity]. exfalso.
    destruct (Qlt_le_dec (a1 - a2) 0) as [Hlt|Hge].
    + assert (Hg : color_of (Some (a2 - a1)) = "green"%string)
        by (apply G21; apply Qlt_le_weak; exact Hlt).
      congruence.
    + assert (Hg : color_of (Some (a1 - a2)) = "green"%string)
        by (apply G12; exact Hge).
      congruence.
Qed.

(** X12 at an input: corner 1 of the short session, VER against HAM and
    HAM against VER. *)
Lemma swapped_bars_change_colour_witness :
  exists q,
    Some ((20000 # 100) - (19000 # 100)) = Some q
    /\ (exists q', Some ((19000 # 100) - (20000 # 100)) = Some q'
                   /\ q' == - q)
    /\ ("green"%string = "green"%string <-> 0 <= q)
    /\ ("red"%string = "green"%string <-> q <= 0)
    /\ ("green"%string = "red"%string <-> q == 0).
Proof.
  apply (@swapped_bars_change_colour
           short_telemetry_session "VER" "HAM"
           [mkBar (Some 1%Z) (Some ((20000 # 100) - (19000 # 100)))
                  "green" (Some (round2 ((20000 # 100) - (19000 # 100))));
            mkBar (Some 2%Z) None "red" None]
           [mkBar (Some 1%Z) (Some ((19000 # 100) - (20000 # 100)))
                  "red" (Some (round2 ((19000 # 100) - (20000 # 100))));
            mkBar None None "red" None]
           (mkBar (Some 1%Z) (Some ((20000 # 100) - (19000 # 100)))
                  "green" (Some (round2 ((20000 # 100) - (19000 # 100)))))
           (mkBar (Some 1%Z) (Some ((19000 # 100) - (20000 # 100)))
                  "red" (Some (round2 ((19000 # 100) - (20000 # 100)))))
           1%Z).
  - reflexivity.
  - reflexivity.
  - left. reflexivity.
  - left. reflexivity.
  - reflexivity.
  - reflexivity.
Defined.

End BarFacts.

Section AxisFacts.

Import Exc Strategy Parcoords.

Lemma traverse_length (E A B : Type) (f : A -> Exc.outcome E B)
      (l : list A) :
  forall out, traverse f l = Returns out -> List.length out = List.length l.
Proof.
  induction l as [|x l IH]; intros out H; simpl in H.
  - injection H as <-. reflexivity.
  - destruct (f x) as [y|]; simpl in H; [|discriminate].
    destruct (traverse f l) as [ys|]; simpl in H; [|discriminate].
    injection H as <-. simpl. f_equal. apply IH. reflexivity.
Qed.

Lemma traverse_total (E A B : Type) (f : A -> Exc.outcome E B)
      (l : list A) :
  (forall x, In x l -> exists y, f x = Returns y) ->
  exists out, traverse f l = Returns out.
Proof.
  induction l as [|x l IH]; intro H; [exists []; reflexivity|].
  destruct (H x (or_introl eq_refl)) as [y Hy].
  destruct IH as [ys Hys]; [intros z Hz; apply H; right; exact Hz|].
  exists (y :: ys). simpl. rewrite Hy. simpl. rewrite Hys. reflexivity.
Qed.

Lemma unique_In (x : list string) (l : list (list string)) :
  forall seen, In x (unique seen l) <-> In x l /\ ~ In x seen.
Proof.
  induction l as [|y l IH]; intro seen; simpl; [tauto|].
  destruct (in_dec strategy_eq_dec y seen) as [Hy|Hy].
  - rewrite IH. split; [tauto|].
    intros [[->|H] Hs]; [contradiction|auto].
  - simpl. rewrite IH. simpl. split.
    + intros [->|[H Hs]]; [auto|]. split; [auto|tauto].
    + intros [[->|H] Hs]; [auto|].
      destruct (strategy_eq_dec y x) as [->|Hne]; [auto|].
      right. split; [exact H|]. intros [E|E]; [congruence|contradiction].
Qed.

Lemma unique_NoDup (l : list (list string)) :
  forall seen, NoDup (unique seen l).
Proof.
  induction l as [|y l IH]; intro seen; simpl; [constructor|].
  destruct (in_dec strategy_eq_dec y seen); [apply IH|].
  constructor; [|apply IH].
  rewrite unique_In. intros [_ H]. apply H. left. reflexivity.
Qed.

Lemma dict_set_fresh (key : list string) (value : nat) (d : dict) :
  ~ In key (map fst d) -> dict_set key value d = d ++ [(key, value)].
Proof.
  induction d as [|[k v] d IH]; intro H; [reflexivity|].
  simpl. destruct (strategy_eq_dec k key) as [->|Hne].
  - exfalso. apply H. left. reflexivity.
  - rewrite IH; [reflexivity|]. intro Hin. apply H. right. exact Hin.
Qed.

(** The dictionary of a list without repetition holds its entries in
    order, each with its position. *)
Lemma dict_of_distinct (keys : list (list string)) :
  forall (d : dict) (start : nat),
    NoDup (map fst d ++ keys) ->
    fold_left (fun d il => dict_set (snd il) (fst il) d)
              (combine (seq start (List.length keys)) keys) d
    = d ++ combine keys (seq start (List.length keys)).
Proof.
  induction keys as [|k keys IH]; intros d start Hnd; simpl.
  - rewrite app_nil_r. reflexivity.
  - rewrite dict_set_fresh.
    + rewrite IH.
      * rewrite <- app_assoc. reflexivity.
      * rewrite map_app. simpl. rewrite <- app_assoc. exact Hnd.
    + intro Hin. apply NoDup_remove_2 in Hnd. apply Hnd.
      apply in_or_app. left. exact Hin.
Qed.

Lemma dict_get_position (keys : list (list string)) (key : list string) :
  forall (start i : nat),
    NoDup keys -> nth_error keys i = Some key ->
    dict_get key (combine keys (seq start (List.length keys)))
    = Returns (start + i)%nat.
Proof.
  unfold dict_get.
  induction keys as [|k keys IH]; intros start i Hnd Hi;
    [destruct i; discriminate|].
  inversion Hnd as [|? ? Hk Hnd']; subst. simpl.
  destruct i as [|i].
  - injection Hi as ->. destruct (strategy_eq_dec key key); [|congruence].
    simpl. f_equal. symmetry. apply Nat.add_0_r.
  - simpl in Hi. destruct (strategy_eq_dec k key) as [->|Hne].
    + exfalso. apply Hk. exact (nth_error_In _ _ Hi).
    + rewrite (IH (S start) i Hnd' Hi). f_equal. symmetry.
      apply Nat.add_succ_r.
Qed.

Lemma first_letters_returns (item : list string) :
  ~ In ""%string item -> exists l, first_letters item = Returns l.
Proof.
  intro H. apply traverse_total. intros w Hw.
  destruct w as [|c w]; [contradiction|]. eexists. reflexivity.
Qed.

Lemma values_decode (keys strategies : list (list string))
      (idx : list nat) :
  NoDup keys ->
  traverse (fun x => dict_get x (combine keys (seq 0 (List.length keys))))
           strategies = Returns idx ->
  (forall s, In s strategies -> In s keys) ->
  Forall2 (fun s i => nth_error keys i = Some s) strategies idx.
Proof.
  intro Hnd. revert idx.
  induction strategies as [|s rest IH]; intros idx H Hin; simpl in H.
  - injection H as <-. constructor.
  - destruct (In_nth_error _ _ (Hin s (or_introl eq_refl))) as [i Hi].
    rewrite (@dict_get_position keys s 0 i Hnd Hi) in H. simpl in H.
    destruct (traverse _ rest) as [ys|] eqn:E; simpl in H; [|discriminate].
    injection H as <-. constructor; [exact Hi|].
    apply IH; [reflexivity|]. intros x Hx. apply Hin. right. exact Hx.
Qed.

Lemma Forall2_of_map (A B C : Type) (f : A -> B) (P : B -> C -> Prop)
      (l : list A) :
  forall idx,
    Forall2 P (map f l) idx -> Forall2 (fun x i => P (f x) i) l idx.
Proof.
  induction l as [|x l IH]; intros idx H; inversion H; subst;
    constructor; auto.
Qed.

Lemma Forall2_nth (A B : Type) (P : A -> B -> Prop) (l : list A)
      (idx : list B) :
  Forall2 P l idx ->
  forall j x i, nth_error l j = Some x -> nth_error idx j = Some i -> P x i.
Proof.
  induction 1 as [|x0 i0 l idx H0 _ IH]; intros j x i Hx Hi;
    [destruct j; discriminate|].
  destruct j as [|j]; simpl in Hx, Hi.
  - injection Hx as <-. injection Hi as <-. exact H0.
  - exact (IH _ _ _ Hx Hi).
Qed.

Lemma values_return (keys strategies : list (list string)) :
  NoDup keys ->
  (forall s, In s strategies -> In s keys) ->
  exists idx,
    traverse (fun x => dict_get x (combine keys (seq 0 (List.length keys))))
             strategies = Returns idx.
Proof.
  intros Hnd Hin. apply traverse_total. intros s Hs.
  destruct (In_nth_error _ _ (Hin s Hs)) as [i Hi].
  exists (0 + i)%nat. exact (@dict_get_position keys s 0 i Hnd Hi).
Qed.

(** X13.  When no compound name is empty, the strategy axis of the
    parallel coordinates chart is built without error, and the index column
    decodes back to the strategies: the strategies listed have no
    repetition, there is one tick (with its text) per strategy, the value of
    every row is the position of its strategy in that list, every tick is
    the value of some row, and two rows have the same value exactly when
    they have the same strategy. *)
Theorem strategy_axis_decodes (df : list MergedRow) :
  Forall (fun m => ~ In ""%string (m_CompoundStrategy m)) df ->
  exists ax,
    strategy_axis df = Returns ax
    /\ NoDup (unique_lists df)
    /\ tickvals ax = seq 0 (List.length (unique_lists df))
    /\ List.length (ticktext ax) = List.length (unique_lists df)
    /\ Forall2 (fun m i =>
                  nth_error (unique_lists df) i = Some (m_CompoundStrategy m))
               df (values ax)
    /\ (forall i, (i < List.length (unique_lists df))%nat ->
                  In i (values ax))
    /\ (forall j1 j2 m1 m2 i1 i2,
           nth_error df j1 = Some m1 -> nth_error (values ax) j1 = Some i1 ->
           nth_error df j2 = Some m2 -> nth_error (values ax) j2 = Some i2 ->
           (i1 = i2 <-> m_CompoundStrategy m1 = m_CompoundStrategy m2)).
Proof.
  intro Hne.
  assert (Hnd : NoDup (unique_lists df)) by apply unique_NoDup.
  assert (Hin : forall s, In s (map m_CompoundStrategy df)
                          -> In s (unique_lists df)).
  { intros s Hs. apply unique_In. split; [exact Hs|intros []]. }
  assert (Hmap : unique_list_map (unique_lists df)
                 = combine (unique_lists df)
                           (seq 0 (List.length (unique_lists df)))).
  { unfold unique_list_map. rewrite dict_of_distinct; [reflexivity|].
    exact Hnd. }
  destruct (@traverse_total _ _ _ first_letters (unique_lists df))
    as [reduced Hred].
  { intros s Hs. apply first_letters_returns.
    apply unique_In in Hs. destruct Hs as [Hs _].
    apply in_map_iff in Hs. destruct Hs as [m [<- Hm]].
    rewrite Forall_forall in Hne. exact (Hne m Hm). }
  destruct (@values_return (unique_lists df) (map m_CompoundStrategy df)
                           Hnd Hin) as [idx Hidx].
  pose proof (@values_decode (unique_lists df) (map m_CompoundStrategy df)
                             idx Hnd Hidx Hin) as Hdec.
  assert (Hrows : Forall2 (fun m i => nth_error (unique_lists df) i
                                      = Some (m_CompoundStrategy m))
                          df idx).
  { exact (@Forall2_of_map _ _ _ m_CompoundStrategy
             (fun s i => nth_error (unique_lists df) i = Some s)
             df idx Hdec). }
  exists (mkStrategyAxis (seq 0 (List.length (unique_lists df)))
                         (map (join ", ") reduced) idx).
  split.
  { unfold strategy_axis. cbv zeta. rewrite Hred. cbn [bind].
    rewrite Hmap, Hidx. reflexivity. }
  split; [exact Hnd|]. split; [reflexivity|].
  split; [cbn [ticktext]; rewrite length_map;
          exact (traverse_length _ _ Hred)|].
  cbn [values]. split; [exact Hrows|].
  assert (Hsame : forall j m i,
             nth_error df j = Some m -> nth_error idx j = Some i ->
             nth_error (unique_lists df) i = Some (m_CompoundStrategy m)).
  { intros j m i Hm Hi. exact (Forall2_nth Hrows j Hm Hi). }
  split.
  - intros i Hi.
    destruct (nth_error (unique_lists df) i) as [s|] eqn:Es;
      [|apply nth_error_None in Es; lia].
    pose proof (nth_error_In _ _ Es) as Hs.
    apply unique_In in Hs. destruct Hs as [Hs _].
    apply in_map_iff in Hs. destruct Hs as [m [Hms Hm]].
    destruct (In_nth_error _ _ Hm) as [j Hj].
    assert (Hlen : List.length idx = List.length df).
    { symmetry. exact (Forall2_length Hrows). }
    destruct (nth_error idx j) as [i'|] eqn:Ei.
    + pose proof (Hsame _ _ _ Hj Ei) as Hi'. rewrite Hms in Hi'.
      assert (i' = i).
      { apply (proj1 (NoDup_nth_error (unique_lists df)) Hnd).
        - apply nth_error_Some. congruence.
        - congruence. }
      subst i'. exact (nth_error_In _ _ Ei).
    + apply nth_error_None in Ei.
      assert (j < List.length df)%nat by (apply nth_error_Some; congruence).
      lia.
  - intros j1 j2 m1 m2 i1 i2 Hm1 Hi1 Hm2 Hi2.
    pose proof (Hsame _ _ _ Hm1 Hi1) as H1.
    pose proof (Hsame _ _ _ Hm2 Hi2) as H2.
    split.
    + intros ->. congruence.
    + intro E. apply (proj1 (NoDup_nth_error (unique_lists df)) Hnd).
      * apply nth_error_Some. congruence.
      * congruence.
Qed.

(** X13 at an input: VER and ALO on soft then hard, HAM on medium then
    hard. *)
Lemma strategy_axis_decodes_witness :
  strategy_axis sample_dataset
  = Returns (mkStrategyAxis [0; 1]%nat ["S, H"; "M, H"]%string
                            [0; 1; 0]%nat)
  /\ exists ax,
       strategy_axis sample_dataset = Returns ax
       /\ NoDup (unique_lists sample_dataset)
       /\ tickvals ax = seq 0 (List.length (unique_lists sample_dataset))
       /\ List.length (ticktext ax)
          = List.length (unique_lists sample_dataset)
       /\ Forall2 (fun m i =>
                     nth_error (unique_lists sample_dataset) i
                     = Some (m_CompoundStrategy m))
                  sample_dataset (values ax)
       /\ (forall i, (i < List.length (unique_lists sample_dataset))%nat ->
                     In i (values ax))
       /\ (forall j1 j2 m1 m2 i1 i2,
              nth_error sample_dataset j1 = Some m1 ->
              nth_error (values ax) j1 = Some i1 ->
              nth_error sample_dataset j2 = Some m2 ->
              nth_error (values ax) j2 = Some i2 ->
              (i1 = i2 <-> m_CompoundStrategy m1 = m_CompoundStrategy m2)).
Proof.
  split; [reflexivity|].
  apply (@strategy_axis_decodes sample_dataset).
  repeat constructor; simpl; intuition discriminate.
Defined.

End AxisFacts.

Section EventFacts.

Import Exc Events EventSpec.
Local Open Scope Z_scope.

Lemma digit_is_plain (c : ascii) :
  LapTime.is_digit c = true ->
  is_space c = false /\ Ascii.eqb c ":" = false
  /\ Ascii.eqb c "-" = false /\ Ascii.eqb c "+" = false.
Proof.
  destruct c as [[] [] [] [] [] [] [] []]; vm_compute; intuition congruence.
Qed.

Lemma uint_digits (d : Decimal.uint) :
  all_chars LapTime.is_digit (DecimalString.NilEmpty.string_of_uint d) = true.
Proof.
  induction d; simpl; try reflexivity; exact IHd.
Qed.

Lemma int_digits_acc (d : Decimal.uint) :
  forall acc : positive,
    int_digits (DecimalString.NilEmpty.string_of_uint d) (Z.pos acc) true
    = Some (Z.pos (Pos.of_uint_acc d acc)).
Proof.
  induction d; intro acc;
    cbn [DecimalString.NilEmpty.string_of_uint int_digits Pos.of_uint_acc];
    try reflexivity.
  all: match goal with
       | |- context [LapTime.is_digit ?c] =>
           change (LapTime.is_digit c) with true;
           let v := eval vm_compute in (LapTime.digit_value c) in
           change (LapTime.digit_value c) with v
       end.
  all: cbv iota; rewrite <- IHd; f_equal; lia.
Qed.

Lemma int_digits_zero (d : Decimal.uint) :
  forall b : bool,
    (d = Decimal.Nil -> b = true) ->
    int_digits (DecimalString.NilEmpty.string_of_uint d) 0 b
    = Some (Z.of_N (Pos.of_uint d)).
Proof.
  induction d; intros b Hb;
    cbn [DecimalString.NilEmpty.string_of_uint int_digits Pos.of_uint].
  - rewrite (Hb eq_refl). reflexivity.
  - change (LapTime.is_digit "0") with true. cbv iota.
    change (10 * 0 + LapTime.digit_value "0") with 0.
    apply IHd. reflexivity.
  - exact (int_digits_acc d 1).
  - exact (int_digits_acc d 2).
  - exact (int_digits_acc d 3).
  - exact (int_digits_acc d 4).
  - exact (int_digits_acc d 5).
  - exact (int_digits_acc d 6).
  - exact (int_digits_acc d 7).
  - exact (int_digits_acc d 8).
  - exact (int_digits_acc d 9).
Qed.

Lemma lstrip_plain (s : string) :
  all_chars (fun c => negb (is_space c)) s = true -> lstrip s = s.
Proof.
  destruct s as [|c s]; [reflexivity|]. simpl.
  destruct (is_space c); [discriminate|reflexivity].
Qed.

Lemma rstrip_plain (s : string) :
  all_chars (fun c => negb (is_space c)) s = true -> rstrip s = s.
Proof.
  induction s as [|c s IH]; [reflexivity|]. simpl. intro H.
  apply andb_true_iff in H. destruct H as [Hc Hs].
  rewrite (IH Hs). destruct s; [|reflexivity].
  destruct (is_space c); [discriminate|reflexivity].
Qed.

Lemma strip_plain (s : string) :
  all_chars (fun c => negb (is_space c)) s = true -> strip s = s.
Proof.
  intro H. unfold strip. rewrite (@lstrip_plain s H).
  exact (@rstrip_plain s H).
Qed.

Lemma all_chars_weaken (p q : ascii -> bool) (s : string) :
  (forall c, p c = true -> q c = true) ->
  all_chars p s = true -> all_chars q s = true.
Proof.
  intro Hpq. induction s as [|c s IH]; [reflexivity|]. simpl.
  intro H. apply andb_true_iff in H. destruct H as [Hc Hs].
  rewrite (Hpq c Hc), (IH Hs). reflexivity.
Qed.

(** [str(n)]: an optional minus sign and digits. *)
Lemma str_shape (n : Z) :
  exists d : Decimal.uint,
    d <> Decimal.Nil
    /\ (str n = DecimalString.NilEmpty.string_of_uint d
        \/ str n = String "-" (DecimalString.NilEmpty.string_of_uint d))
    /\ (0 <= n -> str n = DecimalString.NilEmpty.string_of_uint d
                  /\ Z.of_N (Pos.of_uint d) = n)
    /\ (n < 0 -> str n = String "-"
                                (DecimalString.NilEmpty.string_of_uint d)
                 /\ Z.of_N (Pos.of_uint d) = - n).
Proof.
  destruct n as [|p|p]; unfold str; simpl.
  - exists (Decimal.D0 Decimal.Nil). split; [discriminate|].
    split; [left; reflexivity|]. split; [intros _|lia].
    split; reflexivity.
  - exists (Pos.to_uint p).
    pose proof (DecimalPos.Unsigned.to_uint_nonnil p) as Hnn.
    assert (Hs : DecimalString.NilZero.string_of_uint (Pos.to_uint p)
                 = DecimalString.NilEmpty.string_of_uint (Pos.to_uint p)).
    { unfold DecimalString.NilZero.string_of_uint.
      destruct (Pos.to_uint p); [congruence|reflexivity..]. }
    split; [exact Hnn|]. split; [left; exact Hs|].
    split; [intros _|lia]. split; [exact Hs|].
    rewrite DecimalPos.Unsigned.of_to. reflexivity.
  - exists (Pos.to_uint p).
    pose proof (DecimalPos.Unsigned.to_uint_nonnil p) as Hnn.
    assert (Hs : DecimalString.NilZero.string_of_uint (Pos.to_uint p)
                 = DecimalString.NilEmpty.string_of_uint (Pos.to_uint p)).
    { unfold DecimalString.NilZero.string_of_uint.
      destruct (Pos.to_uint p); [congruence|reflexivity..]. }
    split; [exact Hnn|]. split; [right; rewrite Hs; reflexivity|].
    split; [lia|]. intros _. split; [rewrite Hs; reflexivity|].
    rewrite DecimalPos.Unsigned.of_to. reflexivity.
Qed.

Lemma str_chars (p : ascii -> bool) (n : Z) :
  p "-"%char = true ->
  (forall c, LapTime.is_digit c = true -> p c = true) ->
  all_chars p (str n) = true.
Proof.
  intros Hminus Hdigit.
  destruct (str_shape n) as [d [_ [[->| ->] _]]]; simpl.
  - exact (@all_chars_weaken _ _ _ Hdigit (uint_digits d)).
  - rewrite Hminus.
    exact (@all_chars_weaken _ _ _ Hdigit (uint_digits d)).
Qed.

Lemma str_no_space (n : Z) :
  all_chars (fun c => negb (is_space c)) (str n) = true.
Proof.
  apply str_chars; [reflexivity|]. intros c Hc.
  destruct (digit_is_plain c Hc) as [-> _]. reflexivity.
Qed.

Lemma str_no_colon (n : Z) :
  all_chars (fun c => negb (Ascii.eqb c ":")) (str n) = true.
Proof.
  apply str_chars; [reflexivity|]. intros c Hc.
  destruct (digit_is_plain c Hc) as [_ [-> _]]. reflexivity.
Qed.

(** [int(str(n))] is [n]. *)
Lemma int_str (n : Z) : int (str n) = Returns n.
Proof.
  unfold int. rewrite (@strip_plain (str n) (str_no_space n)).
  destruct (str_shape n) as [d [Hnn [_ [Hpos Hneg]]]].
  destruct (Z_lt_le_dec n 0) as [Hn|Hn].
  - destruct (Hneg Hn) as [-> Hv].
    change (Ascii.eqb "-" "-") with true. cbv iota.
    rewrite (@int_digits_zero d false) by (intro; contradiction).
    simpl. rewrite Hv. f_equal. lia.
  - destruct (Hpos Hn) as [Hs Hv]. rewrite Hs.
    pose proof (uint_digits d) as Hd.
    destruct (DecimalString.NilEmpty.string_of_uint d) as [|c rest] eqn:E.
    + destruct d; simpl in E; congruence.
    + simpl in Hd. apply andb_true_iff in Hd. destruct Hd as [Hc _].
      destruct (digit_is_plain c Hc) as [_ [_ [-> ->]]].
      rewrite <- E, (@int_digits_zero d false) by (intro; contradiction).
      rewrite Hv. reflexivity.
Qed.

Lemma split_head (sep : ascii) (s : string) :
  exists pieces, split sep s = before sep s :: pieces.
Proof.
  induction s as [|c s [pieces IH]]; simpl; [exists []; reflexivity|].
  destruct (Ascii.eqb c sep); [eexists; reflexivity|].
  rewrite IH. eexists. reflexivity.
Qed.

Lemma split_first (sep : ascii) (a b : string) :
  all_chars (fun c => negb (Ascii.eqb c sep)) a = true ->
  split sep (a ++ String sep b) = a :: split sep b.
Proof.
  induction a as [|c a IH]; simpl; intro H.
  - rewrite Ascii.eqb_refl. reflexivity.
  - apply andb_true_iff in H. destruct H as [Hc Ha].
    destruct (Ascii.eqb c sep); [discriminate|].
    rewrite (IH Ha). reflexivity.
Qed.

Lemma before_all (sep : ascii) (s : string) :
  all_chars (fun c => negb (Ascii.eqb c sep)) s = true -> before sep s = s.
Proof.
  induction s as [|c s IH]; simpl; intro H; [reflexivity|].
  apply andb_true_iff in H. destruct H as [Hc Hs].
  destruct (Ascii.eqb c sep); [discriminate|]. rewrite (IH Hs). reflexivity.
Qed.

(** The two pieces read from an entry "year: name". *)
Lemma entry_pieces (year : Z) (name : string) :
  exists pieces,
    split ":" (str year ++ ": " ++ name)
    = str year :: String " " (before ":" name) :: pieces.
Proof.
  change (str year ++ ": " ++ name)%string
    with (str year ++ String ":" (String " " name))%string.
  rewrite (@split_first ":" (str year) (String " " name)
                        (str_no_colon year)).
  destruct (split_head ":" (String " " name)) as [pieces ->].
  exists pieces. reflexivity.
Qed.

Section Loaded.

Variable Loaded : Type.
Variable get_session : Z -> string -> string -> Loaded.
Variable get_event : Z -> string -> string -> string.

Lemma load_entry (year : Z) (name session_name : string) :
  load_session get_session (str year ++ ": " ++ name) session_name
  = Returns (get_session year (strip (before ":" name)) session_name).
Proof.
  unfold load_session. destruct (entry_pieces year name) as [pieces ->].
  unfold item. cbn [nth_error bind].
  rewrite (@strip_plain (str year) (str_no_space year)), int_str.
  reflexivity.
Qed.

Lemma sessions_of_entry (year : Z) (name : string) :
  get_sessions_names_of_event get_event (str year ++ ": " ++ name)
  = Returns (map (fun i => get_event year (strip (before ":" name))
                                     ("Session" ++ str (i + 1))%string)
                 [4; 3; 2; 1; 0]).
Proof.
  unfold get_sessions_names_of_event.
  destruct (entry_pieces year name) as [pieces ->].
  unfold item. cbn [nth_error bind].
  rewrite (@strip_plain (str year) (str_no_space year)), int_str.
  reflexivity.
Qed.

(** X14.  An entry "year: name" of the event dropdown is read back as it
    was written whenever the event name has no colon and no whitespace at
    either end: [load_session] loads the session of that year and that
    name, and [get_sessions_names_of_event] reads the five sessions of that
    event, the fifth first. *)
Theorem entry_round_trip (year : Z) (name session_name : string) :
  all_chars (fun c => negb (Ascii.eqb c ":")) name = true ->
  strip name = name ->
  load_session get_session (str year ++ ": " ++ name) session_name
  = Returns (get_session year name session_name)
  /\ get_sessions_names_of_event get_event (str year ++ ": " ++ name)
     = Returns [get_event year name "Session5";
                get_event year name "Session4";
                get_event year name "Session3";
                get_event year name "Session2";
                get_event year name "Session1"].
Proof.
  intros Hcolon Hstrip.
  rewrite load_entry, sessions_of_entry, (@before_all ":" name Hcolon),
    Hstrip.
  split; reflexivity.
Qed.

End Loaded.

Section Listed.

Variable get_event_schedule : Z -> list Event.
Variable now : Z.
Variable current_year : Z.

Lemma insert_by_date_perm (row : Event) (l : list Event) :
  Permutation (row :: l) (insert_by_date row l).
Proof.
  induction l as [|r l IH]; simpl; [apply Permutation_refl|].
  destruct (EventDate r <=? EventDate row); [apply Permutation_refl|].
  apply perm_trans with (r :: row :: l); [apply perm_swap|].
  apply perm_skip. exact IH.
Qed.

Lemma sort_by_date_perm (l : list Event) :
  Permutation l (sort_by_date_desc l).
Proof.
  induction l as [|r l IH]; simpl; [apply Permutation_refl|].
  apply perm_trans with (r :: sort_by_date_desc l);
    [apply perm_skip; exact IH|apply insert_by_date_perm].
Qed.

Lemma insert_by_date_sorted (row : Event) (l : list Event) :
  StronglySorted (fun a b => EventDate b <= EventDate a) l ->
  StronglySorted (fun a b => EventDate b <= EventDate a)
                 (insert_by_date row l).
Proof.
  induction 1 as [|r l Hl IH Hr]; simpl; [repeat constructor|].
  destruct (EventDate r <=? EventDate row) eqn:E.
  - apply Z.leb_le in E. constructor; [constructor; assumption|].
    constructor; [exact E|].
    rewrite Forall_forall in *. intros x Hx. specialize (Hr x Hx). lia.
  - apply Z.leb_gt in E. constructor; [exact IH|].
    rewrite Forall_forall in *. intros x Hx.
    apply (Permutation_in _ (Permutation_sym (insert_by_date_perm row l)))
      in Hx.
    destruct Hx as [<-|Hx]; [lia|exact (Hr x Hx)].
Qed.

Lemma sort_by_date_sorted (l : list Event) :
  StronglySorted (fun a b => EventDate b <= EventDate a)
                 (sort_by_date_desc l).
Proof.
  induction l as [|r l IH]; simpl; [constructor|].
  apply insert_by_date_sorted. exact IH.
Qed.

Lemma years_In (n_years year : Z) :
  In year (years current_year n_years)
  <-> current_year - n_years <= year <= current_year.
Proof.
  unfold years. rewrite in_map_iff. split.
  - intros [i [<- Hi]]. apply in_seq in Hi. lia.
  - intro H. exists (Z.to_nat (current_year - year)). split; [lia|].
    apply in_seq. lia.
Qed.

(** X15.  [events_of_last_n_year] lists only the events of the
    schedules of the years [current_year - n_years] to [current_year] that
    took place more than a day before now, each as "year: name"; and every
    entry it lists is read back by [load_session] without error, as the
    session of that year and of the event's name cut at its first colon. *)
Theorem listed_events_load
        (Loaded : Type) (get_session : Z -> string -> string -> Loaded)
        (n_years : Z) (entry session_name : string) :
  In entry (events_of_last_n_year get_event_schedule now current_year
                                  n_years) ->
  exists year row,
    current_year - n_years <= year <= current_year
    /\ In row (get_event_schedule year)
    /\ past now row
    /\ entry = (str year ++ ": " ++ EventName row)%string
    /\ load_session get_session entry session_name
       = Returns (get_session year (strip (before ":" (EventName row)))
                              session_name).
Proof.
  unfold events_of_last_n_year. intro H.
  apply in_flat_map in H. destruct H as [year [Hy H]].
  apply in_map_iff in H. destruct H as [row [<- Hrow]].
  apply filter_In in Hrow. destruct Hrow as [Hrow Hpast].
  exists year, row. split; [apply years_In; exact Hy|].
  split.
  { apply (Permutation_in _ (Permutation_sym (sort_by_date_perm _))).
    exact Hrow. }
  split; [apply Z.ltb_lt; exact Hpast|].
  split; [reflexivity|]. apply load_entry.
Qed.

(** X16.  With [n_years >= 0] and an event of the current year's schedule
    more than a day in the past, the first entry of
    [events_of_last_n_year] is the latest such event of the current year:
    no past event of the current year has a later date. *)
Theorem latest_event_first (n_years : Z) (some : Event) :
  0 <= n_years ->
  In some (get_event_schedule current_year) ->
  past now some ->
  exists row,
    In row (get_event_schedule current_year)
    /\ past now row
    /\ (forall other, In other (get_event_schedule current_year) ->
                      past now other -> EventDate other <= EventDate row)
    /\ hd_error (events_of_last_n_year get_event_schedule now current_year
                                       n_years)
       = Some (str current_year ++ ": " ++ EventName row)%string.
Proof.
  intros Hn Hsome Hpast.
  unfold events_of_last_n_year, years.
  replace (Z.to_nat (n_years + 1)) with (S (Z.to_nat n_years)) by lia.
  cbn [seq map flat_map]. rewrite Z.sub_0_r.
  set (sorted := sort_by_date_desc (get_event_schedule current_year)).
  set (kept := filter (fun row => EventDate row <? now - us_per_day) sorted).
  assert (Hkept : forall r, In r kept
                            <-> In r (get_event_schedule current_year)
                                /\ past now r).
  { intro r. unfold kept. rewrite filter_In, Z.ltb_lt. unfold past, sorted.
    split; intros [H1 H2]; (split; [|exact H2]).
    - exact (Permutation_in _ (Permutation_sym (sort_by_date_perm _)) H1).
    - exact (Permutation_in _ (sort_by_date_perm _) H1). }
  assert (Hsorted : StronglySorted (fun a b => EventDate b <= EventDate a)
                                   kept).
  { unfold kept. apply sorted_filter. apply sort_by_date_sorted. }
  destruct kept as [|row rest] eqn:E.
  - exfalso. apply (proj2 (Hkept some)). auto.
  - exists row. destruct (proj1 (Hkept row) (or_introl eq_refl)) as [H1 H2].
    split; [exact H1|]. split; [exact H2|]. split; [|reflexivity].
    intros other Ho Hp.
    destruct (proj2 (Hkept other) (conj Ho Hp)) as [<-|Hin]; [lia|].
    inversion Hsorted as [|? ? _ Hall]; subst.
    rewrite Forall_forall in Hall. exact (Hall other Hin).
Qed.

End Listed.

(** X14 at an input: the entry of the Monaco Grand Prix of 2024. *)
Lemma entry_round_trip_witness :
  load_session (fun year name session_name => (year, name, session_name))
               "2024: Monaco Grand Prix" "Race"
  = Returns (2024, "Monaco Grand Prix"%string, "Race"%string)
  /\ get_sessions_names_of_event
       (fun (year : Z) (name column : string) => column)
       "2024: Monaco Grand Prix"
     = Returns ["Session5"; "Session4"; "Session3"; "Session2";
                "Session1"]%string.
Proof.
  destruct (@entry_round_trip
              _ (fun year name session_name => (year, name, session_name))
              (fun (year : Z) (name column : string) => column)
              2024 "Monaco Grand Prix" "Race" eq_refl eq_refl)
    as [H1 H2].
  split; [exact H1|exact H2].
Defined.

(** X15 at an input: on 1 April 2024 the list starts with the Australian
    Grand Prix of 2024. *)
Lemma listed_events_load_witness :
  exists year row,
    2024 - 1 <= year <= 2024
    /\ In row (sample_schedules year)
    /\ past sample_now row
    /\ "2024: Australian Grand Prix"%string
       = (str year ++ ": " ++ EventName row)%string
    /\ load_session (fun year name session_name => (year, name, session_name))
                    "2024: Australian Grand Prix" "Race"
       = Returns (year, strip (before ":" (EventName row)), "Race"%string).
Proof.
  apply (@listed_events_load
           sample_schedules sample_now 2024 _
           (fun year name session_name => (year, name, session_name))
           1 "2024: Australian Grand Prix" "Race").
  left. reflexivity.
Defined.

(** X16 at an input: the Australian Grand Prix is the latest event before
    1 April 2024. *)
Lemma latest_event_first_witness :
  exists row,
    In row (sample_schedules 2024)
    /\ past sample_now row
    /\ (forall other, In other (sample_schedules 2024) ->
                      past sample_now other ->
                      EventDate other <= EventDate row)
    /\ hd_error (events_of_last_n_year sample_schedules sample_now 2024 1)
       = Some (str 2024 ++ ": " ++ EventName row)%string.
Proof.
  apply (@latest_event_first
           sample_schedules sample_now 2024 1
           (mkEvent 1709337600000000 "Bahrain Grand Prix")).
  - discriminate.
  - left. reflexivity.
  - reflexivity.
Defined.

End EventFacts.

Section DriverFacts.

Import Exc Drivers.

Lemma traverse_Forall2 (E A B : Type) (f : A -> Exc.outcome E B)
      (l : list A) :
  forall out, traverse f l = Returns out ->
              Forall2 (fun x y => f x = Returns y) l out.
Proof.
  induction l as [|x l IH]; intros out H; simpl in H.
  - injection H as <-. constructor.
  - destruct (f x) as [y|] eqn:Ex; simpl in H; [|discriminate].
    destruct (traverse f l) as [ys|]; simpl in H; [|discriminate].
    injection H as <-. constructor; [exact Ex|]. apply IH. reflexivity.
Qed.

Lemma traverse_raises (E A B : Type) (f : A -> Exc.outcome E B)
      (l : list A) :
  (exists e, traverse f l = Raises e)
  <-> exists x e, In x l /\ f x = Raises e.
Proof.
  induction l as [|x l IH]; simpl.
  - split; [intros [e H]; discriminate|intros [x [e [[] _]]]].
  - destruct (f x) as [y|e0] eqn:Ex; simpl.
    + destruct (traverse f l) as [ys|e1]; simpl.
      * split; [intros [e H]; discriminate|].
        intros [z [e [[<-|Hz] Hf]]]; [congruence|].
        destruct (proj2 IH) as [e' He']; [|discriminate].
        exists z, e. auto.
      * split; [intros _|intros _; exists e1; reflexivity].
        destruct (proj1 IH) as [z [e [Hz Hf]]]; [exists e1; reflexivity|].
        exists z, e. auto.
    + split; [intros _; exists x, e0; auto|].
      intros _. exists e0. reflexivity.
Qed.

Lemma Forall2_weaken_In (A B : Type) (P Q : A -> B -> Prop)
      (l : list A) (out : list B) :
  Forall2 P l out ->
  (forall x y, In x l -> P x y -> Q x y) ->
  Forall2 Q l out.
Proof.
  induction 1 as [|x y l out Hxy _ IH]; intro H; constructor.
  - apply H; [left; reflexivity|exact Hxy].
  - apply IH. intros x' y' Hx'. apply H. right. exact Hx'.
Qed.

Lemma filter_head (A : Type) (p : A -> bool) (l : list A) :
  match filter p l with
  | [] => forall x, In x l -> p x = false
  | first :: _ => find p l = Some first
  end.
Proof.
  induction l as [|a l IH]; simpl; [intros x []|].
  destruct (p a) eqn:E; [reflexivity|].
  destruct (filter p l) as [|first rest].
  - intros x [<-|Hx]; [exact E|exact (IH x Hx)].
  - exact IH.
Qed.

(** X17.  For a session whose drivers are listed by number,
    [get_drivers_short_name] raises [IndexError] exactly when some listed
    driver has no lap in [session.laps]; when it returns, it gives one
    abbreviation per listed driver, in the order of [session.drivers]: that
    of the driver's first lap. *)
Theorem short_names_need_laps (session : Session) :
  (forall drv, In drv (drivers session) -> isdigit drv = true) ->
  (get_drivers_short_name session = Raises IndexError
   <-> exists drv,
         In drv (drivers session)
         /\ forall l, In l (laps session) -> DriverNumber l <> drv)
  /\ forall out,
       get_drivers_short_name session = Returns out ->
       Forall2 (fun drv abbreviation =>
                  option_map Driver
                    (find (fun l => String.eqb (DriverNumber l) drv)
                          (laps session))
                  = Some abbreviation)
               (drivers session) out.
Proof.
  intro Hnum. unfold get_drivers_short_name.
  set (f := fun drv =>
              match pick_driver drv (laps session) with
              | [] => Raises IndexError
              | first :: _ => Returns (Driver first)
              end).
  assert (Hf : forall drv, In drv (drivers session) ->
                 match filter (fun l => String.eqb (DriverNumber l) drv)
                              (laps session) with
                 | [] => f drv = Raises IndexError
                 | first :: _ => f drv = Returns (Driver first)
                 end).
  { intros drv Hd. unfold f, pick_driver. rewrite (Hnum drv Hd).
    destruct (filter _ (laps session)); reflexivity. }
  split.
  - split.
    + intro H.
      destruct (proj1 (traverse_raises f (drivers session)))
        as [drv [e [Hd He]]]; [exists IndexError; exact H|].
      exists drv. split; [exact Hd|]. intros l Hl Heq.
      specialize (Hf drv Hd).
      pose proof (filter_head (fun l => String.eqb (DriverNumber l) drv)
                              (laps session)) as Hh.
      destruct (filter _ (laps session)) as [|first rest];
        [|congruence].
      specialize (Hh l Hl). simpl in Hh.
      apply String.eqb_neq in Hh. contradiction.
    + intros [drv [Hd Hno]].
      destruct (proj2 (traverse_raises f (drivers session))) as [e He].
      * exists drv, IndexError. split; [exact Hd|].
        specialize (Hf drv Hd).
        destruct (filter _ (laps session)) as [|first rest] eqn:E;
          [exact Hf|].
        assert (Hin : In first (filter (fun l => String.eqb (DriverNumber l)
                                                            drv)
                                       (laps session)))
          by (rewrite E; left; reflexivity).
        apply filter_In in Hin. destruct Hin as [Hin Hn].
        apply String.eqb_eq in Hn. exfalso. exact (Hno first Hin Hn).
      * destruct e. exact He.
  - intros out H. pose proof (traverse_Forall2 _ _ H) as HF.
    apply (@Forall2_weaken_In _ _ _ _ _ _ HF).
    intros drv abbreviation Hd Hx.
    specialize (Hf drv Hd).
    pose proof (filter_head (fun l => String.eqb (DriverNumber l) drv)
                            (laps session)) as Hh.
    destruct (filter _ (laps session)) as [|first rest]; [congruence|].
    rewrite Hh. simpl. congruence.
Qed.

(** X17 at an input: driver 14 is listed and has no lap. *)
Lemma short_names_need_laps_witness :
  get_drivers_short_name session_with_absent_driver = Raises IndexError.
Proof.
  assert (Hnum : forall drv, In drv (drivers session_with_absent_driver) ->
                             isdigit drv = true).
  { intros drv [<-|[<-|[<-|[]]]]; reflexivity. }
  apply (proj1 (@short_names_need_laps session_with_absent_driver Hnum)).
  exists "14"%string. split; [right; right; left; reflexivity|].
  intros l [<-|[<-|[<-|[]]]]; discriminate.
Defined.

End DriverFacts.

Section LapPlotFacts.

Import Py LapTime LapTimeSpec LapPlots LapPlotSpec.

Lemma convert_all_kept (data : list Timedelta) :
  convert_timedelta_to_datetime data = Ok (map kept data).
Proof.
  induction data as [|t data IH]; [reflexivity|].
  cbn [convert_timedelta_to_datetime map]. rewrite convert_one_kept, IH.
  reflexivity.
Qed.

Lemma compound_trace_returns (driver_laps : list QuickLap)
      (entry : string * string) :
  compound_trace driver_laps entry
  = Ok (mkTrace (map ql_LapNumber (on_compound (fst entry) driver_laps))
                (map (fun l => kept (ql_LapTime l))
                     (on_compound (fst entry) driver_laps))
                (fst entry) (snd entry)).
Proof.
  unfold compound_trace. cbv zeta. rewrite convert_all_kept. simpl.
  rewrite map_map. reflexivity.
Qed.

Lemma plot_returns (compound_colors : list (string * string))
      (driver_laps : list QuickLap) :
  plot_session_laptimes_with_compound_type compound_colors driver_laps
  = Ok (map (fun entry =>
               mkTrace (map ql_LapNumber
                            (on_compound (fst entry) driver_laps))
                       (map (fun l => kept (ql_LapTime l))
                            (on_compound (fst entry) driver_laps))
                       (fst entry) (snd entry))
            compound_colors).
Proof.
  induction compound_colors as [|entry rest IH]; [reflexivity|].
  simpl. rewrite compound_trace_returns. simpl. rewrite IH. reflexivity.
Qed.

(** Laps on one of the compounds [keys], counted compound by compound. *)
Lemma laps_by_compound (keys : list string) (driver_laps : list QuickLap) :
  NoDup keys ->
  list_sum (map (fun k => List.length (on_compound k driver_laps)) keys)
  = List.length
      (filter (fun l => match ql_Compound l with
                        | Some c => existsb (String.eqb c) keys
                        | None => false
                        end) driver_laps).
Proof.
  induction 1 as [|k keys Hk Hnd IH]; simpl.
  - induction driver_laps as [|l ls IHl]; simpl; [reflexivity|].
    destruct (ql_Compound l); exact IHl.
  - rewrite IH. clear IH. unfold on_compound.
    induction driver_laps as [|l ls IHl]; simpl; [reflexivity|].
    destruct (ql_Compound l) as [c|]; [|exact IHl].
    destruct (String.eqb_spec c k) as [->|Hne]; simpl.
    + assert (Hno : existsb (String.eqb k) keys = false).
      { destruct (existsb (String.eqb k) keys) eqn:E; [|reflexivity].
        apply existsb_exists in E. destruct E as [x [Hx He]].
        apply String.eqb_eq in He. subst x. contradiction. }
      rewrite Hno. simpl. f_equal. exact IHl.
    + destruct (existsb (String.eqb c) keys); simpl; [|exact IHl].
      rewrite Nat.add_succ_r. f_equal. exact IHl.
Qed.

(** X18.  [plot_session_laptimes_with_compound_type] never fails on the
    quick laps of a driver.  It draws one trace per compound of the colour
    table, in the table's order, also for a compound the driver never
    used; the trace of a compound holds the laps on that compound, in
    order, each at its lap number and at its lap time as converted (the
    minutes, seconds and milliseconds).  Every lap on a compound of the
    table is drawn once: the points add up to the number of these laps, and
    a lap whose compound is missing or not in the table is not drawn. *)
Theorem laps_drawn_once (compound_colors : list (string * string))
        (driver_laps : list QuickLap) :
  NoDup (map fst compound_colors) ->
  exists traces,
    plot_session_laptimes_with_compound_type compound_colors driver_laps
    = Ok traces
    /\ map (fun t => (trace_name t, trace_color t)) traces = compound_colors
    /\ Forall (fun t =>
                 trace_x t
                 = map ql_LapNumber (on_compound (trace_name t) driver_laps)
                 /\ trace_y t
                    = map (fun l => kept (ql_LapTime l))
                          (on_compound (trace_name t) driver_laps))
              traces
    /\ points traces
       = List.length (filter (known_compound compound_colors) driver_laps).
Proof.
  intro Hnd. eexists. split; [apply plot_returns|].
  split.
  { rewrite map_map. simpl.
    induction compound_colors as [|[k v] rest IH]; [reflexivity|].
    simpl. f_equal. apply IH. inversion Hnd; assumption. }
  split.
  { apply Forall_forall. intros t Ht. apply in_map_iff in Ht.
    destruct Ht as [entry [<- _]]. simpl. split; reflexivity. }
  unfold points, known_compound. rewrite map_map. simpl.
  rewrite <- (laps_by_compound driver_laps Hnd), map_map.
  induction compound_colors as [|entry rest IH]; [reflexivity|].
  simpl. rewrite length_map. f_equal. apply IH. inversion Hnd; assumption.
Qed.

(** X18 at an input: three of the four sample laps are drawn, none on the
    medium compound. *)
Lemma laps_drawn_once_witness :
  exists traces,
    plot_session_laptimes_with_compound_type sample_colors sample_laps
    = Ok traces
    /\ map (fun t => (trace_name t, trace_color t)) traces = sample_colors
    /\ Forall (fun t =>
                 trace_x t
                 = map ql_LapNumber (on_compound (trace_name t) sample_laps)
                 /\ trace_y t
                    = map (fun l => kept (ql_LapTime l))
                          (on_compound (trace_name t) sample_laps))
              traces
    /\ points traces = 3%nat.
Proof.
  apply (@laps_drawn_once sample_colors sample_laps).
  repeat constructor; simpl; intuition discriminate.
Defined.

End LapPlotFacts.
